(** * Sandboxed code execution and output comparison

    A shallow embedding of [src/tools/code_executor.py]: the policy filter,
    the restricted environment, the resource-limited executor
    ([SafeCodeExecutor]), the output comparator and the execution facade
    ([CodeExecutorTool], [tool_function]).

    Conventions of the embedding.
    - A Python [str] is the list of its Unicode code points.
    - The similarity a comparison holds is given as the exact quotient the
      code divides out; the percentage shown in the details is computed in
      binary64, as the code computes it, and rounded as [format] rounds.
    - A progress line is written by [print] to the stream [sys.stdout] is
      bound to, and [print] can fail: whether it does is left to the
      runtime.
    - Global process state ([sys.stdout], [sys.stderr], the SIGALRM timer
      and handler, the address-space limit) is an explicit [world] that
      every operation threads through.
    - The Python interpreter that runs the untrusted code ([exec]) is a
      parameter: nothing is assumed about what a run prints, how it ends
      or what it does to the world.
    - The two library functions whose result the claims depend on,
      [json.loads] and [difflib.SequenceMatcher.ratio], are modelled after
      CPython's implementation. *)

From Stdlib Require Import List NArith ZArith QArith Bool Ascii String Lia.
From Stdlib Require Import DecimalString Permutation SpecFloat.
Import ListNotations.

Set Implicit Arguments.
Set Warnings "-register-all".
Close Scope Q_scope.
Open Scope nat_scope.

(* ================================================================== *)
(** * Part I: the program *)
(* ================================================================== *)

(** ** Python text *)

Definition char := N.
Definition str := list char.

(** A source literal made of ASCII characters. *)
Definition lit (s : string) : str := map N_of_ascii (list_ascii_of_string s).

Definition chr (a : ascii) : char := N_of_ascii a.

(** The double quote and the backslash. *)
Definition dquote : char := 34%N.
Definition bslash : char := 92%N.

Fixpoint str_eqb (a b : str) : bool :=
  match a, b with
  | [], [] => true
  | x :: a', y :: b' => (x =? y)%N && str_eqb a' b'
  | _, _ => false
  end.

Definition in_range (lo hi c : N) : bool := ((lo <=? c) && (c <=? hi))%N.

(** [str.isspace] on one code point, the test [str.strip()] applies. *)
Definition is_space (c : char) : bool :=
  in_range 9 13 c || in_range 28 32 c || (c =? 133)%N || (c =? 160)%N
  || (c =? 5760)%N || in_range 8192 8202 c || (c =? 8232)%N || (c =? 8233)%N
  || (c =? 8239)%N || (c =? 8287)%N || (c =? 12288)%N.

Fixpoint lstrip (s : str) : str :=
  match s with
  | c :: t => if is_space c then lstrip t else s
  | [] => []
  end.

Definition rstrip (s : str) : str := rev (lstrip (rev s)).

(** [s.strip()] *)
Definition strip (s : str) : str := rstrip (lstrip s).

(** [str.lower] on one code point.  ASCII capitals are lowered; U+212A
    (Kelvin sign) and U+0130 are the only code points outside ASCII whose
    lower case contains an ASCII letter.  Every other code point lowers to
    code points outside ASCII, which is all the scan against the ASCII
    deny-list observes: they are left as they are. *)
Definition lower_char (c : char) : str :=
  if in_range 65 90 c then [(c + 32)%N]
  else if (c =? 8490)%N then [107%N]
  else if (c =? 304)%N then [105%N; 775%N]
  else [c].

(** [s.lower()] *)
Definition lower (s : str) : str := flat_map lower_char s.

Fixpoint starts_with (p s : str) : bool :=
  match p, s with
  | [], _ => true
  | x :: p', y :: s' => (x =? y)%N && starts_with p' s'
  | _ :: _, [] => false
  end.

(** [needle in hay] *)
Fixpoint contains (needle hay : str) : bool :=
  starts_with needle hay
  || match hay with
     | [] => false
     | _ :: t => contains needle t
     end.

(** [str(n)] for a non-negative integer *)
Definition str_of_nat (n : nat) : str :=
  lit (NilEmpty.string_of_uint (Nat.to_uint n)).

Definition str_of_N (n : N) : str :=
  lit (NilEmpty.string_of_uint (N.to_uint n)).

(** ** Python values *)

(** A float is a literal read by the JSON decoder ([float(text)]), one of
    the three special values the decoder accepts, or a computed real. *)
Inductive pyfloat : Type :=
| Fliteral (text : str)
| Fnan
| Finf
| Fneginf
| Freal (q : Q).

(** The values that flow through the facade.  A [dict] keeps its items in
    insertion order, with one item per key. *)
Inductive pyval : Type :=
| PNone
| PBool (b : bool)
| PInt (z : Z)
| PFloat (f : pyfloat)
| PStr (s : str)
| PList (l : list pyval)
| PDict (d : list (str * pyval)).

Definition dict := list (str * pyval).

(** [d.get(k)] *)
Fixpoint dict_get (k : str) (d : dict) : option pyval :=
  match d with
  | [] => None
  | (k', v) :: d' => if str_eqb k k' then Some v else dict_get k d'
  end.

(** [d.get(k, default)] *)
Definition get_default (d : dict) (k : str) (default : pyval) : pyval :=
  match dict_get k d with
  | Some v => v
  | None => default
  end.

(** [d[k] = v]: an existing key keeps its place and takes the new value. *)
Fixpoint dict_set (k : str) (v : pyval) (d : dict) : dict :=
  match d with
  | [] => [(k, v)]
  | (k', v') :: d' =>
      if str_eqb k k' then (k', v) :: d' else (k', v') :: dict_set k v d'
  end.

(** [dict(pairs)] *)
Definition dict_of_pairs (pairs : list (str * pyval)) : dict :=
  fold_left (fun d kv => dict_set (fst kv) (snd kv) d) pairs [].

(** [type(v).__name__] *)
Definition type_name (v : pyval) : str :=
  match v with
  | PNone => lit "NoneType"
  | PBool _ => lit "bool"
  | PInt _ => lit "int"
  | PFloat _ => lit "float"
  | PStr _ => lit "str"
  | PList _ => lit "list"
  | PDict _ => lit "dict"
  end.

(** ** Exceptions *)

(** Where an exception sits in the hierarchy the handlers test:
    [TimeoutError], [MemoryError], [SyntaxError], any other subclass of
    [Exception], and what derives from [BaseException] only ([SystemExit],
    [KeyboardInterrupt], [GeneratorExit]). *)
Inductive exc_kind : Type :=
| KTimeoutError
| KMemoryError
| KSyntaxError
| KException
| KBaseException.

Record exception : Type := mkExc {
  exc_kind_of : exc_kind;
  exc_name : str;      (* type(e).__name__ *)
  exc_str : str        (* str(e) *)
}.

(** [isinstance(e, Exception)] *)
Definition is_Exception (e : exception) : bool :=
  match exc_kind_of e with
  | KBaseException => false
  | _ => true
  end.

Inductive outcome (A : Type) : Type :=
| Returns (a : A)
| Raises (e : exception).

Arguments Raises {A} e.

Definition AttributeError (v : pyval) (attr : str) : exception :=
  mkExc KException (lit "AttributeError")
    (lit "'" ++ type_name v ++ lit "' object has no attribute '" ++ attr
         ++ lit "'").

Definition TypeError_no_len (v : pyval) : exception :=
  mkExc KException (lit "TypeError")
    (lit "object of type '" ++ type_name v ++ lit "' has no len()").

(** [len(v)] *)
Definition py_len (v : pyval) : outcome nat :=
  match v with
  | PStr s => Returns (List.length s)
  | PList l => Returns (List.length l)
  | PDict d => Returns (List.length d)
  | _ => Raises (TypeError_no_len v)
  end.

(** ** [json.loads]

    The decoder of CPython's [json] package on a [str]: the grammar of
    [json.decoder] and [json.scanner] with the default hooks and
    [strict=True].  Every failure of the decoder is a [JSONDecodeError];
    limits of the implementation (recursion depth, the size of integer
    literals) are not part of the model. *)

Inductive scan (A : Type) : Type :=
| Scanned (a : A) (rest : str)
| DecodeError
| Exhausted.

Arguments DecodeError {A}.
Arguments Exhausted {A}.

(** [WHITESPACE]: space, tab, line feed and carriage return *)
Definition is_json_ws (c : char) : bool :=
  (c =? 32)%N || (c =? 9)%N || (c =? 10)%N || (c =? 13)%N.

Fixpoint skip_ws (s : str) : str :=
  match s with
  | c :: t => if is_json_ws c then skip_ws t else s
  | [] => []
  end.

Definition is_digit (c : char) : bool := in_range 48 57 c.

Definition hex_digit (c : char) : option N :=
  if in_range 48 57 c then Some (c - 48)%N
  else if in_range 97 102 c then Some (c - 87)%N
  else if in_range 65 70 c then Some (c - 55)%N
  else None.

(** [_decode_uXXXX] *)
Definition hex4 (h1 h2 h3 h4 : char) : option N :=
  match hex_digit h1, hex_digit h2, hex_digit h3, hex_digit h4 with
  | Some a, Some b, Some c, Some d => Some (((a * 16 + b) * 16 + c) * 16 + d)%N
  | _, _, _, _ => None
  end.

(** [BACKSLASH]: the one-character escapes *)
Definition backslash (c : char) : option char :=
  if (c =? dquote)%N then Some (dquote)
  else if (c =? bslash)%N then Some (bslash)
  else if (c =? chr "/")%N then Some (chr "/")
  else if (c =? chr "b")%N then Some 8%N
  else if (c =? chr "f")%N then Some 12%N
  else if (c =? chr "n")%N then Some 10%N
  else if (c =? chr "r")%N then Some 13%N
  else if (c =? chr "t")%N then Some 9%N
  else None.

(** [py_scanstring], started after the opening quote; [acc] holds the
    decoded characters so far, last first. *)
Fixpoint scanstring (s : str) (acc : str) : scan str :=
  match s with
  | [] => DecodeError
  | c :: t =>
      if (c =? dquote)%N then Scanned (rev acc) t
      else if (c =? bslash)%N then
        match t with
        | [] => DecodeError
        | e :: t' =>
            if (e =? chr "u")%N then
              match t' with
              | h1 :: h2 :: h3 :: h4 :: t4 =>
                  match hex4 h1 h2 h3 h4 with
                  | None => DecodeError
                  | Some uni =>
                      if in_range 55296 56319 uni then
                        match t4 with
                        | b :: u :: t6 =>
                            if (b =? bslash)%N && (u =? chr "u")%N then
                              match t6 with
                              | g1 :: g2 :: g3 :: g4 :: t10 =>
                                  match hex4 g1 g2 g3 g4 with
                                  | None => DecodeError
                                  | Some uni2 =>
                                      if in_range 56320 57343 uni2 then
                                        scanstring t10
                                          ((65536 + ((uni - 55296) * 1024
                                                     + (uni2 - 56320)))%N
                                             :: acc)
                                      else scanstring t4 (uni :: acc)
                                  end
                              | _ => DecodeError
                              end
                            else scanstring t4 (uni :: acc)
                        | _ => scanstring t4 (uni :: acc)
                        end
                      else scanstring t4 (uni :: acc)
                  end
              | _ => DecodeError
              end
            else
              match backslash e with
              | Some x => scanstring t' (x :: acc)
              | None => DecodeError
              end
        end
      else if (c <? 32)%N then DecodeError
      else scanstring t (c :: acc)
  end.

Fixpoint span_digits (s : str) : str * str :=
  match s with
  | c :: t =>
      if is_digit c then let (ds, r) := span_digits t in (c :: ds, r)
      else ([], s)
  | [] => ([], [])
  end.

Definition digits_value (ds : str) : Z :=
  fold_left (fun z c => (z * 10 + Z.of_N (c - 48))%Z) ds 0%Z.

(** The integer part of [NUMBER_RE]: an optional minus sign, then either a
    single 0 or a non-zero digit followed by digits. *)
Definition match_integer (s : str) : option (str * str) :=
  let sign_rest :=
    match s with
    | c :: t => if (c =? chr "-")%N then ([c], t) else ([], s)
    | [] => ([], s)
    end in
  match snd sign_rest with
  | d :: t =>
      if (d =? chr "0")%N then Some (fst sign_rest ++ [d], t)
      else if is_digit d then
        let (ds, r) := span_digits t in Some (fst sign_rest ++ d :: ds, r)
      else None
  | [] => None
  end.

(** The optional fraction of [NUMBER_RE]: a dot and at least one digit. *)
Definition match_frac (s : str) : str * str :=
  match s with
  | dot :: d :: t =>
      if (dot =? chr ".")%N && is_digit d then
        let (ds, r) := span_digits t in (dot :: d :: ds, r)
      else ([], s)
  | _ => ([], s)
  end.

(** The optional exponent of [NUMBER_RE]: e or E, an optional sign and at
    least one digit. *)
Definition match_exp (s : str) : str * str :=
  match s with
  | e :: t =>
      if (e =? chr "e")%N || (e =? chr "E")%N then
        match t with
        | sg :: d :: t' =>
            if ((sg =? chr "-")%N || (sg =? chr "+")%N) && is_digit d then
              let (ds, r) := span_digits t' in (e :: sg :: d :: ds, r)
            else if is_digit sg then
              let (ds, r) := span_digits (d :: t') in (e :: sg :: ds, r)
            else ([], s)
        | [d] =>
            if is_digit d then ([e; d], []) else ([], s)
        | [] => ([], s)
        end
      else ([], s)
  | [] => ([], s)
  end.

(** [int(integer)] *)
Definition int_of_literal (text : str) : Z :=
  match text with
  | c :: t => if (c =? chr "-")%N then (- digits_value t)%Z
              else digits_value text
  | [] => 0%Z
  end.

(** A match of [NUMBER_RE]: an [int] when the literal has neither fraction
    nor exponent, otherwise the [float] of the whole literal. *)
Definition match_number (s : str) : option (pyval * str) :=
  match match_integer s with
  | None => None
  | Some (integer, r1) =>
      let (frac, r2) := match_frac r1 in
      let (exp, r3) := match_exp r2 in
      match frac, exp with
      | [], [] => Some (PInt (int_of_literal integer), r3)
      | _, _ => Some (PFloat (Fliteral (integer ++ frac ++ exp)), r3)
      end
  end.

(** [s[idx:idx+len(word)] == word], giving what follows the word *)
Fixpoint after_word (word s : str) : option str :=
  match word, s with
  | [], _ => Some s
  | x :: w', y :: s' => if (x =? y)%N then after_word w' s' else None
  | _ :: _, [] => None
  end.

(** The literals and numbers of [_scan_once], in the order it tries them. *)
Definition scan_atom (s : str) : scan pyval :=
  match after_word (lit "null") s with
  | Some r => Scanned PNone r
  | None =>
  match after_word (lit "true") s with
  | Some r => Scanned (PBool true) r
  | None =>
  match after_word (lit "false") s with
  | Some r => Scanned (PBool false) r
  | None =>
  match match_number s with
  | Some (v, r) => Scanned v r
  | None =>
  match after_word (lit "NaN") s with
  | Some r => Scanned (PFloat Fnan) r
  | None =>
  match after_word (lit "Infinity") s with
  | Some r => Scanned (PFloat Finf) r
  | None =>
  match after_word (lit "-Infinity") s with
  | Some r => Scanned (PFloat Fneginf) r
  | None => DecodeError
  end end end end end end end.

(** The loop of [JSONArray], entered before a value; [n] bounds the number
    of iterations. *)
Fixpoint array_items (scan_once : str -> scan pyval) (n : nat)
    (values : list pyval) (s : str) : scan pyval :=
  match n with
  | O => Exhausted
  | S n' =>
      match scan_once s with
      | Scanned v r =>
          match skip_ws r with
          | c :: r' =>
              if (c =? chr "]")%N then Scanned (PList (values ++ [v])) r'
              else if (c =? chr ",")%N then
                array_items scan_once n' (values ++ [v]) (skip_ws r')
              else DecodeError
          | [] => DecodeError
          end
      | DecodeError => DecodeError
      | Exhausted => Exhausted
      end
  end.

(** The loop of [JSONObject], entered after the opening quote of a key. *)
Fixpoint object_items (scan_once : str -> scan pyval) (n : nat)
    (pairs : list (str * pyval)) (s : str) : scan pyval :=
  match n with
  | O => Exhausted
  | S n' =>
      match scanstring s [] with
      | Scanned key r =>
          match skip_ws r with
          | colon :: r1 =>
              if (colon =? chr ":")%N then
                match scan_once (skip_ws r1) with
                | Scanned v r2 =>
                    match skip_ws r2 with
                    | c :: r3 =>
                        if (c =? chr "}")%N then
                          Scanned (PDict (dict_of_pairs (pairs ++ [(key, v)])))
                                  r3
                        else if (c =? chr ",")%N then
                          match skip_ws r3 with
                          | q :: r4 =>
                              if (q =? dquote)%N then
                                object_items scan_once n'
                                  (pairs ++ [(key, v)]) r4
                              else DecodeError
                          | [] => DecodeError
                          end
                        else DecodeError
                    | [] => DecodeError
                    end
                | DecodeError => DecodeError
                | Exhausted => Exhausted
                end
              else DecodeError
          | [] => DecodeError
          end
      | DecodeError => DecodeError
      | Exhausted => Exhausted
      end
  end.

(** [_scan_once].  [fuel] bounds the nesting and the length of the loops;
    one more than the length of the text is enough (see
    [scan_once_enough_fuel]). *)
Fixpoint scan_once (fuel : nat) (s : str) : scan pyval :=
  match fuel with
  | O => Exhausted
  | S fuel' =>
      match s with
      | [] => DecodeError
      | c :: t =>
          if (c =? dquote)%N then
            match scanstring t [] with
            | Scanned x r => Scanned (PStr x) r
            | DecodeError => DecodeError
            | Exhausted => Exhausted
            end
          else if (c =? chr "{")%N then
            match skip_ws t with
            | q :: r =>
                if (q =? dquote)%N then
                  object_items (scan_once fuel') fuel' [] r
                else if (q =? chr "}")%N then Scanned (PDict []) r
                else DecodeError
            | [] => DecodeError
            end
          else if (c =? chr "[")%N then
            match skip_ws t with
            | q :: r =>
                if (q =? chr "]")%N then Scanned (PList []) r
                else array_items (scan_once fuel') fuel' [] (q :: r)
            | [] => DecodeError
            end
          else scan_atom s
      end
  end.

Inductive loaded : Type :=
| Decoded (v : pyval)
| JSONDecodeError.

(** [json.loads(s)] for a [str]: a leading byte-order mark is refused, white
    space is skipped on both sides of the one value, and anything after it
    is "Extra data". *)
Definition json_loads (s : str) : loaded :=
  match s with
  | 65279%N :: _ => JSONDecodeError
  | _ =>
      match scan_once (S (List.length s)) (skip_ws s) with
      | Scanned v rest =>
          match skip_ws rest with
          | [] => Decoded v
          | _ :: _ => JSONDecodeError
          end
      | DecodeError => JSONDecodeError
      | Exhausted => JSONDecodeError
      end
  end.

(** ** [difflib.SequenceMatcher(None, a, b).ratio()]

    The matcher of CPython's [difflib] with no junk predicate and the
    default [autojunk=True].  Indices are natural numbers. *)

Record Match : Type := mkMatch {
  match_a : nat;
  match_b : nat;
  match_size : nat
}.

(** The ascending indices [j >= from] with [b[j - from] == x]. *)
Fixpoint indices_from (from : nat) (x : char) (b : str) : list nat :=
  match b with
  | [] => []
  | y :: t =>
      if (x =? y)%N then from :: indices_from (S from) x t
      else indices_from (S from) x t
  end.

(** [__chain_b]: with [autojunk], an element of a sequence of 200 or more
    that occurs more than [n // 100 + 1] times is popular. *)
Definition popular (b : str) (x : char) : bool :=
  (200 <=? List.length b)
  && (List.length b / 100 + 1 <? List.length (indices_from 0 x b)).

(** [b2j.get(x, [])]: the indices of [x] in [b], none for a popular [x]. *)
Definition b2j (b : str) (x : char) : list nat :=
  if popular b x then [] else indices_from 0 x b.

(** [j2len.get(j - 1, 0)] *)
Fixpoint j2len_get (j2len : list (nat * nat)) (key : nat) : nat :=
  match j2len with
  | [] => 0
  | (j, k) :: rest => if j =? key then k else j2len_get rest key
  end.

Definition j2len_get_pred (j2len : list (nat * nat)) (j : nat) : nat :=
  match j with
  | O => 0
  | S j' => j2len_get j2len j'
  end.

(** The inner loop of [find_longest_match] for row [i] of [a]: [js] is
    [b2j.get(a[i])]; indices below [blo] are skipped and the first one at
    or above [bhi] ends the loop. *)
Fixpoint match_row (blo bhi i : nat) (j2len : list (nat * nat))
    (js : list nat) (newj2len : list (nat * nat)) (best : Match)
  : list (nat * nat) * Match :=
  match js with
  | [] => (newj2len, best)
  | j :: js' =>
      if j <? blo then match_row blo bhi i j2len js' newj2len best
      else if bhi <=? j then (newj2len, best)
      else
        let k := j2len_get_pred j2len j + 1 in
        let best' :=
          if match_size best <? k then mkMatch (i + 1 - k) (j + 1 - k) k
          else best in
        match_row blo bhi i j2len js' ((j, k) :: newj2len) best'
  end.

(** The outer loop, [for i in range(alo, ahi)], with [n] rows left. *)
Fixpoint match_rows (a b : str) (blo bhi i n : nat)
    (j2len : list (nat * nat)) (best : Match) : Match :=
  match n with
  | O => best
  | S n' =>
      let (newj2len, best') :=
        match_row blo bhi i j2len (b2j b (nth i a 0%N)) [] best in
      match_rows a b blo bhi (S i) n' newj2len best'
  end.

(** [while besti > alo and bestj > blo and a[besti-1] == b[bestj-1]]: the
    match grows to the left. *)
Fixpoint extend_left (a b : str) (alo blo besti bestj bestsize : nat)
  : Match :=
  match besti with
  | O => mkMatch besti bestj bestsize
  | S i' =>
      if (alo <? besti) && (blo <? bestj)
         && (nth i' a 0 =? nth (bestj - 1) b 0)%N
      then extend_left a b alo blo i' (bestj - 1) (bestsize + 1)
      else mkMatch besti bestj bestsize
  end.

(** [while besti+bestsize < ahi and bestj+bestsize < bhi and
    a[besti+bestsize] == b[bestj+bestsize]]: the match grows to the right;
    [room] is [ahi - (besti + bestsize)]. *)
Fixpoint extend_right (a b : str) (bhi besti bestj : nat)
    (room bestsize : nat) : nat :=
  match room with
  | O => bestsize
  | S room' =>
      if (bestj + bestsize <? bhi)
         && (nth (besti + bestsize) a 0 =? nth (bestj + bestsize) b 0)%N
      then extend_right a b bhi besti bestj room' (bestsize + 1)
      else bestsize
  end.

(** [find_longest_match(alo, ahi, blo, bhi)].  With no junk the two loops
    that extend a match over junk elements never run. *)
Definition find_longest_match (a b : str) (alo ahi blo bhi : nat) : Match :=
  let best := match_rows a b blo bhi alo (ahi - alo) [] (mkMatch alo blo 0) in
  let m := extend_left a b alo blo
             (match_a best) (match_b best) (match_size best) in
  let size := extend_right a b bhi (match_a m) (match_b m)
                (ahi - (match_a m + match_size m)) (match_size m) in
  mkMatch (match_a m) (match_b m) size.

Definition region : Type := nat * nat * nat * nat.

(** The work list of [get_matching_blocks], a stack: the head of [queue] is
    the region [queue.pop()] returns and [queue.append] pushes in front.
    [None] when [fuel] iterations were not enough. *)
Fixpoint blocks_loop (fuel : nat) (a b : str) (queue : list region)
    (matching_blocks : list Match) : option (list Match) :=
  match queue with
  | [] => Some matching_blocks
  | (alo, ahi, blo, bhi) :: queue' =>
      match fuel with
      | O => None
      | S fuel' =>
          let x := find_longest_match a b alo ahi blo bhi in
          let i := match_a x in
          let j := match_b x in
          let k := match_size x in
          if k =? 0 then blocks_loop fuel' a b queue' matching_blocks
          else
            let q1 :=
              if (alo <? i) && (blo <? j) then (alo, i, blo, j) :: queue'
              else queue' in
            let q2 :=
              if (i + k <? ahi) && (j + k <? bhi)
              then (i + k, ahi, j + k, bhi) :: q1 else q1 in
            blocks_loop fuel' a b q2 (matching_blocks ++ [x])
      end
  end.

(** The blocks [get_matching_blocks] finds, before it sorts them, merges
    adjacent ones and appends the empty sentinel: none of the three changes
    the sum of the sizes, which is all [ratio] reads.  [2 * len(a) + 1]
    iterations are enough (see [matching_blocks_found]). *)
Definition matching_blocks (a b : str) : option (list Match) :=
  blocks_loop (2 * List.length a + 1) a b
    [(0, List.length a, 0, List.length b)] [].

Definition sum_sizes (blocks : list Match) : nat :=
  fold_right (fun m acc => match_size m + acc) 0 blocks.

(** [sum(triple[-1] for triple in self.get_matching_blocks())] *)
Definition matches (a b : str) : nat :=
  match matching_blocks a b with
  | Some blocks => sum_sizes blocks
  | None => 0
  end.

(** [_calculate_ratio(matches, length)] *)
Definition calculate_ratio (matches length : nat) : Q :=
  match length with
  | O => 1%Q
  | S _ => (Z.of_nat (2 * matches) # Pos.of_nat length)%Q
  end.

(** [SequenceMatcher(None, a, b).ratio()] *)
Definition ratio (a b : str) : Q :=
  calculate_ratio (matches a b) (List.length a + List.length b).

(** [float(n)] for an integer [n]: the nearest binary64 number. *)
Definition binary64 (n : Z) : spec_float := binary_normalize 53 1024 n 0 false.

(** The real number a finite binary64 number stands for. *)
Definition binary64_value (x : spec_float) : Q :=
  match x with
  | S754_finite s m e =>
      let v := if s then Zneg m else Zpos m in
      match e with
      | Z0 => inject_Z v
      | Zpos p => inject_Z (v * 2 ^ Zpos p)
      | Zneg p => (v # (2 ^ p))%Q
      end
  | _ => 0%Q
  end.

(** [_calculate_ratio(matches, length)] as the interpreter computes it:
    [2.0 * matches / length] in binary64, each operation rounded to
    nearest. *)
Definition calculate_ratio_binary64 (matches length : nat) : spec_float :=
  match length with
  | O => binary64 1
  | S _ =>
      SFdiv 53 1024
        (SFmul 53 1024 (binary64 2) (binary64 (Z.of_nat matches)))
        (binary64 (Z.of_nat length))
  end.

(** [similarity * 100] for the [similarity] that [ratio()] returned. *)
Definition percentage (a b : str) : Q :=
  binary64_value
    (SFmul 53 1024
       (calculate_ratio_binary64 (matches a b)
          (List.length a + List.length b))
       (binary64 100)).

(** [f"{x:.1f}"] for a non-negative [x]: one decimal, the exact value of
    the binary64 number rounded half to even. *)
Definition format_1f (x : Q) : str :=
  let n := (Qnum x * 10)%Z in
  let d := Zpos (Qden x) in
  let t := (n / d)%Z in
  let r := (n mod d)%Z in
  let tenths :=
    if (d <? 2 * r)%Z then (t + 1)%Z
    else if (2 * r =? d)%Z && Z.odd t then (t + 1)%Z
    else t in
  str_of_N (Z.to_N (tenths / 10)) ++ lit "." ++ str_of_N (Z.to_N (tenths mod 10)).

(** ** The process state *)

(** What [sys.stdout] or [sys.stderr] is bound to: a stream the process
    had before the call, or one of the two [StringIO] buffers of the call. *)
Inductive stream : Type :=
| ProcessStream (id : nat)
| stdout_capture
| stderr_capture.

(** The process-wide alarm of [signal.alarm]; a platform without SIGALRM
    has none. *)
Inductive alarm_state : Type :=
| AlarmUnsupported
| AlarmIdle
| AlarmPending (seconds : N).

(** The handler installed for SIGALRM. *)
Inductive handler : Type :=
| DefaultHandler
| OtherHandler (id : nat)
| TimeoutHandler (timeout : N).

(** [RLIMIT_AS]: soft and hard limit in bytes, [None] for no limit; a
    platform without the [resource] limits has none. *)
Inductive rlimit : Type :=
| RlimitUnsupported
| Rlimit (soft hard : option N).

Record world : Type := mkWorld {
  sys_stdout : stream;
  sys_stderr : stream;
  alarm : alarm_state;
  sigalrm : handler;
  main_thread : bool;
  rlimit_as : rlimit
}.

Definition set_streams (out err : stream) (w : world) : world :=
  mkWorld out err (alarm w) (sigalrm w) (main_thread w) (rlimit_as w).

Definition set_alarm (a : alarm_state) (w : world) : world :=
  mkWorld (sys_stdout w) (sys_stderr w) a (sigalrm w) (main_thread w)
    (rlimit_as w).

Definition set_sigalrm (h : handler) (w : world) : world :=
  mkWorld (sys_stdout w) (sys_stderr w) (alarm w) h (main_thread w)
    (rlimit_as w).

Definition set_rlimit_as (r : rlimit) (w : world) : world :=
  mkWorld (sys_stdout w) (sys_stderr w) (alarm w) (sigalrm w) (main_thread w) r.

(** [signal.signal(signal.SIGALRM, h)]: [None] stands for the
    [AttributeError] of a platform without SIGALRM and for the
    [ValueError] outside the main thread. *)
Definition signal_signal (h : handler) (w : world) : option world :=
  match alarm w with
  | AlarmUnsupported => None
  | _ => if main_thread w then Some (set_sigalrm h w) else None
  end.

(** [signal.alarm(seconds)]: zero cancels the pending alarm; [None] stands
    for the [AttributeError] of a platform without it. *)
Definition signal_alarm (seconds : N) (w : world) : option world :=
  match alarm w with
  | AlarmUnsupported => None
  | _ => Some (set_alarm (if (seconds =? 0)%N then AlarmIdle
                          else AlarmPending seconds) w)
  end.

(** [resource.setrlimit(resource.RLIMIT_AS, (soft, hard))]: [None] stands
    for the error of a platform without the limit and for the [ValueError]
    of a hard limit above the one in force, which only a process that is
    [privileged] to raise its limits may ask for. *)
Definition setrlimit_as (privileged : bool) (soft hard : N) (w : world)
  : option world :=
  match rlimit_as w with
  | RlimitUnsupported => None
  | Rlimit _ cur_hard =>
      let allowed :=
        privileged
        || match cur_hard with
           | None => true
           | Some h => (hard <=? h)%N
           end in
      if allowed && (soft <=? hard)%N
      then Some (set_rlimit_as (Rlimit (Some soft) (Some hard)) w)
      else None
  end.

(** ** What the program does that an observer can see *)

Inductive event : Type :=
| Print (text : str)                          (* a progress line of the facade *)
| Exec (code : str)                           (* [exec] ran the code *)
| Compare (actual : str) (expected mode : pyval). (* the comparator was called *)

Definition trace := list event.

(** ** The restricted environment *)

(** A built-in of the Python interpreter, by its name in [builtins]. *)
Inductive builtin : Type :=
| Builtin (name : string).

Definition namespace := list (string * builtin).

(** ** The Python runtime *)

(** How one run of [exec] ends: the code runs to completion, SIGALRM
    interrupts it and [_timeout_handler] raises, or the code raises. *)
Inductive ending : Type :=
| Completed
| AlarmFired
| Raised (e : exception).

(** One run of [exec(code, safe_globals, safe_locals)]: the world it leaves,
    what it wrote to [sys.stdout] and [sys.stderr], and how it ended. *)
Record run : Type := mkRun {
  run_world : world;
  run_stdout : str;
  run_stderr : str;
  run_ending : ending
}.

(** What the model takes from the Python runtime without looking inside:
    - [py_exec builtins code w]: running [code] with [builtins] as its
      [__builtins__] and no local names, from world [w];
    - [py_print s text]: [print(text)] while [sys.stdout] is bound to
      [s]: [None] when the line is written, otherwise the exception
      [print] raises (a [UnicodeEncodeError] where the stream cannot
      encode the text, an [OSError] of the stream);
    - [raises_limits]: the process is privileged to raise its hard
      resource limits;
    - [py_repr v]: [str(v)] for a value that is not a [str];
    - [set_order l]: the order in which iteration visits the set built
      from the distinct elements [l]; it depends on the hash seed, and
      visits every element once. *)
Class Python : Type := {
  py_exec : namespace -> str -> world -> run;
  py_print : stream -> str -> option exception;
  raises_limits : bool;
  py_repr : pyval -> str;
  set_order : list str -> list str;
  set_order_visits : forall l, Permutation (set_order l) l
}.

Section Program.

Context {python : Python}.

(** ** [SafeCodeExecutor] *)

Record SafeCodeExecutor : Type := mkSafeCodeExecutor {
  timeout : N;                  (* seconds *)
  memory_limit : N;             (* bytes *)
  blocked_modules : list str    (* a set, in the order iteration visits it *)
}.

(** The deny-list as [__init__] writes it. *)
Definition deny_list : list str :=
  map lit
    ["os"; "subprocess"; "sys"; "socket"; "urllib"; "requests";
     "shutil"; "pickle"; "shelve"; "__import__"; "eval"; "exec";
     "compile"; "open"; "file"; "input"; "raw_input"]%string.

(** [SafeCodeExecutor(timeout, memory_limit)], the limit given in MB *)
Definition SafeCodeExecutor_init (timeout memory_limit : N)
  : SafeCodeExecutor :=
  mkSafeCodeExecutor timeout (memory_limit * 1024 * 1024)
    (set_order deny_list).

(** [_timeout_handler]: the exception it raises *)
Definition _timeout_handler (self : SafeCodeExecutor) : exception :=
  mkExc KTimeoutError (lit "TimeoutError")
    (lit "Code execution exceeded " ++ str_of_N (timeout self)
         ++ lit " seconds").

(** [_set_limits]: the error of [setrlimit] is swallowed *)
Definition _set_limits (self : SafeCodeExecutor) (w : world) : world :=
  match setrlimit_as raises_limits (memory_limit self) (memory_limit self)
          w with
  | Some w' => w'
  | None => w
  end.

Definition safe_builtins : namespace :=
  map (fun name => (name, Builtin name))
    ["abs"; "all"; "any"; "bin"; "bool";
     "chr"; "dict"; "enumerate"; "filter";
     "float"; "format"; "hex"; "int";
     "isinstance"; "len"; "list"; "map";
     "max"; "min"; "ord"; "pow"; "print";
     "range"; "reversed"; "round"; "set";
     "sorted"; "str"; "sum"; "tuple";
     "type"; "zip"]%string.

(** [_create_safe_globals]: the one entry [__builtins__] of the globals *)
Definition _create_safe_globals : list (string * namespace) :=
  [("__builtins__"%string, safe_builtins)].

(** The [__builtins__] of a globals dictionary. *)
Definition builtins_of (globals : list (string * namespace)) : namespace :=
  match globals with
  | (_, ns) :: _ => ns
  | [] => []
  end.

(** The [result] dictionary of [execute]; its four keys never change. *)
Record exec_result : Type := mkResult {
  output : str;
  errors : str;
  success : bool;
  message : str
}.

Definition with_message (m : str) (r : exec_result) : exec_result :=
  mkResult (output r) (errors r) (success r) m.

(** [not code or not isinstance(code, str)].  Only a [str] passes the
    second test, and a [str] is false exactly when it is empty. *)
Definition invalid_code (code : pyval) : bool :=
  match code with
  | PStr s => match s with [] => true | _ :: _ => false end
  | _ => true
  end.

(** The first element of [blocked_modules] that occurs in [code_lower]. *)
Definition first_blocked (self : SafeCodeExecutor) (code_lower : str)
  : option str :=
  find (fun blocked => contains blocked code_lower) (blocked_modules self).

(** The timeout of [execute]:
    [signal.signal(signal.SIGALRM, self._timeout_handler)] then
    [signal.alarm(self.timeout)], with [AttributeError] and [ValueError]
    swallowed. *)
Definition arm_timeout (self : SafeCodeExecutor) (w : world) : world :=
  match signal_signal (TimeoutHandler (timeout self)) w with
  | None => w
  | Some w1 =>
      match signal_alarm (timeout self) w1 with
      | None => w1
      | Some w2 => w2
      end
  end.

(** [signal.alarm(0)] with [AttributeError] and [ValueError] swallowed *)
Definition cancel_alarm (w : world) : world :=
  match signal_alarm 0 w with
  | Some w' => w'
  | None => w
  end.

(** Where the [try] block of [execute] stands when control reaches
    [finally]: the [result] dictionary, or the exception no handler
    caught; the world; the contents of the two buffers; what happened. *)
Record attempt : Type := mkAttempt {
  att_result : outcome exec_result;
  att_world : world;
  att_stdout : str;
  att_stderr : str;
  att_events : trace
}.

(** The [except] clauses of [execute], in order. *)
Definition handle_exception (e : exception) (result : exec_result)
  : outcome exec_result :=
  match exc_kind_of e with
  | KTimeoutError => Returns (with_message (exc_str e) result)
  | KMemoryError => Returns (with_message (lit "Memory limit exceeded") result)
  | KSyntaxError =>
      Returns (with_message (lit "Syntax error: " ++ exc_str e) result)
  | KException =>
      Returns (with_message (lit "Execution error: " ++ exc_name e
                                 ++ lit ": " ++ exc_str e) result)
  | KBaseException => Raises e
  end.

(** The [try] block of [execute] with its [except] clauses.  A value that
    passes the validation is a [str]. *)
Definition try_block (self : SafeCodeExecutor) (code : pyval) (w : world)
  : attempt :=
  let result := mkResult [] [] false [] in
  let invalid :=
    mkAttempt (Returns (with_message (lit "Invalid code input") result))
      w [] [] [] in
  if invalid_code code then invalid
  else
    match code with
    | PStr text =>
        let code_lower := lower text in
        match first_blocked self code_lower with
        | Some blocked =>
            mkAttempt
              (Returns (with_message
                          (lit "Blocked operation detected: " ++ blocked)
                          result))
              w [] [] []
        | None =>
            let w1 := arm_timeout self w in
            let w2 := _set_limits self w1 in
            let w3 := set_streams stdout_capture stderr_capture w2 in
            let safe_globals := _create_safe_globals in
            let r := py_exec (builtins_of safe_globals) text w3 in
            let res :=
              match run_ending r with
              | Completed =>
                  Returns (mkResult [] [] true
                             (lit "Code executed successfully"))
              | AlarmFired => handle_exception (_timeout_handler self) result
              | Raised e => handle_exception e result
              end in
            mkAttempt res (run_world r) (run_stdout r) (run_stderr r)
              [Exec text]
        end
    | _ => invalid
    end.

(** The [finally] clause of [execute]: the alarm is cancelled, the two
    streams saved on entry are put back, and the buffers are read into the
    [result] dictionary, the same object an earlier [return] handed out. *)
Definition finally_block (original_stdout original_stderr : stream)
    (att : attempt) : outcome exec_result * world * trace :=
  let w1 := cancel_alarm (att_world att) in
  let w2 := set_streams original_stdout original_stderr w1 in
  let res :=
    match att_result att with
    | Returns result =>
        Returns (mkResult (att_stdout att) (att_stderr att)
                   (success result) (message result))
    | Raises e => Raises e
    end in
  (res, w2, att_events att).

(** [SafeCodeExecutor.execute] *)
Definition execute (self : SafeCodeExecutor) (code : pyval) (w : world)
  : outcome exec_result * world * trace :=
  let original_stdout := sys_stdout w in
  let original_stderr := sys_stderr w in
  finally_block original_stdout original_stderr (try_block self code w).

(** ** [CodeExecutorTool] *)

Record CodeExecutorTool : Type := mkCodeExecutorTool {
  executor : SafeCodeExecutor
}.

(** [CodeExecutorTool(timeout, memory_limit)] *)
Definition CodeExecutorTool_init (timeout memory_limit : N)
  : CodeExecutorTool :=
  mkCodeExecutorTool (SafeCodeExecutor_init timeout memory_limit).

(** The three non-ASCII prefixes of the messages, as the code points the
    source file holds. *)
Definition wrench_mark : str := [240; 376; 8221; 167]%N.
Definition check_mark : str := [226; 339; 8230]%N.
Definition cross_mark : str := [226; 338]%N.

(** [v == word] for a [str] literal [word] *)
Definition eq_str (v : pyval) (word : str) : bool :=
  match v with
  | PStr s => str_eqb s word
  | _ => false
  end.

(** [f"{v}"] *)
Definition format_value (v : pyval) : str :=
  match v with
  | PStr s => s
  | _ => py_repr v
  end.

(** [text[:200] + "..." if len(text) > 200 else text] *)
Definition preview (text : str) : str :=
  if 200 <? List.length text then firstn 200 text ++ lit "..." else text.

Definition newline : str := [10%N].

(** [_create_diff_message] *)
Definition _create_diff_message (actual expected : str) : str :=
  let actual_preview := preview actual in
  let expected_preview := preview expected in
  let message := cross_mark ++ lit " Output does not match!" ++ newline
                   ++ newline in
  let message := message ++ lit "Expected:" ++ newline ++ expected_preview
                   ++ newline ++ newline in
  let message := message ++ lit "Got:" ++ newline ++ actual_preview
                   ++ newline ++ newline in
  message ++ lit "Similarity: " ++ format_1f (percentage actual expected)
    ++ lit "%".

(** [expected.strip()]: only a [str] has the method. *)
Definition strip_method (v : pyval) : outcome str :=
  match v with
  | PStr s => Returns (strip s)
  | _ => Raises (AttributeError v (lit "strip"))
  end.

Definition k_mode : str := lit "mode".
Definition k_match : str := lit "match".
Definition k_similarity : str := lit "similarity".
Definition k_details : str := lit "details".

Definition real (q : Q) : pyval := PFloat (Freal q).

(** [_compare_outputs].  [actual] is the captured output, a [str];
    [expected] and [mode] come from the request as they are. *)
Definition _compare_outputs (actual : str) (expected mode : pyval)
  : outcome dict :=
  let comparison : dict :=
    [(k_mode, mode); (k_match, PBool false); (k_similarity, real 0);
     (k_details, PStr [])] in
  let actual_stripped := strip actual in
  match strip_method expected with
  | Raises e => Raises e
  | Returns expected_stripped =>
      if eq_str mode (lit "exact") then
        let matched := str_eqb actual_stripped expected_stripped in
        let comparison := dict_set k_match (PBool matched) comparison in
        let comparison :=
          dict_set k_similarity (real (if matched then 1 else 0)) comparison in
        if matched then
          Returns (dict_set k_details
                     (PStr (check_mark ++ lit " Output matches exactly!"))
                     comparison)
        else
          Returns (dict_set k_details
                     (PStr (_create_diff_message actual_stripped
                              expected_stripped))
                     comparison)
      else if eq_str mode (lit "fuzzy") then
        let similarity := ratio actual_stripped expected_stripped in
        let comparison := dict_set k_similarity (real similarity) comparison in
        let matched := Qle_bool (8 # 10) similarity in
        let comparison := dict_set k_match (PBool matched) comparison in
        if matched then
          Returns (dict_set k_details
                     (PStr (check_mark ++ lit " Output matches with "
                              ++ format_1f (percentage actual_stripped
                                              expected_stripped)
                              ++ lit "% similarity"))
                     comparison)
        else
          Returns (dict_set k_details
                     (PStr (cross_mark ++ lit " Output only "
                              ++ format_1f (percentage actual_stripped
                                              expected_stripped)
                              ++ lit "% similar. Expected at least 80%."))
                     comparison)
      else if eq_str mode (lit "contains") then
        let matched := contains expected_stripped actual_stripped in
        let comparison := dict_set k_match (PBool matched) comparison in
        if matched then
          Returns (dict_set k_details
                     (PStr (check_mark ++ lit " Output contains expected text!"))
                     comparison)
        else
          Returns (dict_set k_details
                     (PStr (cross_mark
                              ++ lit " Output does not contain expected text: '"
                              ++ expected_stripped ++ lit "'"))
                     comparison)
      else
        Returns (dict_set k_details
                   (PStr (lit "Unknown comparison mode: " ++ format_value mode))
                   comparison)
  end.

Definition k_code : str := lit "code".
Definition k_execution_success : str := lit "execution_success".
Definition k_output : str := lit "output".
Definition k_errors : str := lit "errors".
Definition k_message : str := lit "message".
Definition k_expected_output : str := lit "expected_output".
Definition k_comparison : str := lit "comparison".
Definition k_compare_mode : str := lit "compare_mode".
Definition k_success : str := lit "success".
Definition k_error : str := lit "error".

(** [execute_simple]: the progress line is printed outside any [try], so
    an exception of [print] leaves the function before anything runs. *)
Definition execute_simple (self : CodeExecutorTool) (code : str) (w : world)
  : outcome dict * world * trace :=
  let line := wrench_mark ++ lit " Executing code (simple mode)..." in
  match py_print (sys_stdout w) line with
  | Some e => (Raises e, w, [])
  | None =>
      match execute (executor self) (PStr code) w with
      | (Raises e, w', events) => (Raises e, w', Print line :: events)
      | (Returns exec_result, w', events) =>
          (Returns [(k_code, PStr code);
                    (k_execution_success, PBool (success exec_result));
                    (k_output, PStr (output exec_result));
                    (k_errors, PStr (errors exec_result));
                    (k_message, PStr (message exec_result))],
           w', Print line :: events)
      end
  end.

(** [v is not None] *)
Definition is_not_None (v : pyval) : bool :=
  match v with
  | PNone => false
  | _ => true
  end.

(** The [try] block of [execute_and_compare] once [json.loads] has
    returned [data]. *)
Definition structured_request (self : CodeExecutorTool) (data : pyval)
    (w : world) : outcome dict * world * trace :=
  match data with
  | PDict d =>
      let code := get_default d k_code (PStr []) in
      let expected_output := get_default d k_expected_output PNone in
      let compare_mode := get_default d k_compare_mode (PStr (lit "exact")) in
      match py_len code with
      | Raises e => (Raises e, w, [])
      | Returns n =>
          let line :=
            wrench_mark ++ lit " Executing code (" ++ str_of_nat n
              ++ lit " chars)..." in
          match py_print (sys_stdout w) line with
          | Some e => (Raises e, w, [])
          | None =>
              match execute (executor self) code w with
              | (Raises e, w', events) => (Raises e, w', Print line :: events)
              | (Returns exec_result, w', events) =>
                  let result : dict :=
                    [(k_code, code);
                     (k_execution_success, PBool (success exec_result));
                     (k_output, PStr (output exec_result));
                     (k_errors, PStr (errors exec_result));
                     (k_message, PStr (message exec_result));
                     (k_expected_output, expected_output);
                     (k_comparison, PNone)] in
                  if is_not_None expected_output && success exec_result then
                    let called :=
                      Compare (output exec_result) expected_output
                        compare_mode in
                    match _compare_outputs (output exec_result)
                            expected_output compare_mode with
                    | Raises e =>
                        (Raises e, w', Print line :: events ++ [called])
                    | Returns comparison =>
                        (Returns (dict_set k_comparison (PDict comparison)
                                    result),
                         w', Print line :: events ++ [called])
                    end
                  else (Returns result, w', Print line :: events)
              end
          end
      end
  | _ => (Raises (AttributeError data (lit "get")), w, [])
  end.

(** The record of the last handler of [execute_and_compare]. *)
Definition tool_error (e : exception) : dict :=
  [(k_success, PBool false);
   (k_error, PStr (lit "Tool error: " ++ exc_str e))].

(** [execute_and_compare]: [except json.JSONDecodeError] hands the whole
    input to [execute_simple], and what that call raises leaves the
    facade; [except Exception] turns any other exception of the [try]
    block, the one of its [print] included, into the tool-error record; an
    exception outside [Exception] passes through. *)
Definition execute_and_compare (self : CodeExecutorTool) (input_data : str)
    (w : world) : outcome dict * world * trace :=
  match json_loads input_data with
  | JSONDecodeError => execute_simple self input_data w
  | Decoded data =>
      match structured_request self data w with
      | (Raises e, w', events) =>
          if is_Exception e then (Returns (tool_error e), w', events)
          else (Raises e, w', events)
      | returned => returned
      end
  end.

(** [create_code_executor_tool()]: the [tool_function] it returns *)
Definition create_code_executor_tool
  : str -> world -> outcome dict * world * trace :=
  let executor_tool := CodeExecutorTool_init 5 50 in
  fun input_data => execute_and_compare executor_tool input_data.

Definition tool_function := create_code_executor_tool.

End Program.

(** ** Runtimes to evaluate the program on *)

(** A runtime in which every run leaves the world as it found it, writes
    [out] and [err] to the two streams and ends with [e]; every progress
    line can be written, the process is not privileged, and sets are
    visited in the order their elements were written. *)
Definition scripted (out err : str) (e : ending) : Python :=
  {| py_exec := fun _ _ w => mkRun w out err e;
     py_print := fun _ _ => None;
     raises_limits := false;
     py_repr := fun _ => lit "<value>";
     set_order := fun l => l;
     set_order_visits := fun l => Permutation_refl l |}.

(** A process with its two standard streams, no alarm pending, no limit. *)
Definition fresh_world : world :=
  mkWorld (ProcessStream 1) (ProcessStream 2) AlarmIdle DefaultHandler true
    (Rlimit None None).

(** The text between two double quotes. *)
Definition quoted (s : string) : str := dquote :: lit s ++ [dquote].

(** A runtime whose runs complete without output. *)
Definition silent : Python := scripted [] [] Completed.

(** A runtime whose runs complete after printing [text] and a newline. *)
Definition printing (text : string) : Python :=
  scripted (lit text ++ newline) [] Completed.





(** The tool [create_code_executor_tool] builds, on a given runtime. *)
Definition the_tool (python : Python) : CodeExecutorTool :=
  @CodeExecutorTool_init python 5 50.

(** The request [{"code": "print('hi')", "expected_output": "hi",
    "compare_mode": "exact"}]. *)
Definition request_hi : str :=
  lit "{" ++ quoted "code" ++ lit ": " ++ quoted "print('hi')" ++ lit ", "
    ++ quoted "expected_output" ++ lit ": " ++ quoted "hi" ++ lit ", "
    ++ quoted "compare_mode" ++ lit ": " ++ quoted "exact" ++ lit "}".


(** The malformed request [{"code": 5}]. *)
Definition request_code_5 : str :=
  lit "{" ++ quoted "code" ++ lit ": 5}".

(** ** Predicates of the statements *)

(** A scan that did not run out of fuel and, when it succeeded, left fewer
    than [bound] characters. *)
Definition consumes {A : Type} (bound : nat) (res : scan A) : Prop :=
  match res with
  | Scanned _ r => List.length r < bound
  | DecodeError => True
  | Exhausted => False
  end.

(** A block that lies inside the region [a[alo:ahi]], [b[blo:bhi]]. *)
Definition in_region (alo ahi blo bhi : nat) (m : Match) : Prop :=
  alo <= match_a m /\ match_a m + match_size m <= ahi
  /\ blo <= match_b m /\ match_b m + match_size m <= bhi.

(** A block whose two sides hold the same characters. *)
Definition common_block (a b : str) (m : Match) : Prop :=
  forall t, t < match_size m ->
            nth (match_a m + t) a 0%N = nth (match_b m + t) b 0%N.

(** The entries of [j2len] once the rows below [i] are done: an entry
    [(j, k)] is a run of [k] equal characters that ends at row [i - 1] and
    column [j] and starts inside the region. *)
Definition j2len_ok (a b : str) (alo blo bhi i : nat)
    (j2len : list (nat * nat)) : Prop :=
  forall j k,
    In (j, k) j2len ->
    blo + k <= j + 1 /\ alo + k <= i /\ j < bhi
    /\ forall t, t < k -> nth (i - 1 - t) a 0%N = nth (j - t) b 0%N.

Definition valid_region (r : region) : Prop :=
  let '(alo, ahi, blo, bhi) := r in alo <= ahi /\ blo <= bhi.

(** The number of iterations a region can still cause. *)
Definition region_weight (r : region) : nat :=
  let '(alo, ahi, _, _) := r in 2 * (ahi - alo) + 1.

(** The most that the blocks found inside a region can add up to. *)
Definition region_capacity (r : region) : nat :=
  let '(alo, ahi, blo, bhi) := r in Nat.min (ahi - alo) (bhi - blo).

Definition queue_weight (queue : list region) : nat :=
  fold_right (fun r acc => region_weight r + acc) 0 queue.

Definition queue_capacity (queue : list region) : nat :=
  fold_right (fun r acc => region_capacity r + acc) 0 queue.

(** The length of the longest run of equal characters that ends at row [r]
    of [a] and column [j] of [b] and does not leave the region to the left
    of [alo] or [blo] nor reach [bhi]; zero when the two characters
    differ or lie outside. *)
Fixpoint run_end (a b : str) (alo blo bhi : nat) (r j : nat) : nat :=
  if (alo <=? r) && (blo <=? j) && (j <? bhi)
     && (nth r a 0 =? nth j b 0)%N
  then S (match r with
          | S r' =>
              match j with
              | S j' => run_end a b alo blo bhi r' j'
              | O => 0
              end
          | O => 0
          end)
  else 0.

(** The run that ends in the row above [i]. *)
Definition run_above (a b : str) (alo blo bhi : nat) (i j : nat) : nat :=
  match i with
  | O => 0
  | S i' => run_end a b alo blo bhi i' j
  end.

(** The cells of the rows below [i] and of row [i] left of [from]: those
    [find_longest_match] has looked at when it reaches column [from] of
    row [i]. *)
Definition seen (i from : nat) (r j : nat) : Prop :=
  r < i \/ (r = i /\ j < from).

(** [best] is the first of the longest runs that end in one of the
    [cells], rows first, or the empty block at the corner of the region
    when no run ends in any of them. *)
Definition first_longest (a b : str) (alo blo bhi : nat)
    (cells : nat -> nat -> Prop) (best : Match) : Prop :=
  (forall r j, cells r j -> run_end a b alo blo bhi r j <= match_size best)
  /\ ((match_size best = 0 /\ match_a best = alo /\ match_b best = blo)
      \/ exists r j,
           cells r j /\ 0 < match_size best
           /\ run_end a b alo blo bhi r j = match_size best
           /\ match_a best + match_size best = r + 1
           /\ match_b best + match_size best = j + 1
           /\ forall r' j',
                cells r' j' ->
                run_end a b alo blo bhi r' j' = match_size best ->
                r < r' \/ (r = r' /\ j <= j')).

(** A region that lies inside the two texts. *)
Definition inside (a b : str) (r : region) : Prop :=
  let '(alo, ahi, blo, bhi) := r in
  alo <= ahi /\ blo <= bhi
  /\ ahi <= List.length a /\ bhi <= List.length b.

(** The longest matching block of a region, in the words of the
    specification and of [difflib]: a block common to the two texts inside
    the region that no other such block exceeds in length; of the longest,
    the one that starts earliest in [a], and of those the one that starts
    earliest in [b]. *)
Definition longest_block (a b : str) (r : region) (m : Match) : Prop :=
  let '(alo, ahi, blo, bhi) := r in
  in_region alo ahi blo bhi m /\ common_block a b m
  /\ forall m',
       in_region alo ahi blo bhi m' -> common_block a b m' ->
       match_size m' < match_size m
       \/ (match_size m' = match_size m
           /\ (match_a m < match_a m'
               \/ (match_a m = match_a m' /\ match_b m <= match_b m'))).

(** The number of matching characters of a region: the length of its
    longest matching block and, when there is one, the matching characters
    of what lies to its left and of what lies to its right. *)
Inductive block_sum (a b : str) : region -> nat -> Prop :=
| block_sum_none (alo ahi blo bhi : nat) (m : Match) :
    longest_block a b (alo, ahi, blo, bhi) m ->
    match_size m = 0 ->
    block_sum a b (alo, ahi, blo, bhi) 0
| block_sum_split (alo ahi blo bhi : nat) (m : Match) (left right : nat) :
    longest_block a b (alo, ahi, blo, bhi) m ->
    0 < match_size m ->
    block_sum a b (alo, match_a m, blo, match_b m) left ->
    block_sum a b
      (match_a m + match_size m, ahi, match_b m + match_size m, bhi) right ->
    block_sum a b (alo, ahi, blo, bhi) (left + match_size m + right).

(** [t] is [s] trimmed, in the words of the specification: [s] without the
    white space at its beginning and at its end, so that [t] neither
    starts nor ends with white space. *)
Definition trimmed (s t : str) : Prop :=
  exists pre post,
    s = pre ++ t ++ post
    /\ forallb is_space pre = true /\ forallb is_space post = true
    /\ (forall c u, t = c :: u -> is_space c = false)
    /\ (forall u c, t = u ++ [c] -> is_space c = false).


(** [result.get("comparison")]: [None] when the key is absent or null. *)
Definition comparison_of (result : dict) : pyval :=
  get_default result k_comparison PNone.

(** The expected output a request supplies; [None] when the input is not a
    request object or supplies none. *)
Definition expected_of (input_data : str) : pyval :=
  match json_loads input_data with
  | Decoded (PDict d) => get_default d k_expected_output PNone
  | _ => PNone
  end.


(** The comparator was called. *)
Definition compared (events : trace) : bool :=
  existsb (fun e => match e with Compare _ _ _ => true | _ => false end)
    events.




(** [v] is a string. *)
Definition is_str (v : pyval) : bool :=
  match v with
  | PStr _ => true
  | _ => false
  end.


(** What the facade is about to do with an input when it reaches its
    progress line: the value it will hand to [execute] and the line it
    prints first.  Input that is not JSON is the code, in simple mode; of
    a request object the code is what [code] holds, when that has a
    length.  Other input does not get that far. *)
Definition submission (input_data : str) : option (pyval * str) :=
  match json_loads input_data with
  | JSONDecodeError =>
      Some (PStr input_data,
            wrench_mark ++ lit " Executing code (simple mode)...")
  | Decoded (PDict d) =>
      let code := get_default d k_code (PStr []) in
      match py_len code with
      | Returns n =>
          Some (code,
                wrench_mark ++ lit " Executing code (" ++ str_of_nat n
                  ++ lit " chars)...")
      | Raises _ => None
      end
  | Decoded _ => None
  end.

Section Statements.

Context {python : Python}.

(** An exception outside [Exception] that a run of the executed code ended
    with: the only kind that leaves [execute]. *)
Definition raised_by_code (e : exception) : Prop :=
  is_Exception e = false
  /\ exists code w, run_ending (py_exec safe_builtins code w) = Raised e.

(** The execution the facade makes for an input succeeded: the progress
    line was written, [execute] was called and returned, and its result
    says [success]. *)
Definition execution_succeeded (self : CodeExecutorTool) (input_data : str)
    (w : world) : bool :=
  match submission input_data with
  | Some (code, line) =>
      match py_print (sys_stdout w) line with
      | Some _ => false
      | None =>
          match execute (executor self) code w with
          | (Returns r, _, _) => success r
          | (Raises _, _, _) => false
          end
      end
  | None => false
  end.

End Statements.

(** ** Further notions of the statements *)

Section Sandbox.

Context {python : Python}.

(** The world [execute] runs accepted code in: the deadline armed, the
    memory limit applied, the two streams bound to the buffers of the
    call. *)
Definition sandbox (self : SafeCodeExecutor) (w : world) : world :=
  set_streams stdout_capture stderr_capture
    (_set_limits self (arm_timeout self w)).

End Sandbox.

(** The pieces of code [exec] ran, in order. *)
Definition executed_code (events : trace) : list str :=
  flat_map (fun e => match e with Exec c => [c] | _ => [] end) events.

(** The character at index [r] of [s] exists and is not popular: the only
    indices [b2j] ever lists. *)
Definition unpopular_at (s : str) (r : nat) : bool :=
  (r <? List.length s) && negb (popular s (nth r s 0%N)).

(** The length of the run of unpopular characters of [s] that ends at
    index [r]: what [j2len] holds on the diagonal when [s] is matched with
    itself. *)
Fixpoint diagonal_run (s : str) (r : nat) : nat :=
  match r with
  | O => if unpopular_at s 0 then 1 else 0
  | S r' => if unpopular_at s r then S (diagonal_run s r') else 0
  end.

(** The run that ends just before index [r]. *)
Definition prev_run (s : str) (r : nat) : nat :=
  match r with
  | O => 0
  | S r' => diagonal_run s r'
  end.

(** Matching [s] with itself, before row [i]: the best block lies on the
    diagonal and is at least as long as every run on the diagonal so far;
    no entry of [j2len] is longer than the run on the diagonal in its row
    or in its column; the entry on the diagonal is that run. *)
Definition diagonal_ok (s : str) (i : nat) (j2len : list (nat * nat))
    (best : Match) : Prop :=
  match_a best = match_b best
  /\ (forall r, r < i -> diagonal_run s r <= match_size best)
  /\ (forall j k, In (j, k) j2len ->
                  k <= prev_run s i /\ k <= diagonal_run s j)
  /\ j2len_get_pred j2len i = prev_run s i.

(** The entry the inner loop of [find_longest_match] writes for column
    [j]: one more than the entry of the column before it in the row
    above. *)
Definition row_entry (j2len : list (nat * nat)) (j : nat) : nat * nat :=
  (j, j2len_get_pred j2len j + 1).

(** The code a call of the facade is asked to run: the whole input when it
    is not JSON, the string under [code] when it is a request object. *)
Definition requested_code (input_data : str) : option str :=
  match json_loads input_data with
  | JSONDecodeError => Some input_data
  | Decoded (PDict d) =>
      match get_default d k_code (PStr []) with
      | PStr c => Some c
      | _ => None
      end
  | Decoded _ => None
  end.

(** The values [len] accepts among those a request can hold. *)
Definition has_len (v : pyval) : bool :=
  match v with
  | PStr _ | PList _ | PDict _ => true
  | _ => false
  end.


(** ** [ToolRegistry] ([src/tools/tools_registry.py]) *)

(** A tool: a callable on the text of its input. *)
Definition tool_callable : Type :=
  str -> world -> outcome dict * world * trace.

(** The dictionary [register_tool] stores for a tool. *)
Record tool_entry : Type := mkEntry {
  entry_function : tool_callable;
  entry_description : str;
  entry_name : str
}.

(** [self.tools], a [dict] from names to entries in insertion order. *)
Definition tool_table := list (str * tool_entry).

(** [tools.get(name)] *)
Fixpoint table_get (name : str) (tools : tool_table) : option tool_entry :=
  match tools with
  | [] => None
  | (name', entry) :: rest =>
      if str_eqb name name' then Some entry else table_get name rest
  end.

(** [tools[name] = entry]: a name already present keeps its place. *)
Fixpoint table_set (name : str) (entry : tool_entry) (tools : tool_table)
  : tool_table :=
  match tools with
  | [] => [(name, entry)]
  | (name', entry') :: rest =>
      if str_eqb name name' then (name', entry) :: rest
      else (name', entry') :: table_set name entry rest
  end.

Record ToolRegistry : Type := mkToolRegistry {
  tools : tool_table
}.

Definition spanner : str := [128295%N].

(** [get_tool]: an entry is a non-empty dictionary, hence true. *)
Definition get_tool (self : ToolRegistry) (name : str)
  : option tool_callable :=
  match table_get name (tools self) with
  | Some tool => Some (entry_function tool)
  | None => None
  end.

Definition k_name : str := lit "name".
Definition k_description : str := lit "description".

(** [list_tools] *)
Definition list_tools (self : ToolRegistry) : list dict :=
  map (fun item =>
         [(k_name, PStr (entry_name (snd item)));
          (k_description, PStr (entry_description (snd item)))])
    (tools self).

Definition k_expression : str := lit "expression".
Definition k_result : str := lit "result".
Definition k_filename : str := lit "filename".
Definition k_bytes_written : str := lit "bytes_written".

(** What the tools of the registry take from outside the process: the
    three tools that are nothing else (the network, a file read, the
    clock), the value [eval] gives a sanitised expression and the outcome
    of opening a file and writing a text to it.  An evaluation is taken
    to end, with a value or an exception; a value that [pyval] does not
    have (a tuple, a complex number) comes as the host renders it. *)
Class Host : Type := {
  _web_search : tool_callable;
  _read_file : tool_callable;
  _get_time : tool_callable;
  (* eval(safe_expr, {"__builtins__": {}}, allowed_names) *)
  eval_expression : str -> outcome pyval;
  (* with open(filename, 'w', encoding='utf-8') as f: f.write(content) *)
  write_text : str -> str -> option exception
}.

(** The characters outside the negated class of [_calculator]: the digits
    and the characters listed one by one. *)
Definition calculator_keeps (c : char) : bool :=
  in_range 48 57 c || existsb (N.eqb c) (lit "+-*/().sqrt,pow,abs").

(** [re.sub(r'[^...]', '', expression)] *)
Definition safe_expr (expression : str) : str :=
  filter calculator_keeps expression.

Definition bar : char := 124%N.

(** [s.split(sep, 1)] for a separator of one character: the text before
    the first separator and, where there is one, the text after it. *)
Fixpoint split_once (sep : char) (s : str) : str * option str :=
  match s with
  | [] => ([], None)
  | c :: t =>
      if (c =? sep)%N then ([], Some t)
      else let '(head, rest) := split_once sep t in (c :: head, rest)
  end.

Definition keycap : str := [128290%N].
Definition floppy : str := [128190%N].

Section Registry.

Context {python : Python} {host : Host}.

(** [register_tool]: the entry is stored, then the line is printed; an
    exception of [print] leaves the entry in place. *)
Definition register_tool (self : ToolRegistry) (name : str)
    (function : tool_callable) (description : str) (w : world)
  : ToolRegistry * outcome unit * trace :=
  let self' :=
    mkToolRegistry (table_set name (mkEntry function description name)
                      (tools self)) in
  let line := spanner ++ lit " Tool registered: " ++ name in
  match py_print (sys_stdout w) line with
  | None => (self', Returns tt, [Print line])
  | Some e => (self', Raises e, [])
  end.

(** [_calculator]: the whole body is one [try] whose handler catches
    [Exception], the one of [print] included. *)
Definition _calculator : tool_callable := fun expression w =>
  let line := keycap ++ lit " Calculating: " ++ expression in
  let failed (e : exception) (events : trace) :=
    if is_Exception e
    then (Returns [(k_expression, PStr expression);
                   (k_error, PStr (exc_str e));
                   (k_success, PBool false)], w, events)
    else (Raises e, w, events) in
  match py_print (sys_stdout w) line with
  | Some e => failed e []
  | None =>
      match eval_expression (safe_expr expression) with
      | Returns result =>
          (Returns [(k_expression, PStr expression); (k_result, result);
                    (k_success, PBool true)], w, [Print line])
      | Raises e => failed e [Print line]
      end
  end.

(** [_write_file]: the whole body is one [try] whose handler catches
    [Exception], the one of [print] included. *)
Definition _write_file : tool_callable := fun args w =>
  let parts := split_once bar args in
  let filename := strip (fst parts) in
  let content := match snd parts with Some text => text | None => [] end in
  let line := floppy ++ lit " Writing to file: " ++ filename in
  let failed (e : exception) (events : trace) :=
    if is_Exception e
    then (Returns [(k_error, PStr (exc_str e)); (k_success, PBool false)],
          w, events)
    else (Raises e, w, events) in
  match py_print (sys_stdout w) line with
  | Some e => failed e []
  | None =>
      match write_text filename content with
      | None =>
          (Returns [(k_filename, PStr filename);
                    (k_bytes_written, PInt (Z.of_nat (List.length content)));
                    (k_success, PBool true)], w, [Print line])
      | Some e => failed e [Print line]
      end
  end.

(** The registrations of [_register_default_tools], in order. *)
Definition default_tools : list (str * tool_callable * str) :=
  [(lit "web_search", _web_search,
    lit "Search the internet for information");
   (lit "calculator", _calculator,
    lit "Perform mathematical calculations");
   (lit "write_file", _write_file, lit "Write content to a file");
   (lit "read_file", _read_file, lit "Read content from a file");
   (lit "get_time", _get_time, lit "Get current date and time");
   (lit "execute_code", create_code_executor_tool,
    lit "Execute Python code and compare output. Input JSON: {"
      ++ quoted "code" ++ lit ": " ++ quoted "..." ++ lit ", "
      ++ quoted "expected_output" ++ lit ": " ++ quoted "..." ++ lit ", "
      ++ quoted "compare_mode" ++ lit ": " ++ quoted "exact|fuzzy|contains"
      ++ lit "}")].

(** Calls of [register_tool] one after the other: the first that raises
    ends them. *)
Fixpoint register_each (self : ToolRegistry)
    (registrations : list (str * tool_callable * str)) (w : world)
  : ToolRegistry * outcome unit * trace :=
  match registrations with
  | [] => (self, Returns tt, [])
  | (name, function, description) :: rest =>
      match register_tool self name function description w with
      | (self', Returns _, events) =>
          let '(self'', result, events') := register_each self' rest w in
          (self'', result, events ++ events')
      | (self', Raises e, events) => (self', Raises e, events)
      end
  end.

(** [_register_default_tools] *)
Definition _register_default_tools (self : ToolRegistry) (w : world)
  : ToolRegistry * outcome unit * trace :=
  register_each self default_tools w.

(** [ToolRegistry()]: there is a registry when [__init__] returns. *)
Definition ToolRegistry_init (w : world) : outcome ToolRegistry * trace :=
  match _register_default_tools (mkToolRegistry []) w with
  | (self, Returns _, events) => (Returns self, events)
  | (_, Raises e, events) => (Raises e, events)
  end.

(** ** [ToolUsingAgent._execute_tool] ([src/agent/base_agent.py]) *)

Definition tick : str := [9989%N].

(** The record [_execute_tool] returns for a failure of its own. *)
Definition agent_error (text : str) : dict :=
  [(k_error, PStr text); (k_success, PBool false)].

(** [_execute_tool], on the registry of the agent: an unknown name is
    answered at once; the tool is called and its result handed on after
    the progress line; an exception of [Exception], of the tool or of the
    [print] that follows it, is turned into a record and any other let
    through. *)
Definition _execute_tool (tool_registry : ToolRegistry)
    (tool_name tool_input : str) (w : world)
  : outcome dict * world * trace :=
  match get_tool tool_registry tool_name with
  | None =>
      (Returns (agent_error (lit "Tool '" ++ tool_name ++ lit "' not found")),
       w, [])
  | Some tool_function =>
      let failed (e : exception) (w' : world) (events : trace) :=
        if is_Exception e then (Returns (agent_error (exc_str e)), w', events)
        else (Raises e, w', events) in
      match tool_function tool_input w with
      | (Returns result, w', events) =>
          let line := tick ++ lit " Tool '" ++ tool_name ++ lit "' executed" in
          match py_print (sys_stdout w') line with
          | None => (Returns result, w', events ++ [Print line])
          | Some e => failed e w' events
          end
      | (Raises e, w', events) => failed e w' events
      end
  end.

(** [use_tool_directly] *)
Definition use_tool_directly (tool_registry : ToolRegistry)
    (tool_name tool_input : str) (w : world)
  : outcome dict * world * trace :=
  _execute_tool tool_registry tool_name tool_input w.

End Registry.


(** The names under which a registry holds its tools, in order. *)
Definition tool_names (self : ToolRegistry) : list str :=
  map fst (tools self).

(** The registry with one more tool stored. *)
Definition stored_one (self : ToolRegistry) (name : str)
    (function : tool_callable) (description : str) : ToolRegistry :=
  mkToolRegistry (table_set name (mkEntry function description name)
                    (tools self)).

(** The registry with the given tools stored, one after the other. *)
Definition stored (self : ToolRegistry)
    (registrations : list (str * tool_callable * str)) : ToolRegistry :=
  fold_left
    (fun registry r => stored_one registry (fst (fst r)) (snd (fst r)) (snd r))
    registrations self.

(** The line that announces a registration. *)
Definition registered_line (name : str) : str :=
  spanner ++ lit " Tool registered: " ++ name.

(** The names of the default tools, in the order of their registration. *)
Definition default_names_list : list str :=
  [lit "web_search"; lit "calculator"; lit "write_file"; lit "read_file";
   lit "get_time"; lit "execute_code"].

(** The characters the class of [_calculator] lets through, each once. *)
Definition calculator_alphabet : str := lit "0123456789+-*/().,abopqrstw".

(** No name is held twice, and each entry records the name it is held
    under. *)
Definition registry_ok (self : ToolRegistry) : Prop :=
  NoDup (tool_names self)
  /\ Forall (fun item => entry_name (snd item) = fst item) (tools self).

(** What [_calculator] reports beside the expression it echoes. *)
Definition calculator_report (result : outcome dict)
  : outcome (option pyval * option pyval * option pyval) :=
  match result with
  | Returns d => Returns (dict_get k_result d, dict_get k_error d,
                          dict_get k_success d)
  | Raises e => Raises e
  end.

(** ** Hosts and requests to evaluate the tools on *)

(** A tool that answers every input with the empty record. *)
Definition idle_tool : tool_callable := fun _ w => (Returns [], w, []).

(** A host without network, files to read or clock, whose [eval] knows the
    sum [1+2] and takes everything else for a syntax error, and whose file
    system accepts every write. *)
Definition plain_host : Host :=
  {| _web_search := idle_tool;
     _read_file := idle_tool;
     _get_time := idle_tool;
     eval_expression := fun text =>
       if str_eqb text (lit "1+2") then Returns (PInt 3)
       else Raises (mkExc KSyntaxError (lit "SyntaxError")
                      (lit "invalid syntax"));
     write_text := fun _ _ => None |}.

(** The request [{"code": "print('hi')", "expected_output": 5}]. *)
Definition request_expected_5 : str :=
  lit "{" ++ quoted "code" ++ lit ": " ++ quoted "print('hi')" ++ lit ", "
    ++ quoted "expected_output" ++ lit ": 5}".

(** The request [{"code": "import os", "expected_output": "x"}]. *)
Definition request_import_os : str :=
  lit "{" ++ quoted "code" ++ lit ": " ++ quoted "import os" ++ lit ", "
    ++ quoted "expected_output" ++ lit ": " ++ quoted "x" ++ lit "}".

(* ================================================================== *)
(** * Part II: properties *)
(* ================================================================== *)

(** ** Text *)

Lemma str_eqb_eq (a b : str) : str_eqb a b = true <-> a = b.
Proof.
  revert b; induction a as [|x a IH]; intros [|y b]; simpl;
    try (split; [discriminate | intros H; discriminate H]).
  - split; reflexivity.
  - rewrite andb_true_iff, N.eqb_eq, IH.
    split; [intros [-> ->]; reflexivity | intros H; injection H; auto].
Qed.

Lemma str_eqb_refl (a : str) : str_eqb a a = true.
Proof. apply str_eqb_eq; reflexivity. Qed.

Lemma starts_with_spec (p s : str) :
  starts_with p s = true <-> exists r, s = p ++ r.
Proof.
  revert s; induction p as [|x p IH]; intros s; simpl.
  - split; [intros _; exists s; reflexivity | reflexivity].
  - destruct s as [|y s].
    + split; [discriminate | intros [r H]; discriminate H].
    + rewrite andb_true_iff, N.eqb_eq, IH. split.
      * intros [-> [r ->]]. exists r; reflexivity.
      * intros [r H]. injection H as -> ->. split; [reflexivity | eauto].
Qed.

(** [needle in hay] holds exactly when [hay] has [needle] as a substring. *)
Lemma contains_spec (needle hay : str) :
  contains needle hay = true <-> exists l r, hay = l ++ needle ++ r.
Proof.
  induction hay as [|y hay IH]; simpl.
  - rewrite orb_false_r, starts_with_spec. split.
    + intros [r H]. exists [], r. exact H.
    + intros [l [r H]]. destruct l; [exists r; exact H | discriminate H].
  - rewrite orb_true_iff, starts_with_spec, IH. split.
    + intros [[r H] | [l [r H]]].
      * exists [], r. exact H.
      * exists (y :: l), r. rewrite H. reflexivity.
    + intros [[|x l] [r H]].
      * left. exists r. exact H.
      * right. injection H as _ H. exists l, r. exact H.
Qed.

Lemma lower_nonempty (s : str) : lower s <> [] -> s <> [].
Proof. intros H ->. apply H. reflexivity. Qed.

Lemma lstrip_split (s : str) :
  exists pre, s = pre ++ lstrip s /\ forallb is_space pre = true.
Proof.
  induction s as [|c s [pre [E F]]]; simpl.
  - exists []. split; reflexivity.
  - destruct (is_space c) eqn:Hc.
    + exists (c :: pre). simpl. rewrite Hc, F, <- E. split; reflexivity.
    + exists []. split; reflexivity.
Qed.

Lemma lstrip_head (s : str) c t : lstrip s = c :: t -> is_space c = false.
Proof.
  induction s as [|x s IH]; simpl; [discriminate|].
  destruct (is_space x) eqn:Hx; [exact IH|].
  intros H. injection H as <- _. exact Hx.
Qed.

Lemma forallb_rev {A} (f : A -> bool) (l : list A) :
  forallb f (rev l) = forallb f l.
Proof.
  induction l as [|x l IH]; simpl; [reflexivity|].
  rewrite forallb_app, IH. simpl. rewrite andb_true_r. apply andb_comm.
Qed.

Lemma rstrip_split (s : str) :
  exists post, s = rstrip s ++ post /\ forallb is_space post = true.
Proof.
  unfold rstrip. destruct (lstrip_split (rev s)) as [pre [E F]].
  exists (rev pre). split.
  - rewrite <- rev_app_distr, <- E, rev_involutive. reflexivity.
  - rewrite forallb_rev. exact F.
Qed.

Lemma rstrip_last (s : str) t c : rstrip s = t ++ [c] -> is_space c = false.
Proof.
  unfold rstrip. intros H.
  assert (E : lstrip (rev s) = c :: rev t).
  { rewrite <- (rev_involutive (lstrip (rev s))), H, rev_app_distr.
    reflexivity. }
  exact (lstrip_head _ E).
Qed.

Lemma rstrip_cons (c : char) (s : str) :
  is_space c = false -> exists t, rstrip (c :: s) = c :: t.
Proof.
  intros Hc. destruct (rstrip_split (c :: s)) as [post [E F]].
  destruct (rstrip (c :: s)) as [|x t] eqn:R.
  - simpl in E. subst post. simpl in F. rewrite Hc in F. discriminate F.
  - injection E as <- _. exists t. reflexivity.
Qed.

(** [s.strip()] removes a run of white space at each end of [s] and what is
    left neither starts nor ends with white space. *)
Lemma strip_spec (s : str) :
  exists pre post,
    s = pre ++ strip s ++ post
    /\ forallb is_space pre = true /\ forallb is_space post = true
    /\ (forall c t, strip s = c :: t -> is_space c = false)
    /\ (forall t c, strip s = t ++ [c] -> is_space c = false).
Proof.
  unfold strip.
  destruct (lstrip_split s) as [pre [E F]].
  destruct (rstrip_split (lstrip s)) as [post [E' F']].
  exists pre, post. repeat split; auto.
  - rewrite <- E'. exact E.
  - intros c t H. destruct (lstrip s) as [|x u] eqn:L.
    + discriminate H.
    + pose proof (lstrip_head _ L) as Hx.
      destruct (@rstrip_cons x u Hx) as [t' R]. rewrite R in H.
      injection H as <- _. exact Hx.
  - intros t c H. eapply rstrip_last. exact H.
Qed.

Lemma lstrip_blank (s : str) : forallb is_space s = true -> lstrip s = [].
Proof.
  induction s as [|c s IH]; simpl; [reflexivity|].
  destruct (is_space c); [exact IH | discriminate].
Qed.

Lemma lstrip_app (s t : str) :
  lstrip (s ++ t)
  = match lstrip s with
    | [] => lstrip t
    | _ :: _ => lstrip s ++ t
    end.
Proof.
  induction s as [|c s IH]; simpl.
  - destruct (lstrip t); reflexivity.
  - destruct (is_space c); [exact IH | reflexivity].
Qed.

Lemma lstrip_pad (pre s : str) :
  forallb is_space pre = true -> lstrip (pre ++ s) = lstrip s.
Proof.
  intros H. rewrite lstrip_app, (lstrip_blank _ H). reflexivity.
Qed.

Lemma rstrip_pad (s post : str) :
  forallb is_space post = true -> rstrip (s ++ post) = rstrip s.
Proof.
  intros H. unfold rstrip. rewrite rev_app_distr, lstrip_pad; [reflexivity|].
  rewrite forallb_rev. exact H.
Qed.

(** White space around a text does not change what [strip] returns. *)
Lemma strip_pad (pre s post : str) :
  forallb is_space pre = true -> forallb is_space post = true ->
  strip (pre ++ s ++ post) = strip s.
Proof.
  intros Hpre Hpost. unfold strip. rewrite lstrip_pad by exact Hpre.
  rewrite lstrip_app. destruct (lstrip s) as [|c u] eqn:L.
  - rewrite (lstrip_blank _ Hpost). reflexivity.
  - apply rstrip_pad. exact Hpost.
Qed.

(** A text without white space at either end is what [strip] returns for
    it. *)
Lemma strip_bare (t : str) :
  (forall c u, t = c :: u -> is_space c = false) ->
  (forall u c, t = u ++ [c] -> is_space c = false) ->
  strip t = t.
Proof.
  intros Hhead Hlast. unfold strip.
  assert (L : lstrip t = t).
  { destruct t as [|c u]; [reflexivity|]. simpl.
    rewrite (Hhead c u eq_refl). reflexivity. }
  rewrite L. unfold rstrip.
  destruct (rev t) as [|c u] eqn:R.
  - rewrite <- (rev_involutive t), R. reflexivity.
  - assert (E : t = rev u ++ [c]).
    { rewrite <- (rev_involutive t), R. reflexivity. }
    simpl. rewrite (Hlast _ _ E). rewrite <- R. apply rev_involutive.
Qed.

(** Trimming has one result, the one [strip] returns. *)
Lemma strip_trimmed (s t : str) : trimmed s t <-> t = strip s.
Proof.
  split.
  - intros (pre & post & E & Hpre & Hpost & Hhead & Hlast).
    rewrite E, strip_pad by assumption. symmetry.
    apply strip_bare; assumption.
  - intros ->. exact (strip_spec s).
Qed.

(** ** The decoder never runs out of fuel *)

Lemma consumes_weaken {A} (res : scan A) (m n : nat) :
  consumes m res -> m <= n -> consumes n res.
Proof. destruct res; simpl; auto. lia. Qed.

Lemma skip_ws_length (s : str) : List.length (skip_ws s) <= List.length s.
Proof.
  induction s as [|c s IH]; simpl; [lia|].
  destruct (is_json_ws c); simpl; lia.
Qed.

(** Splits the goal along the conditional or the list match at its head. *)
Ltac case_head :=
  match goal with
  | |- context [if ?b then _ else _] => destruct b
  | |- context [match ?l with [] => _ | _ :: _ => _ end] => destruct l
  | |- context [match ?o with Some _ => _ | None => _ end] =>
      destruct o eqn:?
  end.

Lemma scanstring_consumes (n : nat) :
  forall s acc, List.length s <= n ->
                consumes (List.length s) (scanstring s acc).
Proof.
  induction n as [|n IH]; intros s acc Hn.
  - destruct s; [exact I | simpl in Hn; lia].
  - destruct s as [|c t]; [exact I|].
    cbn [scanstring].
    repeat (case_head; cbn beta iota);
      lazymatch goal with
      | |- consumes _ DecodeError => exact I
      | |- consumes _ (Scanned _ _) => simpl; lia
      | |- consumes _ (scanstring _ _) =>
          eapply consumes_weaken; [apply IH|]; simpl in *; lia
      end.
Qed.

Lemma span_digits_length (s : str) :
  List.length (snd (span_digits s)) <= List.length s.
Proof.
  induction s as [|c s IH]; simpl; [lia|].
  destruct (is_digit c); simpl; [|lia].
  destruct (span_digits s); simpl in *; lia.
Qed.

Lemma match_integer_length (s : str) i r :
  match_integer s = Some (i, r) -> List.length r < List.length s.
Proof.
  unfold match_integer.
  destruct s as [|c t]; [discriminate|].
  destruct (c =? chr "-")%N; cbn [fst snd].
  - destruct t as [|d t']; [discriminate|].
    destruct (d =? chr "0")%N.
    + intros H. injection H as _ <-. simpl. lia.
    + destruct (is_digit d); [|discriminate].
      pose proof (span_digits_length t') as L.
      destruct (span_digits t'). intros H. injection H as _ <-.
      simpl in *. lia.
  - destruct (c =? chr "0")%N.
    + intros H. injection H as _ <-. simpl. lia.
    + destruct (is_digit c); [|discriminate].
      pose proof (span_digits_length t) as L.
      destruct (span_digits t). intros H. injection H as _ <-.
      simpl in *. lia.
Qed.

Lemma match_frac_length (s : str) :
  List.length (snd (match_frac s)) <= List.length s.
Proof.
  unfold match_frac. destruct s as [|dot [|d t]]; try (simpl; lia).
  destruct ((dot =? chr ".")%N && is_digit d); [|simpl; lia].
  pose proof (span_digits_length t). destruct (span_digits t).
  simpl in *. lia.
Qed.

Lemma match_exp_length (s : str) :
  List.length (snd (match_exp s)) <= List.length s.
Proof.
  unfold match_exp. destruct s as [|e t]; [simpl; lia|].
  destruct ((e =? chr "e")%N || (e =? chr "E")%N); [|simpl; lia].
  destruct t as [|sg [|d t']]; try (simpl; lia).
  - destruct (is_digit sg); simpl; lia.
  - destruct (((sg =? chr "-")%N || (sg =? chr "+")%N) && is_digit d).
    + pose proof (span_digits_length t'). destruct (span_digits t').
      simpl in *. lia.
    + destruct (is_digit sg); [|simpl; lia].
      pose proof (span_digits_length (d :: t')).
      destruct (span_digits (d :: t')). simpl in *. lia.
Qed.

Lemma match_number_length (s : str) v r :
  match_number s = Some (v, r) -> List.length r < List.length s.
Proof.
  unfold match_number.
  destruct (match_integer s) as [[i r1]|] eqn:Hi; [|discriminate].
  apply match_integer_length in Hi.
  pose proof (match_frac_length r1) as Hf.
  destruct (match_frac r1) as [frac r2].
  pose proof (match_exp_length r2) as He.
  destruct (match_exp r2) as [exp r3]. simpl in *.
  destruct frac, exp; intros H; injection H as _ <-; lia.
Qed.

Lemma after_word_length (word s r : str) :
  after_word word s = Some r ->
  List.length r + List.length word = List.length s.
Proof.
  revert s; induction word as [|x word IH]; intros s; simpl.
  - intros H. injection H as <-. lia.
  - destruct s as [|y s]; [discriminate|].
    destruct (x =? y)%N; [|discriminate].
    intros H. apply IH in H. simpl. lia.
Qed.

Lemma scan_atom_consumes (s : str) : consumes (List.length s) (scan_atom s).
Proof.
  unfold scan_atom.
  repeat match goal with
         | |- context [after_word ?w s] =>
             let E := fresh "E" in
             destruct (after_word w s) eqn:E;
             [apply after_word_length in E; simpl in *; lia|]
         | |- context [match_number s] =>
             let E := fresh "E" in
             destruct (match_number s) as [[? ?]|] eqn:E;
             [apply match_number_length in E; simpl; lia|]
         end.
  exact I.
Qed.

Section Loops.

Variable scan_value : str -> scan pyval.
Variable bound : nat.
Hypothesis scan_value_consumes :
  forall s, List.length s <= bound -> consumes (List.length s) (scan_value s).

Lemma array_items_consumes (n : nat) :
  forall values s,
    List.length s <= bound -> List.length s < n ->
    consumes (List.length s) (array_items scan_value n values s).
Proof.
  induction n as [|n IH]; intros values s Hb Hn; [lia|].
  cbn [array_items].
  pose proof (scan_value_consumes s Hb) as Hv.
  destruct (scan_value s) as [v r| |]; simpl in Hv; try exact Hv.
  pose proof (skip_ws_length r) as Hr.
  destruct (skip_ws r) as [|c r']; [exact I|]. simpl in Hr.
  destruct (c =? chr "]")%N; [simpl; lia|].
  destruct (c =? chr ",")%N; [|exact I].
  pose proof (skip_ws_length r') as Hr'.
  eapply consumes_weaken; [apply IH|]; lia.
Qed.

Lemma object_items_consumes (n : nat) :
  forall pairs s,
    List.length s <= bound -> List.length s < n ->
    consumes (List.length s) (object_items scan_value n pairs s).
Proof.
  induction n as [|n IH]; intros pairs s Hb Hn; [lia|].
  cbn [object_items].
  pose proof (@scanstring_consumes (List.length s) s [] (le_n _)) as Hk.
  destruct (scanstring s []) as [key r| |]; simpl in Hk; try exact Hk.
  pose proof (skip_ws_length r) as Hr.
  destruct (skip_ws r) as [|colon r1]; [exact I|]. simpl in Hr.
  destruct (colon =? chr ":")%N; [|exact I].
  pose proof (skip_ws_length r1) as Hr1.
  assert (Hb1 : List.length (skip_ws r1) <= bound) by lia.
  pose proof (scan_value_consumes _ Hb1) as Hv.
  destruct (scan_value (skip_ws r1)) as [v r2| |]; simpl in Hv; try exact Hv.
  pose proof (skip_ws_length r2) as Hr2.
  destruct (skip_ws r2) as [|c r3]; [exact I|]. simpl in Hr2.
  destruct (c =? chr "}")%N; [simpl; lia|].
  destruct (c =? chr ",")%N; [|exact I].
  pose proof (skip_ws_length r3) as Hr3.
  destruct (skip_ws r3) as [|q r4]; [exact I|]. simpl in Hr3.
  destruct (q =? dquote)%N; [|exact I].
  eapply consumes_weaken; [apply IH|]; lia.
Qed.

End Loops.

Lemma scan_once_consumes (fuel : nat) :
  forall s, List.length s < fuel ->
            consumes (List.length s) (scan_once fuel s).
Proof.
  induction fuel as [|fuel IH]; intros s Hs; [lia|].
  cbn [scan_once].
  destruct s as [|c t]; [exact I|]. simpl in Hs.
  destruct (c =? dquote)%N.
  { pose proof (@scanstring_consumes (List.length t) t [] (le_n _)) as Hk.
    destruct (scanstring t []); simpl in *; auto. }
  assert (Hsub : forall u, List.length u <= fuel - 1 ->
                           consumes (List.length u) (scan_once fuel u)).
  { intros u Hu. apply IH. lia. }
  pose proof (skip_ws_length t) as Ht.
  destruct (c =? chr "{")%N.
  { destruct (skip_ws t) as [|q r]; [exact I|]. simpl in Ht.
    destruct (q =? dquote)%N.
    - eapply consumes_weaken;
        [apply (@object_items_consumes _ _ Hsub)|]; simpl; lia.
    - destruct (q =? chr "}")%N; simpl; [lia | exact I]. }
  destruct (c =? chr "[")%N.
  { destruct (skip_ws t) as [|q r]; [exact I|]. simpl in Ht.
    destruct (q =? chr "]")%N; [simpl; lia|].
    eapply consumes_weaken;
      [apply (@array_items_consumes _ _ Hsub)|]; simpl in *; lia. }
  apply scan_atom_consumes.
Qed.

(** The fuel [json_loads] gives [scan_once] is enough: the scan either
    fails to decode or yields a value. *)
Lemma scan_once_enough_fuel (s : str) :
  scan_once (S (List.length s)) (skip_ws s) <> Exhausted.
Proof.
  pose proof (skip_ws_length s) as L.
  pose proof (@scan_once_consumes (S (List.length s)) (skip_ws s)) as H.
  intros E. rewrite E in H. simpl in H. apply H. lia.
Qed.


(** ** The similarity ratio *)

Lemma j2len_get_in (j2len : list (nat * nat)) (key : nat) :
  j2len_get j2len key = 0 \/ In (key, j2len_get j2len key) j2len.
Proof.
  induction j2len as [|[j k] rest IH]; simpl; [left; reflexivity|].
  destruct (Nat.eqb_spec j key) as [->|_].
  - right. left. reflexivity.
  - destruct IH as [IH|IH]; [left | right; right]; exact IH.
Qed.

Lemma indices_from_spec (x : char) (b : str) :
  forall from j,
    In j (indices_from from x b) -> from <= j /\ nth (j - from) b 0%N = x.
Proof.
  induction b as [|y b IH]; intros from j; simpl; [intros []|].
  destruct (N.eqb_spec x y) as [->|_].
  - intros [<-|H].
    + rewrite Nat.sub_diag. split; [lia | reflexivity].
    + apply IH in H. destruct H as [H1 H2]. split; [lia|].
      replace (j - from) with (S (j - S from)) by lia. exact H2.
  - intros H. apply IH in H. destruct H as [H1 H2]. split; [lia|].
    replace (j - from) with (S (j - S from)) by lia. exact H2.
Qed.

(** Every index [b2j] gives for [x] holds [x] in [b]. *)
Lemma b2j_spec (b : str) (x : char) (j : nat) :
  In j (b2j b x) -> nth j b 0%N = x.
Proof.
  unfold b2j. destruct (popular b x); [intros []|].
  intros H. apply indices_from_spec in H. destruct H as [_ H].
  rewrite Nat.sub_0_r in H. exact H.
Qed.

Section Row.

Variables a b : str.
Variables alo blo bhi i : nat.
Variable j2len : list (nat * nat).
Hypothesis row_in_region : alo <= i.
Hypothesis rows_below : j2len_ok a b alo blo bhi i j2len.

(** A run over the rows below [i] that ends in column [j - 1], made one
    longer by the equal pair at row [i] and column [j]. *)
Lemma longer_run (j : nat) :
  blo <= j -> j < bhi -> nth j b 0%N = nth i a 0%N ->
  let k := j2len_get_pred j2len j + 1 in
  blo + k <= j + 1 /\ alo + k <= S i /\ j < bhi
  /\ forall t, t < k -> nth (S i - 1 - t) a 0%N = nth (j - t) b 0%N.
Proof.
  intros Hlo Hhi Heq k.
  assert (Hprev : blo + j2len_get_pred j2len j <= j
                  /\ alo + j2len_get_pred j2len j <= i
                  /\ forall t, t < j2len_get_pred j2len j ->
                               nth (i - 1 - t) a 0%N = nth (j - 1 - t) b 0%N).
  { unfold j2len_get_pred. destruct j as [|j'].
    - split; [lia|]. split; [lia|]. intros t Ht. lia.
    - destruct (j2len_get_in j2len j') as [E|E].
      + rewrite E. split; [lia|]. split; [lia|]. intros t Ht. lia.
      + apply rows_below in E. destruct E as (E1 & E2 & _ & E4).
        split; [lia|]. split; [lia|]. intros t Ht.
        replace (S j' - 1 - t) with (j' - t) by lia. apply E4. exact Ht. }
  destruct Hprev as (P1 & P2 & P3). unfold k.
  split; [lia|]. split; [lia|]. split; [exact Hhi|].
  intros t Ht. destruct t as [|t].
  - rewrite !Nat.sub_0_r. replace (S i - 1) with i by lia.
    symmetry. exact Heq.
  - replace (S i - 1 - S t) with (i - 1 - t) by lia.
    replace (j - S t) with (j - 1 - t) by lia.
    apply P3. lia.
Qed.

Lemma match_row_invariant (js : list nat) :
  Forall (fun j => nth j b 0%N = nth i a 0%N) js ->
  forall newj2len best,
    j2len_ok a b alo blo bhi (S i) newj2len ->
    in_region alo (S i) blo bhi best -> common_block a b best ->
    let row := match_row blo bhi i j2len js newj2len best in
    j2len_ok a b alo blo bhi (S i) (fst row)
    /\ in_region alo (S i) blo bhi (snd row)
    /\ common_block a b (snd row).
Proof.
  induction js as [|j js IH]; intros Hjs new best Hnew Hbest Hcommon;
    cbv zeta.
  - cbn [match_row fst snd]. split; [exact Hnew|]. split; assumption.
  - cbn [match_row]. inversion Hjs as [|j0 js0 Hj Hjs']; subst.
    destruct (Nat.ltb_spec j blo) as [_|Hlo]; [apply IH; assumption|].
    destruct (Nat.leb_spec bhi j) as [_|Hhi].
    { cbn [fst snd]. split; [exact Hnew|]. split; assumption. }
    destruct (longer_run Hlo Hhi Hj) as (K1 & K2 & K3 & K4).
    apply IH.
    + exact Hjs'.
    + intros j0 k0 [E|E].
      * injection E as <- <-. repeat split; assumption.
      * apply Hnew. exact E.
    + destruct (match_size best <? j2len_get_pred j2len j + 1);
        [|exact Hbest].
      unfold in_region. simpl. lia.
    + destruct (match_size best <? j2len_get_pred j2len j + 1);
        [|exact Hcommon].
      intros t Ht. simpl in Ht |- *.
      specialize (K4 (j2len_get_pred j2len j + 1 - 1 - t)).
      replace (S i - 1 - (j2len_get_pred j2len j + 1 - 1 - t))
        with (i + 1 - (j2len_get_pred j2len j + 1) + t) in K4 by lia.
      replace (j - (j2len_get_pred j2len j + 1 - 1 - t))
        with (j + 1 - (j2len_get_pred j2len j + 1) + t) in K4 by lia.
      apply K4. lia.
Qed.

End Row.

Lemma match_rows_invariant (a b : str) (alo blo bhi : nat) (n : nat) :
  forall i j2len best,
    alo <= i -> j2len_ok a b alo blo bhi i j2len ->
    in_region alo i blo bhi best -> common_block a b best ->
    let found := match_rows a b blo bhi i n j2len best in
    in_region alo (i + n) blo bhi found /\ common_block a b found.
Proof.
  induction n as [|n IH]; intros i j2len best Hi Hj Hb Hc.
  - rewrite Nat.add_0_r. split; assumption.
  - cbn [match_rows].
    assert (Hb' : in_region alo (S i) blo bhi best).
    { unfold in_region in *. lia. }
    assert (Hnil : j2len_ok a b alo blo bhi (S i) []).
    { intros j k []. }
    assert (Hjs : Forall (fun j => nth j b 0%N = nth i a 0%N)
                    (b2j b (nth i a 0%N))).
    { apply Forall_forall. intros j H. apply b2j_spec. exact H. }
    destruct (match_row_invariant Hi Hj Hjs Hnil Hb' Hc)
      as (Hnew & Hbest & Hcommon).
    destruct (match_row blo bhi i j2len (b2j b (nth i a 0%N)) [] best)
      as [newj2len best'].
    replace (i + S n) with (S i + n) by lia.
    apply IH; [lia | exact Hnew | exact Hbest | exact Hcommon].
Qed.

Lemma extend_left_invariant (a b : str) (alo blo : nat) :
  forall besti bestj bestsize,
    alo <= besti -> blo <= bestj ->
    common_block a b (mkMatch besti bestj bestsize) ->
    let m := extend_left a b alo blo besti bestj bestsize in
    alo <= match_a m /\ blo <= match_b m
    /\ match_a m + match_size m = besti + bestsize
    /\ match_b m + match_size m = bestj + bestsize
    /\ common_block a b m.
Proof.
  induction besti as [|i' IH]; intros bestj bestsize Ha Hb Hc;
    cbn [extend_left].
  - simpl. repeat split; try lia. exact Hc.
  - destruct (Nat.ltb_spec alo (S i')) as [Hlt|_];
      [|simpl; repeat split; try lia; exact Hc].
    destruct (Nat.ltb_spec blo bestj) as [Hlt'|_];
      [|simpl; repeat split; try lia; exact Hc].
    destruct (N.eqb_spec (nth i' a 0%N) (nth (bestj - 1) b 0%N)) as [E|_];
      [|simpl; repeat split; try lia; exact Hc].
    cbn [andb].
    assert (Hc' : common_block a b (mkMatch i' (bestj - 1) (bestsize + 1))).
    { intros t Ht. simpl in Ht |- *. destruct t as [|t].
      - rewrite !Nat.add_0_r. exact E.
      - specialize (Hc t). simpl in Hc.
        replace (i' + S t) with (S i' + t) by lia.
        replace (bestj - 1 + S t) with (bestj + t) by lia.
        apply Hc. lia. }
    specialize (IH (bestj - 1) (bestsize + 1)).
    cbv zeta in IH.
    destruct IH as (I1 & I2 & I3 & I4 & I5); [lia | lia | exact Hc' |].
    repeat split; try lia. exact I5.
Qed.

Lemma extend_right_invariant (a b : str) (bhi besti bestj : nat)
    (room : nat) :
  forall bestsize,
    bestj + bestsize <= bhi ->
    common_block a b (mkMatch besti bestj bestsize) ->
    let size := extend_right a b bhi besti bestj room bestsize in
    bestsize <= size /\ size <= bestsize + room /\ bestj + size <= bhi
    /\ common_block a b (mkMatch besti bestj size).
Proof.
  induction room as [|room IH]; intros bestsize Hb Hc; cbn [extend_right].
  - simpl. repeat split; try lia. exact Hc.
  - destruct (Nat.ltb_spec (bestj + bestsize) bhi) as [Hlt|_];
      [|simpl; repeat split; try lia; exact Hc].
    destruct (N.eqb_spec (nth (besti + bestsize) a 0%N)
                (nth (bestj + bestsize) b 0%N)) as [E|_];
      [|simpl; repeat split; try lia; exact Hc].
    cbn [andb].
    assert (Hc' : common_block a b (mkMatch besti bestj (bestsize + 1))).
    { intros t Ht. simpl in Ht |- *.
      destruct (Nat.eq_dec t bestsize) as [->|Hne]; [exact E|].
      apply (Hc t). simpl. lia. }
    specialize (IH (bestsize + 1)). cbv zeta in IH.
    destruct IH as (I1 & I2 & I3 & I4); [lia | exact Hc' |].
    repeat split; try lia. exact I4.
Qed.

(** The block [find_longest_match] returns lies inside the region it was
    asked to search, and its two sides hold the same characters. *)
Lemma find_longest_match_spec (a b : str) (alo ahi blo bhi : nat) :
  alo <= ahi -> blo <= bhi ->
  in_region alo ahi blo bhi (find_longest_match a b alo ahi blo bhi)
  /\ common_block a b (find_longest_match a b alo ahi blo bhi).
Proof.
  intros Ha Hb. unfold find_longest_match.
  assert (H0 : in_region alo alo blo bhi (mkMatch alo blo 0)).
  { unfold in_region. simpl. lia. }
  assert (C0 : common_block a b (mkMatch alo blo 0)).
  { intros t Ht. simpl in Ht. lia. }
  assert (Hnil : j2len_ok a b alo blo bhi alo []) by (intros j k []).
  pose proof (@match_rows_invariant a b alo blo bhi (ahi - alo) alo [] _
                (le_n _) Hnil H0 C0) as Hrows.
  cbv zeta in Hrows.
  replace (alo + (ahi - alo)) with ahi in Hrows by lia.
  remember (match_rows a b blo bhi alo (ahi - alo) [] (mkMatch alo blo 0))
    as best eqn:Hbest. clear Hbest.
  destruct Hrows as ((R1 & R2 & R3 & R4) & R5).
  assert (R5' : common_block a b
                  (mkMatch (match_a best) (match_b best) (match_size best)))
    by (destruct best; exact R5).
  pose proof (@extend_left_invariant a b alo blo (match_a best)
                (match_b best) (match_size best) R1 R3 R5') as Hl.
  cbv zeta in Hl.
  remember (extend_left a b alo blo (match_a best) (match_b best)
              (match_size best)) as m eqn:Hm. clear Hm.
  destruct Hl as (L1 & L2 & L3 & L4 & L5).
  assert (Hm : match_b m + match_size m <= bhi) by lia.
  assert (L5' : common_block a b
                  (mkMatch (match_a m) (match_b m) (match_size m)))
    by (destruct m; exact L5).
  pose proof (@extend_right_invariant a b bhi (match_a m) (match_b m)
                (ahi - (match_a m + match_size m)) (match_size m) Hm L5')
    as Hr.
  cbv zeta in Hr. destruct Hr as (X1 & X2 & X3 & X4).
  split; [|exact X4].
  unfold in_region. simpl. lia.
Qed.

Lemma sum_sizes_app (l1 l2 : list Match) :
  sum_sizes (l1 ++ l2) = sum_sizes l1 + sum_sizes l2.
Proof.
  unfold sum_sizes. induction l1 as [|m l1 IH]; simpl; [reflexivity|].
  rewrite IH. lia.
Qed.

Lemma queue_weight_cons (r : region) (queue : list region) :
  queue_weight (r :: queue) = region_weight r + queue_weight queue.
Proof. reflexivity. Qed.

Lemma queue_capacity_cons (r : region) (queue : list region) :
  queue_capacity (r :: queue) = region_capacity r + queue_capacity queue.
Proof. reflexivity. Qed.

(** The work list empties within its weight; the blocks it adds are common
    to the two texts and fit into the capacity of the regions still to be
    searched. *)
Lemma blocks_loop_invariant (a b : str) (fuel : nat) :
  forall queue blocks,
    Forall valid_region queue -> queue_weight queue <= fuel ->
    Forall (common_block a b) blocks ->
    exists found,
      blocks_loop fuel a b queue blocks = Some found
      /\ sum_sizes found <= sum_sizes blocks + queue_capacity queue
      /\ Forall (common_block a b) found.
Proof.
  induction fuel as [|fuel IH]; intros queue blocks Hv Hw Hc.
  - destruct queue as [|[[[alo ahi] blo] bhi] queue'].
    + exists blocks. split; [reflexivity|]. split; [simpl; lia | exact Hc].
    + simpl in Hw. lia.
  - destruct queue as [|[[[alo ahi] blo] bhi] queue'].
    + exists blocks. split; [reflexivity|]. split; [simpl; lia | exact Hc].
    + cbn [blocks_loop].
      inversion Hv as [|r q Hr Hq]; subst. destruct Hr as [Ha Hb].
      pose proof (find_longest_match_spec a b Ha Hb) as [Hin Hcx].
      cbv zeta.
      remember (find_longest_match a b alo ahi blo bhi) as x eqn:Hx.
      clear Hx.
      destruct Hin as (I1 & I2 & I3 & I4).
      rewrite queue_weight_cons in Hw. rewrite queue_capacity_cons.
      cbn [region_weight region_capacity] in *.
      destruct (Nat.eqb_spec (match_size x) 0) as [Hz|Hz].
      * assert (Hw' : queue_weight queue' <= fuel) by lia.
        destruct (IH queue' blocks Hq Hw' Hc) as [found [E [B C]]].
        exists found. split; [exact E|]. split; [lia | exact C].
      * set (q1 := if (alo <? match_a x) && (blo <? match_b x)
                   then (alo, match_a x, blo, match_b x) :: queue'
                   else queue').
        set (q2 := if (match_a x + match_size x <? ahi)
                      && (match_b x + match_size x <? bhi)
                   then (match_a x + match_size x, ahi,
                         match_b x + match_size x, bhi) :: q1
                   else q1).
        assert (V1 : Forall valid_region q1).
        { unfold q1. destruct ((alo <? match_a x) && (blo <? match_b x));
            [constructor; [unfold valid_region; lia | exact Hq] | exact Hq]. }
        assert (W1 : queue_weight q1
                     <= 2 * (match_a x - alo) + 1 + queue_weight queue'
                   /\ queue_capacity q1
                      <= Nat.min (match_a x - alo) (match_b x - blo)
                         + queue_capacity queue').
        { unfold q1. destruct ((alo <? match_a x) && (blo <? match_b x));
            rewrite ?queue_weight_cons, ?queue_capacity_cons;
            cbn [region_weight region_capacity]; lia. }
        assert (V2 : Forall valid_region q2).
        { unfold q2.
          destruct ((match_a x + match_size x <? ahi)
                    && (match_b x + match_size x <? bhi));
            [constructor; [unfold valid_region; lia | exact V1] | exact V1]. }
        assert (W2 : queue_weight q2
                     <= 2 * (ahi - (match_a x + match_size x)) + 1
                        + queue_weight q1
                   /\ queue_capacity q2
                      <= Nat.min (ahi - (match_a x + match_size x))
                                 (bhi - (match_b x + match_size x))
                         + queue_capacity q1).
        { unfold q2.
          destruct ((match_a x + match_size x <? ahi)
                    && (match_b x + match_size x <? bhi));
            rewrite ?queue_weight_cons, ?queue_capacity_cons;
            cbn [region_weight region_capacity]; lia. }
        assert (Hw' : queue_weight q2 <= fuel) by lia.
        assert (Hc' : Forall (common_block a b) (blocks ++ [x])).
        { apply Forall_app. split; [exact Hc | constructor; [exact Hcx|]].
          constructor. }
        destruct (IH q2 (blocks ++ [x]) V2 Hw' Hc') as [found [E [B C]]].
        exists found. split; [exact E|]. split; [|exact C].
        rewrite sum_sizes_app in B. simpl in B. lia.
Qed.

(** [get_matching_blocks] finds its blocks within the iterations the model
    allows; every block is common to the two texts, and the sizes add up to
    no more than the shorter text. *)
Lemma matching_blocks_found (a b : str) :
  exists found,
    matching_blocks a b = Some found
    /\ sum_sizes found <= Nat.min (List.length a) (List.length b)
    /\ Forall (common_block a b) found.
Proof.
  unfold matching_blocks.
  assert (V : Forall valid_region [(0, List.length a, 0, List.length b)]).
  { constructor; [simpl; lia | constructor]. }
  assert (W : queue_weight [(0, List.length a, 0, List.length b)]
              <= 2 * List.length a + 1) by (simpl; lia).
  destruct (@blocks_loop_invariant a b _ _ [] V W (Forall_nil _))
    as [found [E [B C]]].
  exists found. split; [exact E|]. split; [|exact C]. simpl in B. lia.
Qed.

Lemma matches_bound (a b : str) :
  2 * matches a b <= List.length a + List.length b.
Proof.
  unfold matches. destruct (matching_blocks_found a b) as [found [E [B _]]].
  rewrite E. lia.
Qed.

(** The ratio is a number between 0 and 1. *)
Lemma ratio_bounds (a b : str) : (0 <= ratio a b /\ ratio a b <= 1)%Q.
Proof.
  unfold ratio, calculate_ratio.
  pose proof (matches_bound a b) as H.
  destruct (List.length a + List.length b) as [|n] eqn:L.
  - split; unfold Qle; simpl; lia.
  - unfold Qle. cbn [Qnum Qden].
    assert (P : Zpos (Pos.of_nat (S n)) = Z.of_nat (S n)).
    { rewrite <- positive_nat_Z, Nat2Pos.id; [reflexivity | lia]. }
    rewrite P. split; lia.
Qed.

(** ** The longest matching block *)

Section Runs.

Variables a b : str.
Variables alo blo bhi : nat.

Lemma run_end_eq (r j : nat) :
  run_end a b alo blo bhi r j
  = if (alo <=? r) && (blo <=? j) && (j <? bhi)
       && (nth r a 0 =? nth j b 0)%N
    then S (match r with
            | S r' => match j with S j' => run_end a b alo blo bhi r' j' | O => 0 end
            | O => 0
            end)
    else 0.
Proof. destruct r; reflexivity. Qed.

Lemma run_end_cell (r j : nat) :
  alo <= r -> blo <= j -> j < bhi -> nth r a 0%N = nth j b 0%N ->
  run_end a b alo blo bhi r j
  = S (match r with
       | S r' => match j with S j' => run_end a b alo blo bhi r' j' | O => 0 end
       | O => 0
       end).
Proof.
  intros H1 H2 H3 H4. rewrite run_end_eq.
  destruct (Nat.leb_spec alo r); [|lia].
  destruct (Nat.leb_spec blo j); [|lia].
  destruct (Nat.ltb_spec j bhi); [|lia].
  rewrite H4, N.eqb_refl. reflexivity.
Qed.

Lemma run_end_zero (r j : nat) :
  r < alo \/ j < blo \/ bhi <= j \/ nth r a 0%N <> nth j b 0%N ->
  run_end a b alo blo bhi r j = 0.
Proof.
  intros H. rewrite run_end_eq.
  destruct (Nat.leb_spec alo r); [|reflexivity].
  destruct (Nat.leb_spec blo j); [|reflexivity].
  destruct (Nat.ltb_spec j bhi); [|reflexivity].
  destruct (N.eqb_spec (nth r a 0%N) (nth j b 0%N)); [|reflexivity].
  exfalso. destruct H as [H|[H|[H|H]]]; try lia; contradiction.
Qed.

Lemma run_end_positive (r j : nat) :
  0 < run_end a b alo blo bhi r j ->
  alo <= r /\ blo <= j /\ j < bhi /\ nth r a 0%N = nth j b 0%N.
Proof.
  rewrite run_end_eq.
  destruct (Nat.leb_spec alo r); [|cbn; lia].
  destruct (Nat.leb_spec blo j); [|cbn; lia].
  destruct (Nat.ltb_spec j bhi); [|cbn; lia].
  destruct (N.eqb_spec (nth r a 0%N) (nth j b 0%N)); [|cbn; lia].
  intros _. repeat split; assumption.
Qed.

(** A run fits between the corner of the region and the cell it ends
    in. *)
Lemma run_end_bound (r : nat) :
  forall j, run_end a b alo blo bhi r j + alo <= r + 1 /\ run_end a b alo blo bhi r j + blo <= j + 1
            \/ run_end a b alo blo bhi r j = 0.
Proof.
  induction r as [|r IH]; intros j.
  - destruct (Nat.eq_dec (run_end a b alo blo bhi 0 j) 0) as [E|E]; [right; exact E|].
    left. assert (P : 0 < run_end a b alo blo bhi 0 j) by lia.
    destruct (run_end_positive _ _ P) as (H1 & H2 & H3 & H4).
    rewrite (run_end_cell H1 H2 H3 H4). lia.
  - destruct (Nat.eq_dec (run_end a b alo blo bhi (S r) j) 0) as [E|E]; [right; exact E|].
    left. assert (P : 0 < run_end a b alo blo bhi (S r) j) by lia.
    destruct (run_end_positive _ _ P) as (H1 & H2 & H3 & H4).
    rewrite (run_end_cell H1 H2 H3 H4).
    destruct j as [|j]; [lia|].
    destruct (IH j) as [[B1 B2]|Z]; [|rewrite Z; lia].
    destruct (Nat.eq_dec (run_end a b alo blo bhi r j) 0) as [Z|Z]; [rewrite Z; lia|].
    assert (P' : 0 < run_end a b alo blo bhi r j) by lia.
    destruct (run_end_positive _ _ P') as (G1 & G2 & _). lia.
Qed.

(** A block common to the two texts inside the region is no longer than
    the run that ends in its last cell. *)
Lemma run_end_block (k : nat) :
  forall a' b',
    alo <= a' -> blo <= b' -> b' + k <= bhi -> 0 < k ->
    (forall t, t < k -> nth (a' + t) a 0%N = nth (b' + t) b 0%N) ->
    k <= run_end a b alo blo bhi (a' + k - 1) (b' + k - 1).
Proof.
  induction k as [|k IH]; intros a' b' Ha Hb Hh Hk Hc; [lia|].
  destruct k as [|k].
  - replace (a' + 1 - 1) with a' by lia. replace (b' + 1 - 1) with b' by lia.
    rewrite run_end_cell; [lia | lia | lia | lia |].
    specialize (Hc 0). rewrite !Nat.add_0_r in Hc. apply Hc. lia.
  - replace (a' + S (S k) - 1) with (S (a' + k)) by lia.
    replace (b' + S (S k) - 1) with (S (b' + k)) by lia.
    rewrite run_end_cell; [| lia | lia | lia |].
    + specialize (IH a' b' Ha Hb).
      replace (a' + S k - 1) with (a' + k) in IH by lia.
      replace (b' + S k - 1) with (b' + k) in IH by lia.
      assert (k + 1 <= run_end a b alo blo bhi (a' + k) (b' + k)); [|lia].
      replace (k + 1) with (S k) by lia.
      apply IH; [lia | lia|]. intros t Ht. apply Hc. lia.
    + specialize (Hc (S k)).
      replace (a' + S k) with (S (a' + k)) in Hc by lia.
      replace (b' + S k) with (S (b' + k)) in Hc by lia.
      apply Hc. lia.
Qed.

(** A run cannot be made longer at its start: there the region ends or
    the two characters before it differ. *)
Lemma run_end_stop (r : nat) :
  forall j k,
    run_end a b alo blo bhi r j = k -> 0 < k ->
    ~ (alo + k < r + 1 /\ blo + k < j + 1
       /\ nth (r - k) a 0%N = nth (j - k) b 0%N).
Proof.
  induction r as [|r IH]; intros j k E Hk (S1 & S2 & S3).
  - assert (P : 0 < run_end a b alo blo bhi 0 j) by lia.
    destruct (run_end_positive _ _ P) as (H1 & H2 & H3 & H4).
    rewrite (run_end_cell H1 H2 H3 H4) in E. lia.
  - assert (P : 0 < run_end a b alo blo bhi (S r) j) by lia.
    destruct (run_end_positive _ _ P) as (H1 & H2 & H3 & H4).
    rewrite (run_end_cell H1 H2 H3 H4) in E.
    destruct j as [|j]; [lia|].
    destruct (Nat.eq_dec (run_end a b alo blo bhi r j) 0) as [Z|Z].
    + rewrite Z in E. subst k.
      replace (S r - 1) with r in S3 by lia.
      replace (S j - 1) with j in S3 by lia.
      assert (C : run_end a b alo blo bhi r j = S (match r with
                               | S r' =>
                                   match j with S j' => run_end a b alo blo bhi r' j' | O => 0 end
                               | O => 0
                               end))
        by (apply run_end_cell; [lia | lia | lia | exact S3]).
      lia.
    + apply (IH j (run_end a b alo blo bhi r j) eq_refl); [lia|].
      subst k. split; [lia|]. split; [lia|].
      replace (r - run_end a b alo blo bhi r j) with (S r - S (run_end a b alo blo bhi r j)) by lia.
      replace (j - run_end a b alo blo bhi r j) with (S j - S (run_end a b alo blo bhi r j)) by lia.
      exact S3.
Qed.

End Runs.

Lemma first_longest_more (a b : str) (alo blo bhi : nat)
    (cells cells' : nat -> nat -> Prop) (best : Match) :
  first_longest a b alo blo bhi cells best ->
  (forall r j, cells r j -> cells' r j) ->
  (forall r j, cells' r j -> cells r j \/ run_end a b alo blo bhi r j = 0) ->
  first_longest a b alo blo bhi cells' best.
Proof.
  intros [M F] Hsub Hnew. split.
  - intros r j C. destruct (Hnew r j C) as [C'|Z]; [apply M; exact C'|].
    rewrite Z. lia.
  - destruct F as [F|(r & j & C & P & E & A & B & T)]; [left; exact F|].
    right. exists r, j. split; [apply Hsub; exact C|].
    split; [exact P|]. split; [exact E|]. split; [exact A|].
    split; [exact B|].
    intros r' j' C' E'. destruct (Hnew r' j' C') as [C''|Z].
    + apply T; assumption.
    + rewrite Z in E'. lia.
Qed.

Section CompleteRow.

Variables a b : str.
Variables alo blo bhi i : nat.
Variable j2len : list (nat * nat).
Hypothesis row_in_region : alo <= i.
Hypothesis region_in_b : bhi <= List.length b.
Hypothesis rows_above :
  forall j, j2len_get j2len j = run_above a b alo blo bhi i j.

(** What the inner loop computes for a cell of the region whose two
    characters are equal is the run that ends there. *)
Lemma cell_run (j : nat) :
  blo <= j -> j < bhi -> nth i a 0%N = nth j b 0%N ->
  j2len_get_pred j2len j + 1 = run_end a b alo blo bhi i j.
Proof.
  intros H1 H2 H3. rewrite (run_end_cell _ _ row_in_region H1 H2 H3).
  unfold j2len_get_pred. destruct j as [|j].
  - destruct i; lia.
  - rewrite rows_above. unfold run_above. destruct i; lia.
Qed.

(** The inner loop, from column [from] on: [rest] is what is left of [b]
    from there. *)
Lemma match_row_complete (rest : str) :
  forall done newj2len best,
    b = done ++ rest ->
    (forall j, j2len_get newj2len j
               = if j <? List.length done
                 then run_end a b alo blo bhi i j else 0) ->
    first_longest a b alo blo bhi (seen i (List.length done)) best ->
    let row :=
      match_row blo bhi i j2len
        (indices_from (List.length done) (nth i a 0%N) rest) newj2len best in
    (forall j, j2len_get (fst row) j = run_end a b alo blo bhi i j)
    /\ first_longest a b alo blo bhi (seen (S i) 0) (snd row).
Proof.
  induction rest as [|y rest IH]; intros done new best Hb Hnew Hbest;
    cbv zeta.
  - cbn [indices_from match_row fst snd]. rewrite app_nil_r in Hb.
    subst done. split.
    + intros j. rewrite Hnew.
      destruct (Nat.ltb_spec j (List.length b)) as [_|H]; [reflexivity|].
      symmetry. apply run_end_zero. lia.
    + eapply first_longest_more; [exact Hbest| |].
      * unfold seen. intros r j [H|[H1 H2]]; lia.
      * unfold seen. intros r j [H|[_ H]]; [|lia].
        destruct (Nat.eq_dec r i) as [->|Hne]; [|left; lia].
        destruct (Nat.lt_ge_cases j (List.length b)) as [Hj|Hj];
          [left; lia|].
        right. apply run_end_zero. lia.
  - assert (Hy : nth (List.length done) b 0%N = y).
    { rewrite Hb. apply nth_middle. }
    assert (Hb' : b = (done ++ [y]) ++ rest).
    { rewrite <- app_assoc. exact Hb. }
    assert (Hlen : List.length (done ++ [y]) = S (List.length done)).
    { rewrite length_app. simpl. lia. }
    assert (Skip :
      run_end a b alo blo bhi i (List.length done) = 0 ->
      let row :=
        match_row blo bhi i j2len
          (indices_from (S (List.length done)) (nth i a 0%N) rest) new best in
      (forall j, j2len_get (fst row) j = run_end a b alo blo bhi i j)
      /\ first_longest a b alo blo bhi (seen (S i) 0) (snd row)).
    { intros Z. rewrite <- Hlen. apply IH; [exact Hb'| |].
      - intros j. rewrite Hnew, Hlen.
        destruct (Nat.ltb_spec j (List.length done)) as [H|H];
          destruct (Nat.ltb_spec j (S (List.length done))) as [H'|H'];
          try reflexivity; try lia.
        replace j with (List.length done) by lia. symmetry. exact Z.
      - rewrite Hlen. eapply first_longest_more; [exact Hbest| |].
        + unfold seen. intros r j [H|[H1 H2]]; [left; lia | right; lia].
        + unfold seen. intros r j [H|[H1 H2]]; [left; left; lia|].
          destruct (Nat.eq_dec j (List.length done)) as [->|Hne];
            [right; subst r; exact Z | left; right; lia]. }
    cbn [indices_from].
    destruct (N.eqb_spec (nth i a 0%N) y) as [Heq|Hne].
    2:{ apply Skip. apply run_end_zero. right. right. right.
        rewrite Hy. exact Hne. }
    cbn [match_row].
    destruct (Nat.ltb_spec (List.length done) blo) as [Hlo|Hlo].
    { apply Skip. apply run_end_zero. right. left. exact Hlo. }
    destruct (Nat.leb_spec bhi (List.length done)) as [Hhi|Hhi].
    { cbn [fst snd]. split.
      - intros j. rewrite Hnew.
        destruct (Nat.ltb_spec j (List.length done)) as [_|H]; [reflexivity|].
        symmetry. apply run_end_zero. lia.
      - eapply first_longest_more; [exact Hbest| |].
        + unfold seen. intros r j [H|[H1 H2]]; lia.
        + unfold seen. intros r j [H|[_ H]]; [|lia].
          destruct (Nat.eq_dec r i) as [->|Hr]; [|left; lia].
          destruct (Nat.lt_ge_cases j (List.length done)) as [Hj|Hj];
            [left; lia|].
          right. apply run_end_zero. lia. }
    assert (Hch : nth i a 0%N = nth (List.length done) b 0%N)
      by (rewrite Hy; exact Heq).
    pose proof (cell_run Hlo Hhi Hch) as Hk.
    set (k := j2len_get_pred j2len (List.length done) + 1) in *.
    assert (Kpos : 0 < k) by (unfold k; lia).
    rewrite <- Hlen. apply IH; [exact Hb'| |].
    + intros j. cbn [j2len_get]. rewrite Hlen.
      destruct (Nat.eqb_spec (List.length done) j) as [<-|Hj].
      * destruct (Nat.ltb_spec (List.length done) (S (List.length done)));
          [exact Hk | lia].
      * rewrite Hnew.
        destruct (Nat.ltb_spec j (List.length done)) as [H|H];
          destruct (Nat.ltb_spec j (S (List.length done))) as [H'|H'];
          try reflexivity; lia.
    + rewrite Hlen. destruct Hbest as [M F].
      destruct (run_end_bound a b alo blo bhi i (List.length done))
        as [[B1 B2]|Z]; [|lia].
      rewrite <- Hk in B1, B2.
      destruct (Nat.ltb_spec (match_size best) k) as [Hlt|Hge].
      * split.
        { cbn [match_size]. unfold seen. intros r j [H|[H1 H2]].
          - specialize (M r j). unfold seen in M. lia.
          - destruct (Nat.eq_dec j (List.length done)) as [->|Hj].
            + subst r. lia.
            + specialize (M r j). unfold seen in M. lia. }
        right. exists i, (List.length done). cbn [match_size match_a match_b].
        split; [unfold seen; right; lia|]. split; [exact Kpos|].
        split; [symmetry; exact Hk|]. split; [lia|]. split; [lia|].
        unfold seen. intros r' j' [H|[H1 H2]] E.
        { specialize (M r' j'). unfold seen in M. lia. }
        destruct (Nat.eq_dec j' (List.length done)) as [->|Hj];
          [right; lia|].
        specialize (M r' j'). unfold seen in M. lia.
      * split.
        { unfold seen. intros r j [H|[H1 H2]].
          - apply M. unfold seen. left. exact H.
          - destruct (Nat.eq_dec j (List.length done)) as [->|Hj].
            + subst r. lia.
            + apply M. unfold seen. right. lia. }
        destruct F as [(F1 & _)|(r & j & C & P & E & A & B & T)]; [lia|].
        right. exists r, j.
        split; [unfold seen in *; lia|]. split; [exact P|].
        split; [exact E|]. split; [exact A|]. split; [exact B|].
        unfold seen. intros r' j' [H|[H1 H2]] E'.
        { apply T; [unfold seen; left; exact H | exact E']. }
        destruct (Nat.eq_dec j' (List.length done)) as [->|Hj].
        { subst r'. unfold seen in C. lia. }
        apply T; [unfold seen; right; lia | exact E'].
Qed.

End CompleteRow.

(** With no popular character, [b2j] lists every index of a character. *)
Lemma b2j_all (b : str) (x : char) :
  (forall c, popular b c = false) -> b2j b x = indices_from 0 x b.
Proof. intros H. unfold b2j. rewrite H. reflexivity. Qed.

(** The outer loop: once the rows below [i + n] are done, [best] is the
    first of the longest runs that end in them. *)
Lemma match_rows_complete (a b : str) (alo blo bhi : nat) :
  bhi <= List.length b -> (forall c, popular b c = false) ->
  forall n i j2len best,
    alo <= i ->
    (forall j, j2len_get j2len j = run_above a b alo blo bhi i j) ->
    first_longest a b alo blo bhi (seen i 0) best ->
    first_longest a b alo blo bhi (seen (i + n) 0)
      (match_rows a b blo bhi i n j2len best).
Proof.
  intros Hb Hp. induction n as [|n IH]; intros i j2len best Hi Hj Hbest.
  - rewrite Nat.add_0_r. exact Hbest.
  - cbn [match_rows]. rewrite (@b2j_all b (nth i a 0%N) Hp).
    pose proof (@match_row_complete a b alo blo bhi i j2len Hi Hb Hj b []
                  [] best eq_refl) as Hrow.
    cbn [List.length] in Hrow. cbv zeta in Hrow.
    destruct Hrow as [Hnew Hbest']; [intros j; reflexivity | exact Hbest|].
    destruct (match_row blo bhi i j2len (indices_from 0 (nth i a 0%N) b) []
                best) as [newj2len best'].
    cbn [fst snd] in Hnew, Hbest'.
    replace (i + S n) with (S i + n) by lia.
    apply IH; [lia | | exact Hbest'].
    intros j. rewrite Hnew. reflexivity.
Qed.

Lemma extend_left_stays (a b : str) (alo blo besti bestj bestsize : nat) :
  ~ (alo < besti /\ blo < bestj
     /\ nth (besti - 1) a 0%N = nth (bestj - 1) b 0%N) ->
  extend_left a b alo blo besti bestj bestsize
  = mkMatch besti bestj bestsize.
Proof.
  intros H. destruct besti as [|i']; [reflexivity|]. cbn [extend_left].
  destruct (Nat.ltb_spec alo (S i')) as [H1|_]; [|reflexivity].
  destruct (Nat.ltb_spec blo bestj) as [H2|_]; [|reflexivity].
  destruct (N.eqb_spec (nth i' a 0%N) (nth (bestj - 1) b 0%N)) as [H3|_];
    [|reflexivity].
  exfalso. apply H. split; [exact H1|]. split; [exact H2|].
  replace (S i' - 1) with i' by lia. exact H3.
Qed.

Lemma extend_right_stays (a b : str) (bhi besti bestj room bestsize : nat) :
  ~ (0 < room /\ bestj + bestsize < bhi
     /\ nth (besti + bestsize) a 0%N = nth (bestj + bestsize) b 0%N) ->
  extend_right a b bhi besti bestj room bestsize = bestsize.
Proof.
  intros H. destruct room as [|room]; [reflexivity|]. cbn [extend_right].
  destruct (Nat.ltb_spec (bestj + bestsize) bhi) as [H1|_]; [|reflexivity].
  destruct (N.eqb_spec (nth (besti + bestsize) a 0%N)
              (nth (bestj + bestsize) b 0%N)) as [H2|_]; [|reflexivity].
  exfalso. apply H. split; [lia|]. split; assumption.
Qed.

(** Where the second text has no popular character, [find_longest_match]
    returns the longest matching block of the region. *)
Lemma find_longest_match_longest (a b : str) (alo ahi blo bhi : nat) :
  inside a b (alo, ahi, blo, bhi) ->
  (forall c, popular b c = false) ->
  longest_block a b (alo, ahi, blo, bhi)
    (find_longest_match a b alo ahi blo bhi).
Proof.
  intros (Ha & Hb & Hla & Hlb) Hp.
  destruct (find_longest_match_spec a b Ha Hb) as [Hin Hcommon].
  assert (Hrows : first_longest a b alo blo bhi (seen ahi 0)
                    (match_rows a b blo bhi alo (ahi - alo) []
                       (mkMatch alo blo 0))).
  { replace ahi with (alo + (ahi - alo)) at 1 by lia.
    apply match_rows_complete; [exact Hlb | exact Hp | lia | |].
    - intros j. unfold run_above. destruct alo as [|alo']; [reflexivity|].
      symmetry. apply run_end_zero. left. lia.
    - split.
      + unfold seen. intros r j [H|[_ H]]; [|lia].
        rewrite run_end_zero; [lia | left; exact H].
      + left. repeat split; reflexivity. }
  unfold find_longest_match in *.
  set (best := match_rows a b blo bhi alo (ahi - alo) [] (mkMatch alo blo 0))
    in *.
  destruct Hrows as [M F].
  assert (EL : extend_left a b alo blo (match_a best) (match_b best)
                 (match_size best)
               = mkMatch (match_a best) (match_b best) (match_size best)).
  { apply extend_left_stays. intros (S1 & S2 & S3).
    destruct F as [(F1 & F2 & F3)|(r & j & C & P & E & A & B & T)]; [lia|].
    apply (@run_end_stop a b alo blo bhi r j (match_size best) E P).
    split; [lia|]. split; [lia|].
    replace (r - match_size best) with (match_a best - 1) by lia.
    replace (j - match_size best) with (match_b best - 1) by lia.
    exact S3. }
  rewrite EL in *. cbn [match_a match_b match_size] in *.
  assert (ER : extend_right a b bhi (match_a best) (match_b best)
                 (ahi - (match_a best + match_size best)) (match_size best)
               = match_size best).
  { apply extend_right_stays. intros (S1 & S2 & S3).
    destruct F as [(F1 & F2 & F3)|(r & j & C & P & E & A & B & T)].
    - rewrite F1, F2, F3, !Nat.add_0_r in *.
      assert (R : run_end a b alo blo bhi alo blo
                  = S (match alo with
                       | S r' =>
                           match blo with
                           | S j' => run_end a b alo blo bhi r' j'
                           | O => 0
                           end
                       | O => 0
                       end))
        by (apply run_end_cell; [lia | lia | lia | exact S3]).
      specialize (M alo blo). unfold seen in M. lia.
    - assert (Pos : 0 < run_end a b alo blo bhi r j) by lia.
      destruct (run_end_positive _ _ _ _ _ _ _ Pos) as (G1 & G2 & G3 & G4).
      replace (match_a best + match_size best) with (S r) in * by lia.
      replace (match_b best + match_size best) with (S j) in * by lia.
      assert (R : run_end a b alo blo bhi (S r) (S j)
                  = S (run_end a b alo blo bhi r j))
        by (apply run_end_cell; [lia | lia | lia | exact S3]).
      specialize (M (S r) (S j)). unfold seen in M. lia. }
  rewrite ER in *.
  split; [exact Hin|]. split; [exact Hcommon|].
  intros m' (I1 & I2 & I3 & I4) Hc'. cbn [match_a match_b match_size].
  destruct (Nat.eq_dec (match_size m') 0) as [Z|Z].
  { destruct F as [(F1 & F2 & F3)|(r & j & C & P & E & A & B & T)];
      [right; lia | left; lia]. }
  assert (K : match_size m'
              <= run_end a b alo blo bhi (match_a m' + match_size m' - 1)
                   (match_b m' + match_size m' - 1)).
  { apply run_end_block; [lia | lia | lia | lia | exact Hc']. }
  assert (Seen : seen ahi 0 (match_a m' + match_size m' - 1)
                   (match_b m' + match_size m' - 1))
    by (unfold seen; left; lia).
  pose proof (M _ _ Seen) as Mx.
  destruct (Nat.eq_dec (match_size m') (match_size best)) as [Eq|Ne];
    [|left; lia].
  right. split; [exact Eq|].
  destruct F as [(F1 & F2 & F3)|(r & j & C & P & E & A & B & T)]; [lia|].
  assert (Ex : run_end a b alo blo bhi (match_a m' + match_size m' - 1)
                 (match_b m' + match_size m' - 1) = match_size best) by lia.
  destruct (T _ _ Seen Ex) as [Lt|[E1 E2]]; lia.
Qed.

Lemma longest_block_unique (a b : str) (r : region) (m m' : Match) :
  longest_block a b r m -> longest_block a b r m' -> m = m'.
Proof.
  destruct r as [[[alo ahi] blo] bhi].
  intros (I & C & L) (I' & C' & L').
  specialize (L m' I' C'). specialize (L' m I C).
  destruct m as [x y k], m' as [x' y' k']. cbn [match_a match_b match_size] in *.
  assert (k = k') by lia. assert (x = x') by lia. assert (y = y') by lia.
  subst. reflexivity.
Qed.

(** The matching characters of a region are one number. *)
Lemma block_sum_unique (a b : str) (r : region) (n : nat) :
  block_sum a b r n -> forall n', block_sum a b r n' -> n = n'.
Proof.
  induction 1 as [alo ahi blo bhi m L Z
                 |alo ahi blo bhi m left right L P Hl IHl Hr IHr];
    intros n' H'; inversion H' as [? ? ? ? m' L' Z'
                                  |? ? ? ? m' left' right' L' P' Hl' Hr'];
    subst.
  - reflexivity.
  - pose proof (@longest_block_unique a b _ _ _ L L'). subst m'. lia.
  - pose proof (@longest_block_unique a b _ _ _ L L'). subst m'. lia.
  - pose proof (@longest_block_unique a b _ _ _ L L'). subst m'.
    rewrite (IHl _ Hl'), (IHr _ Hr'). reflexivity.
Qed.

(** A region with an empty side has no matching character. *)
Lemma block_sum_empty (a b : str) (alo ahi blo bhi : nat) :
  alo <= ahi -> blo <= bhi -> alo = ahi \/ blo = bhi ->
  block_sum a b (alo, ahi, blo, bhi) 0.
Proof.
  intros Ha Hb He.
  apply block_sum_none with (m := mkMatch alo blo 0); [|reflexivity].
  split; [unfold in_region; cbn; lia|]. split.
  - intros t Ht. cbn in Ht. lia.
  - intros m' (I1 & I2 & I3 & I4) _. cbn [match_a match_b match_size]. lia.
Qed.

Lemma list_sum_cons (n : nat) (l : list nat) :
  list_sum (n :: l) = n + list_sum l.
Proof. reflexivity. Qed.

(** The blocks the work list finds add up to the matching characters of
    the regions it was given. *)
Lemma blocks_loop_sum (a b : str) :
  (forall c, popular b c = false) ->
  forall fuel queue blocks found,
    blocks_loop fuel a b queue blocks = Some found ->
    Forall (inside a b) queue ->
    exists sums,
      Forall2 (block_sum a b) queue sums
      /\ sum_sizes found = sum_sizes blocks + list_sum sums.
Proof.
  intros Hp.
  assert (Base : forall blocks found,
             Some blocks = Some found ->
             exists sums,
               Forall2 (block_sum a b) [] sums
               /\ sum_sizes found = sum_sizes blocks + list_sum sums).
  { intros blocks found E. injection E as <-. exists [].
    split; [constructor | simpl; lia]. }
  induction fuel as [|fuel IH]; intros queue blocks found E Hq.
  - destruct queue as [|[[[alo ahi] blo] bhi] queue'];
      [apply Base; exact E | discriminate E].
  - destruct queue as [|[[[alo ahi] blo] bhi] queue'];
      [apply Base; exact E|].
    cbn [blocks_loop] in E. cbv zeta in E.
    inversion Hq as [|r q Hr Hq']; subst.
    pose proof (@find_longest_match_longest a b alo ahi blo bhi Hr Hp) as L.
    pose proof Hr as (Ha & Hb & Hla & Hlb).
    pose proof L as ((I1 & I2 & I3 & I4) & _).
    remember (find_longest_match a b alo ahi blo bhi) as x eqn:Hx.
    clear Hx.
    destruct (Nat.eqb_spec (match_size x) 0) as [Z|Z].
    + destruct (IH _ _ _ E Hq') as [sums [F S]].
      exists (0 :: sums). split; [|rewrite list_sum_cons; lia].
      constructor; [|exact F]. exact (@block_sum_none a b alo ahi blo bhi x L Z).
    + assert (P : 0 < match_size x) by lia.
      assert (InL : inside a b (alo, match_a x, blo, match_b x))
        by (unfold inside; lia).
      assert (InR : inside a b (match_a x + match_size x, ahi,
                                match_b x + match_size x, bhi))
        by (unfold inside; lia).
      destruct ((alo <? match_a x) && (blo <? match_b x)) eqn:C1;
        destruct ((match_a x + match_size x <? ahi)
                  && (match_b x + match_size x <? bhi)) eqn:C2.
      * destruct (IH _ _ _ E) as [sums [F S]];
          [constructor; [exact InR|]; constructor; [exact InL | exact Hq']|].
        inversion F as [|? right ? sums1 Hright F1]; subst.
        inversion F1 as [|? left ? sums2 Hleft F2]; subst.
        exists (left + match_size x + right :: sums2).
        split; [constructor; [|exact F2]|].
        { exact (@block_sum_split a b alo ahi blo bhi x _ _ L P Hleft Hright). }
        rewrite sum_sizes_app in S. rewrite !list_sum_cons in S.
        rewrite list_sum_cons. simpl in S. lia.
      * destruct (IH _ _ _ E) as [sums [F S]];
          [constructor; [exact InL | exact Hq']|].
        inversion F as [|? left ? sums1 Hleft F1]; subst.
        assert (Hright : block_sum a b
                           (match_a x + match_size x, ahi,
                            match_b x + match_size x, bhi) 0).
        { apply block_sum_empty; [lia | lia|].
          apply andb_false_iff in C2. destruct C2 as [C2|C2];
            apply Nat.ltb_ge in C2; lia. }
        exists (left + match_size x + 0 :: sums1).
        split; [constructor; [|exact F1]|].
        { exact (@block_sum_split a b alo ahi blo bhi x _ _ L P Hleft Hright). }
        rewrite sum_sizes_app in S. rewrite !list_sum_cons in S.
        rewrite list_sum_cons. simpl in S. lia.
      * destruct (IH _ _ _ E) as [sums [F S]];
          [constructor; [exact InR | exact Hq']|].
        inversion F as [|? right ? sums1 Hright F1]; subst.
        assert (Hleft : block_sum a b (alo, match_a x, blo, match_b x) 0).
        { apply block_sum_empty; [lia | lia|].
          apply andb_false_iff in C1. destruct C1 as [C1|C1];
            apply Nat.ltb_ge in C1; lia. }
        exists (0 + match_size x + right :: sums1).
        split; [constructor; [|exact F1]|].
        { exact (@block_sum_split a b alo ahi blo bhi x _ _ L P Hleft Hright). }
        rewrite sum_sizes_app in S. rewrite !list_sum_cons in S.
        rewrite list_sum_cons. simpl in S. lia.
      * destruct (IH _ _ _ E Hq') as [sums [F S]].
        assert (Hright : block_sum a b
                           (match_a x + match_size x, ahi,
                            match_b x + match_size x, bhi) 0).
        { apply block_sum_empty; [lia | lia|].
          apply andb_false_iff in C2. destruct C2 as [C2|C2];
            apply Nat.ltb_ge in C2; lia. }
        assert (Hleft : block_sum a b (alo, match_a x, blo, match_b x) 0).
        { apply block_sum_empty; [lia | lia|].
          apply andb_false_iff in C1. destruct C1 as [C1|C1];
            apply Nat.ltb_ge in C1; lia. }
        exists (0 + match_size x + 0 :: sums).
        split; [constructor; [|exact F]|].
        { exact (@block_sum_split a b alo ahi blo bhi x _ _ L P Hleft Hright). }
        rewrite sum_sizes_app in S. rewrite list_sum_cons. simpl in S. lia.
Qed.

(** Where the second text has no popular character, the characters the
    matcher counts are the matching characters of the two texts. *)
Lemma matches_block_sum (a b : str) :
  (forall c, popular b c = false) ->
  block_sum a b (0, List.length a, 0, List.length b) (matches a b).
Proof.
  intros Hp. unfold matches.
  destruct (matching_blocks_found a b) as [found [E _]]. rewrite E.
  unfold matching_blocks in E.
  destruct (@blocks_loop_sum a b Hp _ _ _ _ E) as [sums [F S]].
  { constructor; [unfold inside; lia | constructor]. }
  inversion F as [|? total ? rest Htotal Frest]; subst.
  inversion Frest; subst. cbn in S. replace (sum_sizes found) with total by lia.
  exact Htotal.
Qed.

(** A text shorter than 200 characters has no popular character. *)
Lemma short_text_has_no_popular (b : str) :
  List.length b < 200 -> forall c, popular b c = false.
Proof.
  intros H c. unfold popular.
  destruct (Nat.leb_spec 200 (List.length b)); [lia | reflexivity].
Qed.

(** ** The executor *)

Section Executor.

Context {python : Python}.

Lemma handle_exception_raises (e e' : exception) (result : exec_result) :
  handle_exception e result = Raises e' -> e' = e /\ is_Exception e = false.
Proof.
  unfold handle_exception, is_Exception.
  destruct (exc_kind_of e); try discriminate.
  intros H. injection H as <-. split; reflexivity.
Qed.

(** The only exception that leaves [execute] is one outside [Exception]
    that the executed code raised. *)
Lemma execute_raises (self : SafeCodeExecutor) (code : pyval) (w : world)
    e w' events :
  execute self code w = (Raises e, w', events) -> raised_by_code e.
Proof.
  unfold execute, finally_block, try_block. cbv zeta.
  destruct (invalid_code code); [discriminate|].
  destruct code as [| | | |text| |]; try discriminate.
  destruct (first_blocked self (lower text)); [discriminate|].
  cbn [att_result att_world att_events att_stdout att_stderr].
  match goal with
  | |- context [py_exec ?ns text ?w3] =>
      set (r := py_exec ns text w3); assert (Hr : r = py_exec ns text w3)
        by reflexivity
  end.
  destruct (run_ending r) as [| |e0] eqn:E; try discriminate.
  destruct (handle_exception e0 (mkResult [] [] false [])) eqn:H;
    [cbn beta iota; discriminate|].
  apply handle_exception_raises in H. destruct H as [-> H].
  intros X. injection X as <- _ _. split; [exact H|].
  rewrite Hr in E. eexists _, _. exact E.
Qed.

Lemma deny_list_nonempty (token : str) : In token deny_list -> token <> [].
Proof.
  unfold deny_list. simpl.
  intros H. repeat (destruct H as [<-|H]; [discriminate|]). destruct H.
Qed.

Lemma find_first (f : str -> bool) (l : list str) (x : str) :
  In x l -> f x = true -> exists y, find f l = Some y.
Proof.
  intros Hin Hf. destruct (find f l) as [y|] eqn:E; [exists y; reflexivity|].
  rewrite (find_none f l E x Hin) in Hf. discriminate Hf.
Qed.

(** C3: code that holds a deny-listed token, whatever the case of its
    letters, is rejected before anything runs: [execute] returns
    [success = False] with a message that names a deny-listed token found in
    the code, [output] and [errors] are empty, no [exec] takes place, and
    neither the alarm handler nor the memory limit nor the streams are
    touched. *)
Theorem blocked_code_is_rejected (timeout memory_limit : N)
    (code token : str) (w : world) :
  In token deny_list ->
  (exists l r, lower code = l ++ token ++ r) ->
  exists blocked w',
    execute (SafeCodeExecutor_init timeout memory_limit) (PStr code) w
    = (Returns (mkResult [] [] false
                  (lit "Blocked operation detected: " ++ blocked)),
       w', [])
    /\ In blocked deny_list
    /\ contains blocked (lower code) = true
    /\ sys_stdout w' = sys_stdout w /\ sys_stderr w' = sys_stderr w
    /\ sigalrm w' = sigalrm w /\ rlimit_as w' = rlimit_as w.
Proof.
  intros Hin Hsub.
  assert (Hc : contains token (lower code) = true)
    by (apply contains_spec; exact Hsub).
  assert (Hne : code <> []).
  { destruct Hsub as [l [r E]]. apply lower_nonempty. rewrite E.
    pose proof (deny_list_nonempty Hin).
    destruct l; [destruct token; [congruence | discriminate] | discriminate]. }
  assert (Hin' : In token (set_order deny_list)).
  { eapply Permutation_in; [|exact Hin].
    apply Permutation_sym, set_order_visits. }
  destruct (find_first (fun b => contains b (lower code)) _ _ Hin' Hc)
    as [blocked Hf].
  pose proof (find_some _ _ Hf) as [Hb1 Hb2].
  exists blocked. eexists. split; [|split; [|split]].
  - unfold execute, finally_block, try_block. cbv zeta.
    destruct code as [|c code]; [congruence|].
    cbn [invalid_code]. unfold first_blocked.
    cbn [blocked_modules SafeCodeExecutor_init].
    rewrite Hf.
    cbn [att_result att_world att_events att_stdout att_stderr
         with_message success message].
    reflexivity.
  - eapply Permutation_in; [apply set_order_visits | exact Hb1].
  - exact Hb2.
  - unfold cancel_alarm, signal_alarm. destruct w as [o e a h m rl].
    destruct a; repeat split; reflexivity.
Qed.


End Executor.

(** ** The comparator *)

Section Comparator.

Context {python : Python}.

Lemma preview_shape (text : str) :
  exists shown,
    shown = firstn 200 text
    /\ List.length shown <= 200
    /\ preview text
       = shown ++ (if 200 <? List.length text then lit "..." else [])
    /\ List.length (preview text) <= 203.
Proof.
  exists (firstn 200 text). split; [reflexivity|].
  pose proof (firstn_le_length 200 text) as Hle.
  split; [exact Hle|].
  unfold preview. destruct (Nat.ltb_spec 200 (List.length text)) as [H|H].
  - split; [reflexivity|]. rewrite length_app.
    change (List.length (lit "...")) with 3. lia.
  - rewrite app_nil_r. split.
    + symmetry. apply firstn_all2. exact H.
    + lia.
Qed.

(** C4: in exact mode both texts are trimmed: what is compared is each
    text without the white space at its beginning and at its end, and there
    is one such text for each.  [match] is true exactly when the trimmed
    texts are equal, [similarity] is 1.0 on a match and 0.0 otherwise;
    comparing a text with itself matches. *)
Theorem exact_comparison (actual expected : str) :
  exists comparison matched,
    _compare_outputs actual (PStr expected) (PStr (lit "exact"))
    = Returns comparison
    /\ dict_get k_match comparison = Some (PBool matched)
    /\ (matched = true <-> strip actual = strip expected)
    /\ dict_get k_similarity comparison
       = Some (real (if matched then 1 else 0))
    /\ (actual = expected -> matched = true)
    /\ trimmed actual (strip actual)
    /\ trimmed expected (strip expected)
    /\ (forall a e,
          trimmed actual a -> trimmed expected e ->
          (matched = true <-> a = e)).
Proof.
  unfold _compare_outputs. cbn [strip_method].
  replace (eq_str (PStr (lit "exact")) (lit "exact")) with true
    by reflexivity.
  cbv zeta.
  pose proof (strip_spec actual) as Ha.
  pose proof (strip_spec expected) as He.
  destruct (str_eqb (strip actual) (strip expected)) eqn:M.
  - eexists. exists true. split; [reflexivity|].
    split; [reflexivity|]. split.
    { split; [intros _; apply str_eqb_eq; exact M | reflexivity]. }
    split; [reflexivity|]. split; [reflexivity|].
    split; [exact Ha|]. split; [exact He|].
    intros a e Ta Te. apply strip_trimmed in Ta, Te. subst a e.
    split; [intros _; apply str_eqb_eq; exact M | reflexivity].
  - eexists. exists false. split; [reflexivity|].
    split; [reflexivity|]. split.
    { split; [discriminate|]. intros E. apply str_eqb_eq in E. congruence. }
    split; [reflexivity|]. split.
    { intros ->. rewrite str_eqb_refl in M. discriminate M. }
    split; [exact Ha|]. split; [exact He|].
    intros a e Ta Te. apply strip_trimmed in Ta, Te. subst a e.
    split; [discriminate|]. intros E. apply str_eqb_eq in E. congruence.
Qed.

(** Corrected C5: in fuzzy mode [similarity] is the ratio of
    [SequenceMatcher] on the two trimmed texts, a number between 0 and 1,
    and [match] is true exactly when it is at least 0.8.  Where the
    trimmed expected text has no popular character, as is the case of
    every text shorter than 200 characters, that ratio is the
    longest-matching-block ratio: twice the number of matching characters
    over the sum of the two lengths (1 when both are empty), the matching
    characters being those of the longest matching block of the two texts
    and of what lies to its left and to its right; there is one such
    number. *)
Theorem fuzzy_comparison (actual expected : str) :
  let a := strip actual in
  let b := strip expected in
  exists comparison matched,
    _compare_outputs actual (PStr expected) (PStr (lit "fuzzy"))
    = Returns comparison
    /\ dict_get k_similarity comparison = Some (real (ratio a b))
    /\ (0 <= ratio a b /\ ratio a b <= 1)%Q
    /\ dict_get k_match comparison = Some (PBool matched)
    /\ (matched = true <-> (8 # 10 <= ratio a b)%Q)
    /\ trimmed actual a /\ trimmed expected b
    /\ ((forall c, popular b c = false) ->
        exists total,
          block_sum a b (0, List.length a, 0, List.length b) total
          /\ (forall total',
                block_sum a b (0, List.length a, 0, List.length b) total' ->
                total' = total)
          /\ ratio a b
             = calculate_ratio total (List.length a + List.length b))
    /\ (List.length b < 200 -> forall c, popular b c = false).
Proof.
  intros a b. unfold _compare_outputs. cbn [strip_method].
  replace (eq_str (PStr (lit "fuzzy")) (lit "exact")) with false
    by reflexivity.
  replace (eq_str (PStr (lit "fuzzy")) (lit "fuzzy")) with true
    by reflexivity.
  cbv zeta. fold a. fold b.
  pose proof (ratio_bounds a b) as Hb.
  assert (Hsum : (forall c, popular b c = false) ->
                 exists total,
                   block_sum a b (0, List.length a, 0, List.length b) total
                   /\ (forall total',
                         block_sum a b (0, List.length a, 0, List.length b)
                           total' ->
                         total' = total)
                   /\ ratio a b
                      = calculate_ratio total
                          (List.length a + List.length b)).
  { intros Hp. exists (matches a b).
    pose proof (@matches_block_sum a b Hp) as S.
    split; [exact S|]. split; [|reflexivity].
    intros total' S'. exact (@block_sum_unique a b _ _ S' _ S). }
  pose proof (strip_spec actual) as Ta.
  pose proof (strip_spec expected) as Te.
  pose proof (@short_text_has_no_popular b) as Hshort.
  destruct (Qle_bool (8 # 10) (ratio a b)) eqn:M.
  - eexists. exists true. split; [reflexivity|].
    split; [reflexivity|]. split; [exact Hb|]. split; [reflexivity|].
    split; [split; [intros _; apply Qle_bool_iff; exact M | reflexivity]|].
    split; [exact Ta|]. split; [exact Te|]. split; [exact Hsum|].
    exact Hshort.
  - eexists. exists false. split; [reflexivity|].
    split; [reflexivity|]. split; [exact Hb|]. split; [reflexivity|].
    split.
    { split; [discriminate|]. intros H. apply Qle_bool_iff in H.
      congruence. }
    split; [exact Ta|]. split; [exact Te|]. split; [exact Hsum|].
    exact Hshort.
Qed.

(** Corrected C6: when exact mode finds no match, [details] shows the
    expected and the actual text, each cut to its first 200 characters at
    most and followed by three dots when it was cut, so that a preview has
    up to 203 characters; it ends with the similarity of the two trimmed
    texts as a percentage with one decimal, computed in binary64 as the
    code computes it. *)
Theorem mismatch_details (actual expected : str) :
  strip actual <> strip expected ->
  exists comparison,
    _compare_outputs actual (PStr expected) (PStr (lit "exact"))
    = Returns comparison
    /\ dict_get k_details comparison
       = Some (PStr (cross_mark ++ lit " Output does not match!"
                       ++ newline ++ newline
                       ++ lit "Expected:" ++ newline
                       ++ preview (strip expected) ++ newline ++ newline
                       ++ lit "Got:" ++ newline
                       ++ preview (strip actual) ++ newline ++ newline
                       ++ lit "Similarity: "
                       ++ format_1f (percentage (strip actual)
                                       (strip expected))
                       ++ lit "%"))
    /\ forall text,
         exists shown,
           shown = firstn 200 text
           /\ List.length shown <= 200
           /\ preview text
              = shown ++ (if 200 <? List.length text then lit "..." else [])
           /\ List.length (preview text) <= 203.
Proof.
  intros Hne. unfold _compare_outputs. cbn [strip_method].
  replace (eq_str (PStr (lit "exact")) (lit "exact")) with true
    by reflexivity.
  cbv zeta.
  destruct (str_eqb (strip actual) (strip expected)) eqn:M.
  { apply str_eqb_eq in M. contradiction. }
  eexists. split; [reflexivity|]. split; [|exact preview_shape].
  change (dict_get k_details _)
    with (Some (PStr (_create_diff_message (strip actual) (strip expected)))).
  unfold _create_diff_message. cbv zeta.
  repeat rewrite <- app_assoc. reflexivity.
Qed.

End Comparator.

(** ** The facade *)

Section Facade.

Context {python : Python}.

Lemma execute_not_compared (self : SafeCodeExecutor) (code : pyval)
    (w : world) :
  compared (snd (execute self code w)) = false.
Proof.
  unfold execute, finally_block, try_block. cbv zeta.
  destruct (invalid_code code); [reflexivity|].
  destruct code as [| | | |text| |]; try reflexivity.
  destruct (first_blocked self (lower text)); reflexivity.
Qed.



Lemma compared_app (e1 e2 : trace) :
  compared (e1 ++ e2) = compared e1 || compared e2.
Proof. apply existsb_app. Qed.

Lemma compare_outputs_raises (actual : str) (expected mode : pyval) e :
  _compare_outputs actual expected mode = Raises e ->
  is_str expected = false /\ e = AttributeError expected (lit "strip").
Proof.
  unfold _compare_outputs. cbv zeta.
  destruct expected; cbn [strip_method];
    try (intros H; injection H as <-; split; reflexivity).
  repeat match goal with
         | |- context [if ?b then _ else _] => destruct b
         end; discriminate.
Qed.

Lemma py_len_raises (v : pyval) e :
  py_len v = Raises e -> is_Exception e = true.
Proof.
  destruct v; simpl; try discriminate; intros H; injection H as <-;
    reflexivity.
Qed.

(** The facade on a request object whose code has a length, case by case:
    the progress line cannot be written; [execute] raises; the execution
    is not compared; the comparator fails; the comparator returns. *)
Lemma structured_cases (self : CodeExecutorTool) (input_data : str)
    (d : dict) (n : nat) (w : world) :
  json_loads input_data = Decoded (PDict d) ->
  py_len (get_default d k_code (PStr [])) = Returns n ->
  let code := get_default d k_code (PStr []) in
  let expected := get_default d k_expected_output PNone in
  let mode := get_default d k_compare_mode (PStr (lit "exact")) in
  let line := wrench_mark ++ lit " Executing code (" ++ str_of_nat n
                ++ lit " chars)..." in
  let record (r : exec_result) : dict :=
    [(k_code, code);
     (k_execution_success, PBool (success r));
     (k_output, PStr (output r));
     (k_errors, PStr (errors r));
     (k_message, PStr (message r));
     (k_expected_output, expected);
     (k_comparison, PNone)] in
  match py_print (sys_stdout w) line with
  | Some e =>
      execute_and_compare self input_data w
      = (if is_Exception e then Returns (tool_error e) else Raises e, w, [])
  | None =>
      match execute (executor self) code w with
      | (Raises e, w', events) =>
          execute_and_compare self input_data w
          = (Raises e, w', Print line :: events)
      | (Returns r, w', events) =>
          if is_not_None expected && success r then
            match _compare_outputs (output r) expected mode with
            | Raises e =>
                execute_and_compare self input_data w
                = (Returns (tool_error e), w',
                   Print line :: events ++ [Compare (output r) expected mode])
            | Returns comparison =>
                execute_and_compare self input_data w
                = (Returns (dict_set k_comparison (PDict comparison)
                              (record r)),
                   w',
                   Print line :: events ++ [Compare (output r) expected mode])
            end
          else
            execute_and_compare self input_data w
            = (Returns (record r), w', Print line :: events)
      end
  end.
Proof.
  intros Hj L. cbv zeta.
  unfold execute_and_compare. rewrite Hj.
  unfold structured_request. rewrite L. cbv zeta.
  destruct (py_print (sys_stdout w) _) as [e|].
  { destruct (is_Exception e); reflexivity. }
  destruct (execute (executor self) (get_default d k_code (PStr [])) w)
    as [[[r|e] w'] events] eqn:X.
  - destruct (is_not_None (get_default d k_expected_output PNone)
              && success r).
    + destruct (_compare_outputs (output r)
                  (get_default d k_expected_output PNone)
                  (get_default d k_compare_mode (PStr (lit "exact"))))
        as [c|e] eqn:C; [reflexivity|].
      apply compare_outputs_raises in C. destruct C as [_ ->].
      reflexivity.
    + reflexivity.
  - destruct (execute_raises X) as [Ie _]. rewrite Ie. reflexivity.
Qed.

(** The facade on input that is JSON but no request object with a code
    that has a length: the tool-error record, before anything is printed
    or run. *)
Lemma unstructured_cases (self : CodeExecutorTool) (input_data : str)
    (data : pyval) (w : world) :
  json_loads input_data = Decoded data ->
  submission input_data = None ->
  exists e,
    execute_and_compare self input_data w = (Returns (tool_error e), w, []).
Proof.
  intros Hj Hs. unfold submission in Hs. rewrite Hj in Hs.
  unfold execute_and_compare. rewrite Hj. unfold structured_request.
  destruct data as [| | | | | |d]; try (eexists; reflexivity).
  destruct (py_len (get_default d k_code (PStr []))) as [n|e] eqn:L;
    [discriminate Hs|].
  rewrite (py_len_raises _ L). eexists; reflexivity.
Qed.

(** The facade on input that is not JSON. *)
Lemma simple_cases (self : CodeExecutorTool) (input_data : str) (w : world) :
  json_loads input_data = JSONDecodeError ->
  let line := wrench_mark ++ lit " Executing code (simple mode)..." in
  execute_and_compare self input_data w = execute_simple self input_data w
  /\ match py_print (sys_stdout w) line with
     | Some e => execute_simple self input_data w = (Raises e, w, [])
     | None =>
         match execute (executor self) (PStr input_data) w with
         | (Raises e, w', events) =>
             execute_simple self input_data w
             = (Raises e, w', Print line :: events)
         | (Returns r, w', events) =>
             execute_simple self input_data w
             = (Returns [(k_code, PStr input_data);
                         (k_execution_success, PBool (success r));
                         (k_output, PStr (output r));
                         (k_errors, PStr (errors r));
                         (k_message, PStr (message r))],
                w', Print line :: events)
         end
     end.
Proof.
  intros Hj. cbv zeta. unfold execute_and_compare. rewrite Hj.
  split; [reflexivity|]. unfold execute_simple. cbv zeta.
  destruct (py_print (sys_stdout w) _); [reflexivity|].
  destruct (execute (executor self) (PStr input_data) w)
    as [[[r|e] w'] events]; reflexivity.
Qed.

Lemma tool_error_no_comparison (e : exception) :
  comparison_of (tool_error e) = PNone.
Proof. reflexivity. Qed.

(** Corrected C7: the comparator is called exactly when the request gave
    an expected output and the execution the facade made succeeded.  The
    [comparison] of the returned result is set exactly when, moreover, the
    expected output is a string; it is then a dictionary.  When the
    expected output is something else, the comparator fails on it and the
    result is the tool-error record, without a comparison.  When no
    expected output was given or the execution did not succeed,
    [comparison] is null and the comparator was not called. *)
Theorem comparison_iff_expected_and_success (self : CodeExecutorTool)
    (input_data : str) (w : world) :
  match execute_and_compare self input_data w with
  | (res, _, events) =>
      (compared events = true
       <-> expected_of input_data <> PNone
           /\ execution_succeeded self input_data w = true)
      /\ match res with
         | Returns result =>
             (comparison_of result <> PNone
              <-> is_str (expected_of input_data) = true
                  /\ execution_succeeded self input_data w = true)
             /\ (comparison_of result <> PNone ->
                 exists comparison, comparison_of result = PDict comparison)
             /\ (compared events = true ->
                 is_str (expected_of input_data) = false ->
                 result
                 = tool_error (AttributeError (expected_of input_data)
                                 (lit "strip")))
             /\ (expected_of input_data = PNone
                 \/ execution_succeeded self input_data w = false ->
                 comparison_of result = PNone /\ compared events = false)
         | Raises e => compared events = false
         end
  end.
Proof.
  unfold execution_succeeded, expected_of.
  destruct (json_loads input_data) as [data|] eqn:Hj.
  - destruct (submission input_data) as [[code line]|] eqn:Hs.
    2:{ destruct (@unstructured_cases self _ _ w Hj Hs) as [e E].
        rewrite E. cbn [compared existsb].
        split; [split; [discriminate | intros [_ H]; discriminate H]|].
        rewrite tool_error_no_comparison.
        split; [split; [congruence | intros [_ H]; discriminate H]|].
        split; [congruence|]. split; [discriminate|].
        intros _; split; reflexivity. }
    unfold submission in Hs. rewrite Hj in Hs.
    destruct data as [| | | | | |d]; try discriminate Hs.
    destruct (py_len (get_default d k_code (PStr []))) as [n|e0] eqn:L;
      [|discriminate Hs].
    injection Hs as <- <-.
    pose proof (@structured_cases self _ _ _ w Hj L) as H. cbv zeta in H.
    pose proof (execute_not_compared (executor self)
                  (get_default d k_code (PStr [])) w) as Hnc.
    destruct (py_print (sys_stdout w) _) as [e|].
    { rewrite H. cbn [compared existsb].
      split; [split; [discriminate | intros [_ X]; discriminate X]|].
      destruct (is_Exception e); [|reflexivity].
      rewrite tool_error_no_comparison.
      split; [split; [congruence | intros [_ X]; discriminate X]|].
      split; [congruence|]. split; [discriminate|].
      intros _; split; reflexivity. }
    destruct (execute (executor self) (get_default d k_code (PStr [])) w)
      as [[[r|e] w'] events] eqn:X; cbn [snd] in Hnc.
    2:{ rewrite H.
        assert (C : compared (Print (wrench_mark ++ lit " Executing code ("
                                       ++ str_of_nat n ++ lit " chars)...")
                                :: events) = false) by exact Hnc.
        rewrite C.
        split; [split; [discriminate | intros [_ Y]; discriminate Y]|].
        reflexivity. }
    set (expected := get_default d k_expected_output PNone) in *.
    set (mode := get_default d k_compare_mode (PStr (lit "exact"))) in *.
    set (line := wrench_mark ++ lit " Executing code (" ++ str_of_nat n
                   ++ lit " chars)...") in *.
    assert (Cyes : compared (Print line :: events
                               ++ [Compare (output r) expected mode]) = true).
    { change (Print line :: events ++ ?x) with ((Print line :: events) ++ x).
      rewrite compared_app. apply orb_true_r. }
    assert (Cno : compared (Print line :: events) = false) by exact Hnc.
    destruct (is_not_None expected && success r) eqn:G.
    + apply andb_true_iff in G. destruct G as [G1 G2].
      assert (Hex : expected <> PNone)
        by (intros E; rewrite E in G1; discriminate G1).
      destruct (_compare_outputs (output r) expected mode) as [c|e] eqn:C.
      * rewrite H, Cyes.
        assert (Hstr : is_str expected = true).
        { destruct expected; try reflexivity;
            cbn in C; try discriminate C. }
        split; [split; [intros _; split; assumption | reflexivity]|].
        change (comparison_of _) with (PDict c).
        split; [split; [intros _; split; assumption | discriminate]|].
        split; [intros _; exists c; reflexivity|].
        split; [intros _ Y; congruence|].
        intros [E|E]; [contradiction | congruence].
      * destruct (compare_outputs_raises _ _ _ C) as [Hstr ->].
        rewrite H, Cyes, tool_error_no_comparison.
        split; [split; [intros _; split; assumption | reflexivity]|].
        split; [split; [congruence | intros [Y _]; congruence]|].
        split; [congruence|]. split; [reflexivity|].
        intros [E|E]; [contradiction | congruence].
    + rewrite H, Cno.
      assert (Hnot : ~ (expected <> PNone /\ success r = true)).
      { intros [E1 E2]. rewrite E2, andb_true_r in G.
        destruct expected; try discriminate G. congruence. }
      split; [split; [discriminate | intros Y; contradiction]|].
      change (comparison_of _) with PNone.
      split.
      { split; [congruence|]. intros [Y1 Y2]. exfalso. apply Hnot.
        split; [|exact Y2]. intros E. rewrite E in Y1. discriminate Y1. }
      split; [congruence|]. split; [discriminate|].
      intros _; split; reflexivity.
  - destruct (@simple_cases self _ w Hj) as [E S]. cbv zeta in S.
    unfold submission. rewrite Hj, E.
    pose proof (execute_not_compared (executor self) (PStr input_data) w)
      as Hnc.
    destruct (py_print (sys_stdout w) _) as [e|].
    { rewrite S. cbn [compared existsb].
      split; [split; [discriminate | intros [Y _]; congruence]|].
      reflexivity. }
    destruct (execute (executor self) (PStr input_data) w)
      as [[[r|e] w'] events] eqn:X; cbn [snd] in Hnc; rewrite S.
    + assert (C : compared (Print (wrench_mark
                                     ++ lit " Executing code (simple mode)...")
                              :: events) = false) by exact Hnc.
      rewrite C.
      split; [split; [discriminate | intros [Y _]; congruence]|].
      change (comparison_of _) with PNone.
      split; [split; [congruence | intros [Y _]; discriminate Y]|].
      split; [congruence|]. split; [discriminate|].
      intros _; split; reflexivity.
    + assert (C : compared (Print (wrench_mark
                                     ++ lit " Executing code (simple mode)...")
                              :: events) = false) by exact Hnc.
      rewrite C.
      split; [split; [discriminate | intros [Y _]; congruence]|].
      reflexivity.
Qed.






End Facade.

(** ** The restricted environment *)




(** ** The program on concrete inputs *)




Lemma nth_repeat_app (x d : char) (n : nat) (l : str) :
  forall t, t < n -> nth t (repeat x n ++ l) d = x.
Proof.
  induction n as [|n IH]; intros t Ht; [lia|].
  destruct t as [|t]; [reflexivity|]. simpl. apply IH. lia.
Qed.

(** C5 as stated fails on long texts: [b] followed by 200 times [a]
    against 200 times [a] followed by [c].  The two share a block of 200
    characters, so that every count of matching characters by longest
    matching blocks is 200 or more and the ratio 0.995 or more; the code
    gives the similarity 0 and no match, because the expected text is 200
    characters or longer and [a] is popular in it. *)
Lemma long_texts_with_a_common_block_do_not_match :
  let a := lit "b" ++ repeat 97%N 200 in
  let b := repeat 97%N 200 ++ lit "c" in
  strip a = a /\ strip b = b
  /\ (exists comparison similarity,
        @_compare_outputs silent a (PStr b) (PStr (lit "fuzzy"))
        = Returns comparison
        /\ dict_get k_similarity comparison = Some (real similarity)
        /\ (similarity == 0)%Q
        /\ dict_get k_match comparison = Some (PBool false))
  /\ in_region 0 (List.length a) 0 (List.length b) (mkMatch 1 0 200)
  /\ common_block a b (mkMatch 1 0 200)
  /\ (forall total,
        block_sum a b (0, List.length a, 0, List.length b) total ->
        200 <= total)
  /\ (8 # 10 <= calculate_ratio 200 (List.length a + List.length b))%Q
  /\ popular b 97%N = true.
Proof.
  cbv zeta.
  assert (C : common_block (lit "b" ++ repeat 97%N 200)
                (repeat 97%N 200 ++ lit "c") (mkMatch 1 0 200)).
  { intros t Ht. cbn [match_a match_b match_size] in *.
    change (nth (1 + t) (lit "b" ++ repeat 97%N 200) 0%N)
      with (nth t (repeat 97%N 200 ++ []) 0%N).
    rewrite !nth_repeat_app by exact Ht. reflexivity. }
  assert (I : in_region 0 (List.length (lit "b" ++ repeat 97%N 200)) 0
                (List.length (repeat 97%N 200 ++ lit "c")) (mkMatch 1 0 200)).
  { unfold in_region. rewrite !length_app, repeat_length. cbn. lia. }
  split; [vm_compute; reflexivity|]. split; [vm_compute; reflexivity|].
  split.
  { eexists _, _. split; [vm_compute; reflexivity|].
    split; [reflexivity|]. split; reflexivity. }
  split; [exact I|]. split; [exact C|]. split.
  { intros total H.
    inversion H as [? ? ? ? m L Z|? ? ? ? m left right L P Hl Hr]; subst.
    - destruct L as (_ & _ & L). specialize (L _ I C).
      cbn [match_size] in L. lia.
    - destruct L as (_ & _ & L). specialize (L _ I C).
      cbn [match_size] in L. lia. }
  split; [vm_compute; discriminate | vm_compute; reflexivity].
Qed.

(** C6 as stated fails on a text of 201 characters: the preview the
    details show is its first 200 characters followed by three dots, 203
    characters in all. *)
Lemma preview_of_a_long_text_has_203_characters :
  let actual := repeat 97%N 201 in
  strip actual <> strip (lit "b")
  /\ preview (strip actual) = repeat 97%N 200 ++ lit "..."
  /\ List.length (preview (strip actual)) = 203
  /\ exists comparison,
       @_compare_outputs silent actual (PStr (lit "b")) (PStr (lit "exact"))
       = Returns comparison
       /\ dict_get k_details comparison
          = Some (PStr (cross_mark ++ lit " Output does not match!"
                          ++ newline ++ newline
                          ++ lit "Expected:" ++ newline ++ lit "b"
                          ++ newline ++ newline
                          ++ lit "Got:" ++ newline
                          ++ repeat 97%N 200 ++ lit "..."
                          ++ newline ++ newline
                          ++ lit "Similarity: 0.0%")).
Proof.
  cbv zeta. split; [vm_compute; discriminate|].
  split; [vm_compute; reflexivity|]. split; [vm_compute; reflexivity|].
  eexists. split; vm_compute; reflexivity.
Qed.

(** The percentage of the details is the binary64 product the code
    formats: for 23 times [a] followed by 57 times [x] against 23 times
    [a] followed by 57 times [y] the similarity is 46/160, its hundredfold
    is 28.75 as a fraction and 28.749999999999996 in binary64, and the
    details say 28.7. *)
Lemma percentage_is_computed_in_binary64 :
  let actual := repeat 97%N 23 ++ repeat 120%N 57 in
  let expected := repeat 97%N 23 ++ repeat 121%N 57 in
  (ratio actual expected == 46 # 160)%Q
  /\ (ratio actual expected * 100 == 2875 # 100)%Q
  /\ (percentage actual expected < 2875 # 100)%Q
  /\ format_1f (percentage actual expected) = lit "28.7"
  /\ exists comparison,
       @_compare_outputs silent actual (PStr expected) (PStr (lit "exact"))
       = Returns comparison
       /\ dict_get k_details comparison
          = Some (PStr (cross_mark ++ lit " Output does not match!"
                          ++ newline ++ newline
                          ++ lit "Expected:" ++ newline ++ expected
                          ++ newline ++ newline
                          ++ lit "Got:" ++ newline ++ actual
                          ++ newline ++ newline
                          ++ lit "Similarity: 28.7%")).
Proof.
  cbv zeta. split; [vm_compute; reflexivity|].
  split; [vm_compute; reflexivity|]. split; [vm_compute; reflexivity|].
  split; [vm_compute; reflexivity|].
  eexists. split; vm_compute; reflexivity.
Qed.

(** C7 as stated fails on the request
    [{"code": "print('hi')", "expected_output": 5}], in a runtime where
    the run prints hi: an expected output was supplied and the execution
    succeeded, the comparator was called, and yet the result the facade
    returns is the tool-error record, which has no comparison. *)
Lemma expected_output_5_gets_no_comparison :
  expected_of request_expected_5 = PInt 5
  /\ @execution_succeeded (printing "hi") (the_tool (printing "hi"))
       request_expected_5 fresh_world = true
  /\ exists w' events,
       @execute_and_compare (printing "hi") (the_tool (printing "hi"))
         request_expected_5 fresh_world
       = (Returns [(k_success, PBool false);
                   (k_error,
                    PStr (lit "Tool error: 'int' object has no attribute 'strip'"))],
          w', events)
       /\ comparison_of [(k_success, PBool false);
                         (k_error,
                          PStr (lit "Tool error: 'int' object has no attribute 'strip'"))]
          = PNone
       /\ events
          = [Print (wrench_mark ++ lit " Executing code (11 chars)...");
             Exec (lit "print('hi')");
             Compare (lit "hi" ++ newline) (PInt 5) (PStr (lit "exact"))]
       /\ compared events = true.
Proof.
  split; [vm_compute; reflexivity|]. split; [vm_compute; reflexivity|].
  eexists _, _. split; [vm_compute; reflexivity|].
  split; [vm_compute; reflexivity|]. split; reflexivity.
Qed.



(** The code [import OS] holds the token [os]. *)
Lemma blocked_code_is_rejected_witness :
  In (lit "os") deny_list
  /\ (exists l r, lower (lit "import OS") = l ++ lit "os" ++ r)
  /\ exists blocked w',
       @execute silent (@SafeCodeExecutor_init silent 5 50)
         (PStr (lit "import OS")) fresh_world
       = (Returns (mkResult [] [] false
                     (lit "Blocked operation detected: " ++ blocked)),
          w', [])
       /\ In blocked deny_list
       /\ contains blocked (lower (lit "import OS")) = true
       /\ sys_stdout w' = sys_stdout fresh_world
       /\ sys_stderr w' = sys_stderr fresh_world
       /\ sigalrm w' = sigalrm fresh_world
       /\ rlimit_as w' = rlimit_as fresh_world.
Proof.
  assert (H1 : In (lit "os") deny_list) by (left; reflexivity).
  assert (H2 : exists l r, lower (lit "import OS") = l ++ lit "os" ++ r)
    by (exists (lit "import "), []; reflexivity).
  split; [exact H1|]. split; [exact H2|].
  exact (@blocked_code_is_rejected silent 5 50 (lit "import OS") (lit "os")
           fresh_world H1 H2).
Defined.

(** The output [hello] against the expected [hallo]: four matching
    characters of ten, similarity 0.8, a match. *)
Lemma fuzzy_comparison_witness :
  exists comparison total,
    @_compare_outputs silent (lit "hello" ++ newline) (PStr (lit "hallo"))
      (PStr (lit "fuzzy"))
    = Returns comparison
    /\ dict_get k_similarity comparison = Some (real (8 # 10))
    /\ dict_get k_match comparison = Some (PBool true)
    /\ block_sum (lit "hello") (lit "hallo") (0, 5, 0, 5) total
    /\ total = 4.
Proof.
  destruct (@fuzzy_comparison silent (lit "hello" ++ newline) (lit "hallo"))
    as (comparison & matched & E & S & _ & M & I & _ & _ & Hsum & Hshort).
  change (strip (lit "hello" ++ newline)) with (lit "hello") in *.
  change (strip (lit "hallo")) with (lit "hallo") in *.
  assert (L : List.length (lit "hallo") < 200) by (cbn; lia).
  destruct (Hsum (Hshort L)) as (total & B & _ & R).
  assert (R0 : ratio (lit "hello") (lit "hallo") = (8 # 10)%Q)
    by (vm_compute; reflexivity).
  rewrite R0 in S, I, R.
  assert (T : total = 4).
  { change (List.length (lit "hello") + List.length (lit "hallo")) with 10
      in R.
    unfold calculate_ratio in R. injection R as R. lia. }
  exists comparison, total. split; [exact E|]. split; [exact S|].
  split; [|split; [exact B | exact T]].
  rewrite M. f_equal. f_equal. apply I. unfold Qle. cbn. lia.
Defined.

(** The output [hi] against the expected [ho]. *)
Lemma mismatch_details_witness :
  strip (lit "hi" ++ newline) <> strip (lit "ho")
  /\ exists comparison,
       @_compare_outputs silent (lit "hi" ++ newline) (PStr (lit "ho"))
         (PStr (lit "exact"))
       = Returns comparison
       /\ dict_get k_details comparison
          = Some (PStr (cross_mark ++ lit " Output does not match!"
                          ++ newline ++ newline
                          ++ lit "Expected:" ++ newline ++ lit "ho"
                          ++ newline ++ newline
                          ++ lit "Got:" ++ newline ++ lit "hi"
                          ++ newline ++ newline
                          ++ lit "Similarity: 50.0%")).
Proof.
  assert (H : strip (lit "hi" ++ newline) <> strip (lit "ho"))
    by (vm_compute; discriminate).
  split; [exact H|].
  destruct (@mismatch_details silent (lit "hi" ++ newline) (lit "ho") H)
    as [comparison [E [D _]]].
  exists comparison. split; [exact E|].
  rewrite D. vm_compute. reflexivity.
Defined.



(* ================================================================== *)
(** * Part III: further properties of the code *)
(* ================================================================== *)

(** ** The executor *)

Section ExecutorMore.

Context {python : Python}.

Lemma first_blocked_none (timeout memory_limit : N) (code : str) :
  first_blocked (SafeCodeExecutor_init timeout memory_limit) (lower code)
  = None
  <-> forall token, In token deny_list ->
                    contains token (lower code) = false.
Proof.
  unfold first_blocked. cbn [blocked_modules SafeCodeExecutor_init]. split.
  - intros H token Hin. apply (find_none _ _ H).
    eapply Permutation_in; [|exact Hin].
    apply Permutation_sym, set_order_visits.
  - intros H.
    destruct (find (fun blocked => contains blocked (lower code))
                (set_order deny_list)) as [b|] eqn:F; [|reflexivity].
    apply find_some in F. destruct F as [F1 F2].
    rewrite H in F2; [discriminate F2|].
    eapply Permutation_in; [apply set_order_visits | exact F1].
Qed.

Lemma execute_accepted (self : SafeCodeExecutor) (code : str) (w : world) :
  code <> [] -> first_blocked self (lower code) = None ->
  execute self (PStr code) w
  = finally_block (sys_stdout w) (sys_stderr w)
      (let r := py_exec safe_builtins code (sandbox self w) in
       mkAttempt
         (match run_ending r with
          | Completed =>
              Returns (mkResult [] [] true (lit "Code executed successfully"))
          | AlarmFired =>
              handle_exception (_timeout_handler self)
                (mkResult [] [] false [])
          | Raised e => handle_exception e (mkResult [] [] false [])
          end)
         (run_world r) (run_stdout r) (run_stderr r) [Exec code]).
Proof.
  intros Hne Hb. unfold execute, try_block. cbv zeta.
  destruct code as [|c code]; [congruence|].
  cbn [invalid_code]. rewrite Hb. reflexivity.
Qed.


(** X2: anything that is not a non-empty string is refused as "Invalid
    code input": nothing is executed, no handler is installed, no limit is
    set, the streams stay as they are; only a pending alarm is cancelled. *)
Theorem execute_refuses_invalid_input (self : SafeCodeExecutor)
    (code : pyval) (w : world) :
  (forall text, code = PStr text -> text = []) ->
  execute self code w
  = (Returns (mkResult [] [] false (lit "Invalid code input")),
     cancel_alarm w, [])
  /\ sys_stdout (cancel_alarm w) = sys_stdout w
  /\ sys_stderr (cancel_alarm w) = sys_stderr w
  /\ sigalrm (cancel_alarm w) = sigalrm w
  /\ rlimit_as (cancel_alarm w) = rlimit_as w
  /\ main_thread (cancel_alarm w) = main_thread w.
Proof.
  intros H.
  assert (Hi : invalid_code code = true).
  { destruct code as [| | | |text| |]; try reflexivity.
    rewrite (H text eq_refl). reflexivity. }
  assert (Hw : set_streams (sys_stdout w) (sys_stderr w) (cancel_alarm w)
               = cancel_alarm w).
  { unfold cancel_alarm, signal_alarm. destruct w as [o e a h m rl].
    destruct a; reflexivity. }
  split.
  - unfold execute, finally_block, try_block. cbv zeta. rewrite Hi.
    cbn [att_result att_world att_stdout att_stderr att_events with_message
         success message]. rewrite Hw. reflexivity.
  - unfold cancel_alarm, signal_alarm. destruct w as [o e a h m rl].
    destruct a; repeat split; reflexivity.
Qed.

(** X3: the policy gate, both ways.  An executor built by the constructor
    runs a string exactly when it is not empty and holds no deny-listed
    token in any letter case; it then runs it once, as it is. *)
Theorem executed_iff_allowed (timeout memory_limit : N) (code : str)
    (w : world) :
  let events :=
    snd (execute (SafeCodeExecutor_init timeout memory_limit) (PStr code) w)
  in
  (executed_code events = [code]
   <-> code <> []
       /\ forall token, In token deny_list ->
                        contains token (lower code) = false)
  /\ (executed_code events = [code] \/ executed_code events = []).
Proof.
  cbv zeta. set (self := SafeCodeExecutor_init timeout memory_limit).
  destruct code as [|c code].
  { unfold execute, finally_block, try_block. cbn.
    split; [|right; reflexivity].
    split; [discriminate | intros [H _]; congruence]. }
  destruct (first_blocked self (lower (c :: code))) as [b|] eqn:F.
  - assert (E : snd (execute self (PStr (c :: code)) w) = []).
    { unfold execute, finally_block, try_block. cbv zeta.
      cbn [invalid_code]. rewrite F. reflexivity. }
    rewrite E. split; [|right; reflexivity].
    split; [discriminate|]. intros [_ H].
    apply (proj2 (first_blocked_none timeout memory_limit (c :: code)))
      in H.
    unfold self in F. congruence.
  - assert (Hne : c :: code <> []) by discriminate.
    rewrite (@execute_accepted self (c :: code) w Hne F). unfold finally_block. cbv zeta.
    cbn [snd att_events executed_code flat_map app].
    split; [|left; reflexivity].
    split; [|reflexivity]. intros _. split; [exact Hne|].
    apply (proj1 (first_blocked_none timeout memory_limit (c :: code))).
    exact F.
Qed.

(** X4: the world accepted code runs in.  The two streams are the buffers
    of the call.  Where SIGALRM exists and the call is made on the main
    thread, the handler of the executor is installed and, for a positive
    time limit, the alarm is pending with that limit; elsewhere handler and
    alarm are left alone.  Where the address-space limit can be set to the
    configured size, soft and hard limit are that size. *)
Theorem sandbox_is_prepared (self : SafeCodeExecutor) (w : world) :
  sys_stdout (sandbox self w) = stdout_capture
  /\ sys_stderr (sandbox self w) = stderr_capture
  /\ main_thread (sandbox self w) = main_thread w
  /\ (alarm w <> AlarmUnsupported -> main_thread w = true ->
      sigalrm (sandbox self w) = TimeoutHandler (timeout self)
      /\ alarm (sandbox self w)
         = (if (timeout self =? 0)%N then AlarmIdle
            else AlarmPending (timeout self)))
  /\ (alarm w = AlarmUnsupported \/ main_thread w = false ->
      sigalrm (sandbox self w) = sigalrm w
      /\ alarm (sandbox self w) = alarm w)
  /\ (forall soft hard,
        rlimit_as w = Rlimit soft hard ->
        (forall h, hard = Some h -> (memory_limit self <= h)%N) ->
        rlimit_as (sandbox self w)
        = Rlimit (Some (memory_limit self)) (Some (memory_limit self)))
  /\ (rlimit_as w = RlimitUnsupported ->
      rlimit_as (sandbox self w) = RlimitUnsupported).
Proof.
  unfold sandbox, _set_limits, arm_timeout, setrlimit_as, signal_signal,
    signal_alarm.
  destruct w as [o e a h m rl]. cbn [alarm main_thread rlimit_as sigalrm].
  split; [destruct a, m, rl; reflexivity|].
  split; [destruct a, m, rl; reflexivity|].
  split.
  { destruct a, m, rl as [|s [hd|]]; cbn;
      repeat match goal with
             | |- context [if ?b then _ else _] => destruct b
             end; reflexivity. }
  split.
  { intros Ha Hm. cbn in Hm. subst m.
    destruct a; [congruence| |];
      destruct rl as [|s [hd|]]; cbn;
      repeat match goal with
             | |- context [if ?b then _ else _] => destruct b
             end; cbn; split; reflexivity. }
  split.
  { intros [Ha|Hm]; cbn in *; subst.
    - destruct rl as [|s [hd|]]; cbn;
        repeat match goal with
               | |- context [if ?b then _ else _] => destruct b
               end; cbn; split; reflexivity.
    - destruct a, rl as [|s [hd|]]; cbn;
        repeat match goal with
               | |- context [if ?b then _ else _] => destruct b
               end; cbn; split; reflexivity. }
  split.
  { intros soft hard Hr Hh. cbn in Hr. subst rl.
    assert (Hle : (memory_limit self <=? memory_limit self)%N = true)
      by apply N.leb_refl.
    destruct hard as [hd|].
    - assert (Hh' : (memory_limit self <=? hd)%N = true)
        by (apply N.leb_le, Hh; reflexivity).
      destruct a, m; cbn; rewrite ?Hh', ?Hle, ?orb_true_r; cbn; reflexivity.
    - destruct a, m; cbn; rewrite ?Hle, ?orb_true_r; cbn; reflexivity. }
  intros Hr. cbn in Hr. subst rl. destruct a, m; reflexivity.
Qed.

End ExecutorMore.


Section ExecutorPersistence.

Context {python : Python}.

Lemma sandbox_handler (self : SafeCodeExecutor) (w : world) :
  alarm w <> AlarmUnsupported -> main_thread w = true ->
  sigalrm (sandbox self w) = TimeoutHandler (timeout self).
Proof.
  unfold sandbox, _set_limits, arm_timeout, setrlimit_as, signal_signal,
    signal_alarm.
  destruct w as [o e a h m rl]. cbn [alarm main_thread rlimit_as sigalrm].
  intros Ha Hm. subst m.
  destruct a; [congruence| |];
    destruct rl as [|s [hd|]]; cbn;
    repeat match goal with
           | |- context [if ?b then _ else _] => destruct b
           end; reflexivity.
Qed.

Lemma sandbox_limit (self : SafeCodeExecutor) (w : world)
    (soft hard : option N) :
  rlimit_as w = Rlimit soft hard ->
  (forall h, hard = Some h -> (memory_limit self <= h)%N) ->
  rlimit_as (sandbox self w)
  = Rlimit (Some (memory_limit self)) (Some (memory_limit self)).
Proof.
  unfold sandbox, _set_limits, arm_timeout, setrlimit_as, signal_signal,
    signal_alarm.
  destruct w as [o e a h m rl]. cbn [alarm main_thread rlimit_as sigalrm].
  intros Hr Hh. subst rl.
  assert (Hle : (memory_limit self <=? memory_limit self)%N = true)
    by apply N.leb_refl.
  destruct hard as [hd|].
  - assert (Hh' : (memory_limit self <=? hd)%N = true)
      by (apply N.leb_le, Hh; reflexivity).
    destruct a, m; cbn; rewrite ?Hh', ?Hle, ?orb_true_r; cbn; reflexivity.
  - destruct a, m; cbn; rewrite ?Hle, ?orb_true_r; cbn; reflexivity.
Qed.

(** X6: [execute] restores the streams and cancels the alarm, and nothing
    else.  After a run of accepted code that leaves the handler and the
    limit as it found them, the SIGALRM handler of the process is still the
    time-out handler of the executor and the address-space limit is still
    the configured size: neither is put back to what it was before the
    call. *)
Theorem handler_and_limit_outlive_the_call (self : SafeCodeExecutor)
    (code : str) (w : world) (soft hard : option N) :
  code <> [] -> first_blocked self (lower code) = None ->
  alarm w <> AlarmUnsupported -> main_thread w = true ->
  rlimit_as w = Rlimit soft hard ->
  (forall h, hard = Some h -> (memory_limit self <= h)%N) ->
  let r := py_exec safe_builtins code (sandbox self w) in
  sigalrm (run_world r) = sigalrm (sandbox self w) ->
  rlimit_as (run_world r) = rlimit_as (sandbox self w) ->
  let w' := snd (fst (execute self (PStr code) w)) in
  sigalrm w' = TimeoutHandler (timeout self)
  /\ rlimit_as w'
     = Rlimit (Some (memory_limit self)) (Some (memory_limit self)).
Proof.
  intros Hne Hb Ha Hm Hr Hh r Hs Hl w'.
  pose proof (sandbox_handler self w Ha Hm) as S1.
  pose proof (sandbox_limit self w Hr Hh) as S2.
  assert (E : w' = set_streams (sys_stdout w) (sys_stderr w)
                     (cancel_alarm (run_world r))).
  { unfold w'. rewrite (@execute_accepted _ self code w Hne Hb).
    reflexivity. }
  rewrite E. unfold cancel_alarm, signal_alarm.
  rewrite <- S1, <- S2, <- Hs, <- Hl.
  destruct (run_world r) as [o e a h m rl]. destruct a; split; reflexivity.
Qed.

End ExecutorPersistence.

(** ** The comparator *)

Section ComparatorMore.

Context {python : Python}.

(** X7: in contains mode [match] is true exactly when the stripped
    expected text occurs somewhere in the stripped output; [similarity] is
    not computed and stays 0.0 even on a match. *)
Theorem contains_comparison (actual expected : str) :
  let matched := contains (strip expected) (strip actual) in
  _compare_outputs actual (PStr expected) (PStr (lit "contains"))
  = Returns
      [(k_mode, PStr (lit "contains"));
       (k_match, PBool matched);
       (k_similarity, real 0);
       (k_details,
        PStr (if matched
              then check_mark ++ lit " Output contains expected text!"
              else cross_mark
                     ++ lit " Output does not contain expected text: '"
                     ++ strip expected ++ lit "'"))]
  /\ (matched = true
      <-> exists before after,
            strip actual = before ++ strip expected ++ after).
Proof.
  cbv zeta. split; [|apply contains_spec].
  unfold _compare_outputs. cbn [strip_method].
  replace (eq_str (PStr (lit "contains")) (lit "exact")) with false
    by reflexivity.
  replace (eq_str (PStr (lit "contains")) (lit "fuzzy")) with false
    by reflexivity.
  replace (eq_str (PStr (lit "contains")) (lit "contains")) with true
    by reflexivity.
  cbv zeta.
  destruct (contains (strip expected) (strip actual)); reflexivity.
Qed.

(** X8: a mode other than the strings [exact], [fuzzy] and [contains]
    (another word, the same word in capitals, a number) is no error: the
    comparison comes back with [match] false, [similarity] 0.0 and the
    details "Unknown comparison mode: " followed by the mode. *)
Theorem unknown_mode_comparison (actual expected : str) (mode : pyval) :
  mode <> PStr (lit "exact") -> mode <> PStr (lit "fuzzy") ->
  mode <> PStr (lit "contains") ->
  _compare_outputs actual (PStr expected) mode
  = Returns
      [(k_mode, mode);
       (k_match, PBool false);
       (k_similarity, real 0);
       (k_details,
        PStr (lit "Unknown comparison mode: " ++ format_value mode))].
Proof.
  intros H1 H2 H3.
  assert (E : forall word, mode <> PStr word -> eq_str mode word = false).
  { intros word H. unfold eq_str. destruct mode as [| | | |s| |];
      try reflexivity.
    destruct (str_eqb s word) eqn:Q; [|reflexivity].
    apply str_eqb_eq in Q. subst s. congruence. }
  unfold _compare_outputs. cbn [strip_method]. cbv zeta.
  rewrite (E _ H1), (E _ H2), (E _ H3). reflexivity.
Qed.

(** X9: the comparator looks at the expected output before it looks at the
    mode.  An expected output that is not a string raises the
    [AttributeError] of its missing [strip], whatever the mode; for a
    string the comparator always returns the four entries [mode] (as
    given), [match] (a bool), [similarity] (between 0 and 1) and [details]
    (a string), in this order. *)
Theorem comparator_outcome (actual : str) (expected mode : pyval) :
  match expected with
  | PStr _ =>
      exists matched similarity details,
        _compare_outputs actual expected mode
        = Returns [(k_mode, mode); (k_match, PBool matched);
                   (k_similarity, real similarity);
                   (k_details, PStr details)]
        /\ (0 <= similarity /\ similarity <= 1)%Q
  | _ =>
      _compare_outputs actual expected mode
      = Raises (AttributeError expected (lit "strip"))
  end.
Proof.
  destruct expected as [| | | |e| |]; try reflexivity.
  unfold _compare_outputs. cbn [strip_method]. cbv zeta.
  pose proof (ratio_bounds (strip actual) (strip e)) as Hb.
  assert (H0 : (0 <= 0 /\ 0 <= 1)%Q) by (split; discriminate).
  assert (H1 : (0 <= 1 /\ 1 <= 1)%Q) by (split; discriminate).
  destruct (eq_str mode (lit "exact")).
  { destruct (str_eqb (strip actual) (strip e));
      eexists _, _, _; (split; [reflexivity|]); assumption. }
  destruct (eq_str mode (lit "fuzzy")).
  { destruct (Qle_bool (8 # 10) (ratio (strip actual) (strip e)));
      eexists _, _, _; (split; [reflexivity|]); assumption. }
  destruct (eq_str mode (lit "contains")).
  { destruct (contains (strip e) (strip actual));
      eexists _, _, _; (split; [reflexivity|]); assumption. }
  eexists _, _, _. split; [reflexivity | assumption].
Qed.

(** X10: white space before or after the output or the expected text
    changes nothing, in any mode: the comparison is the one of the bare
    texts, verdict, similarity and details alike. *)
Theorem comparison_ignores_surrounding_space
    (actual expected pre post pre' post' : str) (mode : pyval) :
  forallb is_space pre = true -> forallb is_space post = true ->
  forallb is_space pre' = true -> forallb is_space post' = true ->
  _compare_outputs (pre ++ actual ++ post) (PStr (pre' ++ expected ++ post'))
    mode
  = _compare_outputs actual (PStr expected) mode.
Proof.
  intros H1 H2 H3 H4. unfold _compare_outputs. cbn [strip_method].
  rewrite (@strip_pad pre actual post H1 H2),
    (@strip_pad pre' expected post' H3 H4).
  reflexivity.
Qed.

(** X11: an expected text that is empty or all white space matches every
    output in contains mode. *)
Theorem blank_expected_is_contained (actual expected : str) :
  forallb is_space expected = true ->
  exists comparison,
    _compare_outputs actual (PStr expected) (PStr (lit "contains"))
    = Returns comparison
    /\ dict_get k_match comparison = Some (PBool true).
Proof.
  intros H.
  assert (E : strip expected = []).
  { unfold strip. rewrite (lstrip_blank _ H). reflexivity. }
  unfold _compare_outputs. cbn [strip_method].
  replace (eq_str (PStr (lit "contains")) (lit "exact")) with false
    by reflexivity.
  replace (eq_str (PStr (lit "contains")) (lit "fuzzy")) with false
    by reflexivity.
  replace (eq_str (PStr (lit "contains")) (lit "contains")) with true
    by reflexivity.
  cbv zeta. rewrite E.
  assert (C : contains [] (strip actual) = true).
  { destruct (strip actual); reflexivity. }
  rewrite C. eexists. split; reflexivity.
Qed.

End ComparatorMore.


(** ** The similarity of a text with itself *)

Lemma indices_from_bounds (x : char) (b : str) :
  forall from j,
    In j (indices_from from x b) ->
    from <= j /\ j < from + List.length b.
Proof.
  induction b as [|y b IH]; intros from j; simpl; [intros []|].
  destruct (x =? y)%N.
  - intros [<-|H]; [lia|]. apply IH in H. lia.
  - intros H. apply IH in H. lia.
Qed.

Lemma indices_from_complete (x : char) (b : str) :
  forall from j,
    from <= j -> j < from + List.length b -> nth (j - from) b 0%N = x ->
    In j (indices_from from x b).
Proof.
  induction b as [|y b IH]; intros from j H1 H2 H3; simpl in *; [lia|].
  destruct (Nat.eq_dec j from) as [->|Hne].
  - rewrite Nat.sub_diag in H3. subst y. rewrite N.eqb_refl. left.
    reflexivity.
  - assert (Hin : In j (indices_from (S from) x b)).
    { apply IH; [lia | lia|].
      replace (j - from) with (S (j - S from)) in H3 by lia. exact H3. }
    destruct (x =? y)%N; [right|]; exact Hin.
Qed.

(** The indices come in ascending order: around any of them, the earlier
    ones are smaller and the later ones larger. *)
Lemma indices_from_split (x : char) (b : str) :
  forall from i,
    In i (indices_from from x b) ->
    exists lo hi,
      indices_from from x b = lo ++ i :: hi
      /\ Forall (fun j => j < i) lo /\ Forall (fun j => i < j) hi.
Proof.
  induction b as [|y b IH]; intros from i; simpl; [intros []|].
  destruct (x =? y)%N.
  - intros [<-|H].
    + exists [], (indices_from (S from) x b). split; [reflexivity|].
      split; [constructor|]. apply Forall_forall. intros j Hj.
      apply indices_from_bounds in Hj. lia.
    + pose proof (indices_from_bounds _ _ _ _ H) as Hb.
      destruct (IH _ _ H) as (lo & hi & E & L & R).
      exists (from :: lo), hi. rewrite E. split; [reflexivity|].
      split; [constructor; [lia | exact L] | exact R].
  - intros H. exact (IH _ _ H).
Qed.

Lemma j2len_get_skip (front : list (nat * nat)) (rest : list (nat * nat))
    (key : nat) :
  Forall (fun e => fst e <> key) front ->
  j2len_get (front ++ rest) key = j2len_get rest key.
Proof.
  induction front as [|[j k] front IH]; intros H; [reflexivity|].
  inversion H as [|e l He Hl]; subst. simpl in He |- *.
  destruct (Nat.eqb_spec j key) as [E|_]; [contradiction|].
  apply IH. exact Hl.
Qed.

Section QuietRow.

Variables blo bhi i : nat.
Variable j2len : list (nat * nat).

(** Columns inside the region whose runs are not longer than the best
    block leave the best block as it is. *)
Lemma match_row_quiet (best : Match) :
  forall js rest newj2len,
    Forall (fun j => blo <= j /\ j < bhi
                     /\ j2len_get_pred j2len j + 1 <= match_size best) js ->
    match_row blo bhi i j2len (js ++ rest) newj2len best
    = match_row blo bhi i j2len rest (rev (map (row_entry j2len) js) ++ newj2len) best.
Proof.
  induction js as [|j js IH]; intros rest new H; [reflexivity|].
  inversion H as [|j0 l (H1 & H2 & H3) Hl]; subst.
  cbn [app match_row].
  destruct (Nat.ltb_spec j blo) as [?|_]; [lia|].
  destruct (Nat.leb_spec bhi j) as [?|_]; [lia|].
  destruct (Nat.ltb_spec (match_size best) (j2len_get_pred j2len j + 1))
    as [?|_]; [lia|].
  rewrite (IH rest _ Hl). cbn [map rev]. unfold row_entry at 2.
  rewrite <- app_assoc. reflexivity.
Qed.

End QuietRow.

Section Diagonal.

Variable s : str.

Lemma diagonal_run_step (j : nat) :
  unpopular_at s j = true -> diagonal_run s j = S (prev_run s j).
Proof.
  intros H. destruct j as [|j']; simpl; rewrite H; reflexivity.
Qed.

Lemma diagonal_run_zero (j : nat) :
  unpopular_at s j = false -> diagonal_run s j = 0.
Proof.
  intros H. destruct j as [|j']; simpl; rewrite H; reflexivity.
Qed.

Lemma b2j_self (i j : nat) :
  In j (b2j s (nth i s 0%N)) ->
  unpopular_at s j = true /\ popular s (nth i s 0%N) = false.
Proof.
  unfold b2j, unpopular_at.
  destruct (popular s (nth i s 0%N)) eqn:P; [intros []|].
  intros H. pose proof (indices_from_bounds _ _ _ _ H) as [_ Hb].
  apply indices_from_spec in H. destruct H as [_ H].
  rewrite Nat.sub_0_r in H. rewrite H, P.
  split; [|reflexivity]. simpl in Hb.
  destruct (Nat.ltb_spec j (List.length s)); [reflexivity | lia].
Qed.

Lemma pred_le (i : nat) (j2len : list (nat * nat)) :
  (forall j k, In (j, k) j2len ->
               k <= prev_run s i /\ k <= diagonal_run s j) ->
  forall j, j2len_get_pred j2len j <= prev_run s i
            /\ j2len_get_pred j2len j <= prev_run s j.
Proof.
  intros H j. unfold j2len_get_pred. destruct j as [|j']; [simpl; lia|].
  destruct (j2len_get_in j2len j') as [E|E].
  - rewrite E. lia.
  - apply H in E. simpl. exact E.
Qed.

(** One row of the matcher on [s] against itself keeps the invariant. *)
Lemma diagonal_row (i : nat) (j2len : list (nat * nat)) (best : Match) :
  i < List.length s -> diagonal_ok s i j2len best ->
  let row := match_row 0 (List.length s) i j2len (b2j s (nth i s 0%N)) []
               best in
  diagonal_ok s (S i) (fst row) (snd row).
Proof.
  intros Hi (B & Dm & J & E). cbv zeta.
  pose proof (@pred_le i j2len J) as Hpred.
  destruct (unpopular_at s i) eqn:U.
  2:{ (* the character of the row is popular: the row is empty *)
      assert (Hjs : b2j s (nth i s 0%N) = []).
      { unfold b2j. unfold unpopular_at in U.
        destruct (Nat.ltb_spec i (List.length s)) as [_|?]; [|lia].
        simpl in U. apply negb_false_iff in U. rewrite U. reflexivity. }
      rewrite Hjs. cbn [match_row fst snd].
      pose proof (diagonal_run_zero _ U) as Z.
      split; [exact B|]. split.
      { intros r Hr. destruct (Nat.eq_dec r i) as [->|?];
          [rewrite Z; lia | apply Dm; lia]. }
      split; [intros j k []|].
      simpl. exact (eq_sym Z). }
  assert (Hin : In i (b2j s (nth i s 0%N))).
  { unfold b2j. unfold unpopular_at in U.
    apply andb_true_iff in U. destruct U as [_ U].
    apply negb_true_iff in U. rewrite U.
    apply indices_from_complete; [lia | simpl; lia|].
    rewrite Nat.sub_0_r. reflexivity. }
  assert (Hall : forall j, In j (b2j s (nth i s 0%N)) ->
                           j < List.length s
                           /\ diagonal_run s j = S (prev_run s j)).
  { intros j Hj. destruct (b2j_self _ _ Hj) as [Uj _].
    split; [|apply diagonal_run_step; exact Uj].
    unfold unpopular_at in Uj. apply andb_true_iff in Uj.
    destruct Uj as [Uj _]. apply Nat.ltb_lt. exact Uj. }
  pose proof (diagonal_run_step _ U) as Hrun.
  assert (Hsplit : exists lo hi,
             b2j s (nth i s 0%N) = lo ++ i :: hi
             /\ Forall (fun j => j < i) lo /\ Forall (fun j => i < j) hi).
  { unfold b2j in Hin |- *.
    destruct (popular s (nth i s 0%N)); [destruct Hin|].
    apply indices_from_split. exact Hin. }
  destruct Hsplit as (lo & hi & Ejs & Hlo & Hhi).
  rewrite Ejs in Hall |- *.
  (* the columns before the diagonal *)
  assert (Qlo : Forall (fun j => 0 <= j /\ j < List.length s
                                 /\ j2len_get_pred j2len j + 1
                                    <= match_size best) lo).
  { apply Forall_forall. intros j Hj.
    destruct (Hall j) as [Hj1 Hj2]; [apply in_or_app; left; exact Hj|].
    rewrite Forall_forall in Hlo. specialize (Hlo j Hj).
    specialize (Dm j Hlo). destruct (Hpred j) as [_ Hp]. lia. }
  rewrite (@match_row_quiet 0 (List.length s) i j2len best lo (i :: hi) []
             Qlo).
  unfold row_entry.
  (* the diagonal *)
  cbn [match_row].
  destruct (Nat.ltb_spec i 0) as [?|_]; [lia|].
  destruct (Nat.leb_spec (List.length s) i) as [?|_]; [lia|].
  set (k := j2len_get_pred j2len i + 1).
  assert (Hk : k = diagonal_run s i) by (unfold k; rewrite E, Hrun; lia).
  set (best' := if match_size best <? k
                then mkMatch (i + 1 - k) (i + 1 - k) k else best).
  assert (B' : match_a best' = match_b best').
  { unfold best'. destruct (match_size best <? k); [reflexivity | exact B]. }
  assert (S' : match_size best <= match_size best'
               /\ k <= match_size best').
  { unfold best'. destruct (Nat.ltb_spec (match_size best) k); simpl; lia. }
  (* the columns after the diagonal *)
  assert (Qhi : Forall (fun j => 0 <= j /\ j < List.length s
                                 /\ j2len_get_pred j2len j + 1
                                    <= match_size best') hi).
  { apply Forall_forall. intros j Hj.
    destruct (Hall j) as [Hj1 _];
      [apply in_or_app; right; right; exact Hj|].
    destruct (Hpred j) as [Hp _]. lia. }
  pose proof (@match_row_quiet 0 (List.length s) i j2len best' hi []
                ((i, k) :: rev (map (fun j => (j, j2len_get_pred j2len j + 1))
                                  lo) ++ []) Qhi) as Ehi.
  unfold row_entry in Ehi.
  rewrite app_nil_r in Ehi. rewrite Ehi. cbn [match_row fst snd].
  split; [exact B'|]. split.
  { intros r Hr. destruct (Nat.eq_dec r i) as [->|?];
      [lia | specialize (Dm r); lia]. }
  split.
  { intros j kj Hj. cbn [prev_run].
    assert (Hent : forall l, In (j, kj)
                               (rev (map (fun j => (j, j2len_get_pred j2len j + 1)) l)) ->
                             In j l /\ kj = j2len_get_pred j2len j + 1).
    { intros l Hl. apply in_rev, in_map_iff in Hl.
      destruct Hl as [x [Hx Hx']]. injection Hx as <- <-.
      split; [exact Hx' | reflexivity]. }
    assert (Hcol : In j (lo ++ i :: hi)
                   /\ kj = j2len_get_pred j2len j + 1).
    { apply in_app_or in Hj. destruct Hj as [Hj|Hj].
      - apply Hent in Hj. destruct Hj as [Hj1 Hj2].
        split; [apply in_or_app; right; right; exact Hj1 | exact Hj2].
      - destruct Hj as [Hj|Hj].
        + injection Hj as <- <-. split; [apply in_or_app; right; left|];
            reflexivity.
        + rewrite app_nil_r in Hj. apply Hent in Hj.
          destruct Hj as [Hj1 Hj2].
          split; [apply in_or_app; left; exact Hj1 | exact Hj2]. }
    destruct Hcol as [Hj1 ->]. destruct (Hall j Hj1) as [_ Hj2].
    destruct (Hpred j) as [Hp1 Hp2]. lia. }
  (* the entry on the diagonal *)
  unfold j2len_get_pred. cbn [prev_run].
  rewrite j2len_get_skip.
  - simpl. rewrite Nat.eqb_refl. exact Hk.
  - apply Forall_forall. intros e He. apply in_rev, in_map_iff in He.
    destruct He as [x [<- Hx]]. simpl.
    rewrite Forall_forall in Hhi. specialize (Hhi x Hx). lia.
Qed.

Lemma diagonal_rows (n : nat) :
  forall i j2len best,
    i + n <= List.length s -> diagonal_ok s i j2len best ->
    match_a (match_rows s s 0 (List.length s) i n j2len best)
    = match_b (match_rows s s 0 (List.length s) i n j2len best).
Proof.
  induction n as [|n IH]; intros i j2len best Hn Hok.
  - destruct Hok as [B _]. exact B.
  - cbn [match_rows].
    assert (Hi : i < List.length s) by lia.
    pose proof (diagonal_row Hi Hok) as Hrow. cbv zeta in Hrow.
    destruct (match_row 0 (List.length s) i j2len (b2j s (nth i s 0%N)) []
                best) as [new best'].
    apply IH; [lia | exact Hrow].
Qed.

Lemma extend_left_diagonal (p : nat) :
  forall size, extend_left s s 0 0 p p size = mkMatch 0 0 (p + size).
Proof.
  induction p as [|p IH]; intros size; cbn [extend_left]; [reflexivity|].
  cbn [Nat.ltb Nat.leb andb]. replace (S p - 1) with p by lia.
  rewrite N.eqb_refl, IH. f_equal. lia.
Qed.

Lemma extend_right_diagonal (room : nat) :
  forall size,
    size + room <= List.length s ->
    extend_right s s (List.length s) 0 0 room size = size + room.
Proof.
  induction room as [|room IH]; intros size H; cbn [extend_right]; [lia|].
  destruct (Nat.ltb_spec (0 + size) (List.length s)) as [_|?]; [|lia].
  rewrite N.eqb_refl. cbn [andb]. rewrite IH; lia.
Qed.

(** Matched with itself, a text is one block. *)
Lemma find_longest_match_self :
  find_longest_match s s 0 (List.length s) 0 (List.length s)
  = mkMatch 0 0 (List.length s).
Proof.
  unfold find_longest_match. rewrite Nat.sub_0_r.
  assert (H0 : diagonal_ok s 0 [] (mkMatch 0 0 0)).
  { split; [reflexivity|]. split; [intros r Hr; lia|].
    split; [intros j k []|reflexivity]. }
  pose proof (@diagonal_rows (List.length s) 0 [] _ (le_n _) H0) as Hd.
  assert (R0 : in_region 0 0 0 (List.length s) (mkMatch 0 0 0)).
  { unfold in_region. simpl. lia. }
  assert (C0 : common_block s s (mkMatch 0 0 0)).
  { intros t Ht. simpl in Ht. lia. }
  assert (Hnil : j2len_ok s s 0 0 (List.length s) 0 []) by (intros j k []).
  pose proof (@match_rows_invariant s s 0 0 (List.length s) (List.length s)
                0 [] _ (le_n _) Hnil R0 C0) as [Hr _].
  simpl in Hr.
  remember (match_rows s s 0 (List.length s) 0 (List.length s) []
              (mkMatch 0 0 0)) as best eqn:Hbest. clear Hbest.
  destruct Hr as (_ & R2 & _ & _).
  rewrite <- Hd, extend_left_diagonal. cbn [match_a match_b match_size].
  rewrite extend_right_diagonal by lia. f_equal. lia.
Qed.

Lemma matches_self : matches s s = List.length s.
Proof.
  unfold matches, matching_blocks.
  replace (2 * List.length s + 1) with (S (2 * List.length s)) by lia.
  cbn [blocks_loop]. rewrite find_longest_match_self.
  cbn [match_a match_b match_size].
  destruct (List.length s) as [|n] eqn:L; [reflexivity|].
  cbn [Nat.eqb]. rewrite Nat.ltb_irrefl. cbn [andb].
  replace (0 + S n <? S n) with false
    by (symmetry; apply Nat.ltb_ge; lia).
  cbn [andb]. destruct (2 * S n) as [|f]; simpl; lia.
Qed.

(** The ratio of a text with itself is 1. *)
Lemma ratio_self : (ratio s s == 1)%Q.
Proof.
  unfold ratio. rewrite matches_self. unfold calculate_ratio.
  destruct (List.length s + List.length s) as [|m] eqn:L; [reflexivity|].
  unfold Qeq. cbn [Qnum Qden].
  assert (P : Zpos (Pos.of_nat (S m)) = Z.of_nat (S m)).
  { rewrite <- positive_nat_Z, Nat2Pos.id; [reflexivity | lia]. }
  rewrite P. lia.
Qed.

End Diagonal.


(** ** Texts without a common character *)

Lemma indices_from_none (x : char) (b : str) :
  ~ In x b -> forall from, indices_from from x b = [].
Proof.
  induction b as [|y b IH]; intros H from; simpl; [reflexivity|].
  destruct (N.eqb_spec x y) as [->|_].
  - exfalso. apply H. left. reflexivity.
  - apply IH. intros Hin. apply H. right. exact Hin.
Qed.

Section Disjoint.

Variables a b : str.
Hypothesis nothing_shared : forall x, In x a -> ~ In x b.

Lemma b2j_disjoint (i : nat) :
  i < List.length a -> b2j b (nth i a 0%N) = [].
Proof.
  intros Hi. unfold b2j. destruct (popular b (nth i a 0%N)); [reflexivity|].
  apply indices_from_none. apply nothing_shared. apply nth_In. exact Hi.
Qed.

Lemma match_rows_disjoint (blo bhi : nat) (n : nat) :
  forall i j2len best,
    i + n <= List.length a ->
    match_rows a b blo bhi i n j2len best = best.
Proof.
  induction n as [|n IH]; intros i j2len best H; [reflexivity|].
  cbn [match_rows]. rewrite b2j_disjoint by lia. cbn [match_row].
  apply IH. lia.
Qed.

Lemma find_longest_match_disjoint :
  match_size
    (find_longest_match a b 0 (List.length a) 0 (List.length b)) = 0.
Proof.
  unfold find_longest_match. rewrite Nat.sub_0_r.
  rewrite match_rows_disjoint by lia.
  cbn [match_a match_b match_size extend_left].
  destruct a as [|x a'] eqn:Ea; [reflexivity|].
  cbn [List.length Nat.sub Nat.add extend_right].
  destruct b as [|y b'] eqn:Eb; [reflexivity|].
  cbn [List.length nth].
  destruct (N.eqb_spec x y) as [E|_].
  - exfalso. apply (nothing_shared x); [left; reflexivity|].
    left. symmetry. exact E.
  - rewrite andb_false_r. reflexivity.
Qed.

Lemma matches_disjoint : matches a b = 0.
Proof.
  unfold matches, matching_blocks.
  replace (2 * List.length a + 1) with (S (2 * List.length a)) by lia.
  cbn [blocks_loop]. rewrite find_longest_match_disjoint.
  cbn [Nat.eqb]. destruct (2 * List.length a); reflexivity.
Qed.

Lemma ratio_disjoint :
  a <> [] \/ b <> [] -> (ratio a b == 0)%Q.
Proof.
  intros H. unfold ratio. rewrite matches_disjoint. unfold calculate_ratio.
  destruct (List.length a + List.length b) as [|m] eqn:L.
  - destruct a, b; simpl in L; try lia. destruct H; congruence.
  - reflexivity.
Qed.

End Disjoint.

Section FuzzyMore.

Context {python : Python}.

Lemma contains_self (x : str) : contains x x = true.
Proof.
  apply contains_spec. exists [], []. rewrite app_nil_r. reflexivity.
Qed.

(** X12: two texts that are equal once stripped match in every mode: in
    fuzzy mode the similarity is 1 and [match] is true, popular characters
    of long texts notwithstanding, and in contains mode [match] is true. *)
Theorem equal_texts_match_in_every_mode (actual expected : str) :
  strip actual = strip expected ->
  (exists comparison similarity,
     _compare_outputs actual (PStr expected) (PStr (lit "fuzzy"))
     = Returns comparison
     /\ dict_get k_similarity comparison = Some (real similarity)
     /\ (similarity == 1)%Q
     /\ dict_get k_match comparison = Some (PBool true))
  /\ (exists comparison,
        _compare_outputs actual (PStr expected) (PStr (lit "contains"))
        = Returns comparison
        /\ dict_get k_match comparison = Some (PBool true))
  /\ (exists comparison,
        _compare_outputs actual (PStr expected) (PStr (lit "exact"))
        = Returns comparison
        /\ dict_get k_match comparison = Some (PBool true)).
Proof.
  intros E. unfold _compare_outputs. cbn [strip_method]. rewrite E.
  replace (eq_str (PStr (lit "fuzzy")) (lit "exact")) with false
    by reflexivity.
  replace (eq_str (PStr (lit "fuzzy")) (lit "fuzzy")) with true
    by reflexivity.
  replace (eq_str (PStr (lit "contains")) (lit "exact")) with false
    by reflexivity.
  replace (eq_str (PStr (lit "contains")) (lit "fuzzy")) with false
    by reflexivity.
  replace (eq_str (PStr (lit "contains")) (lit "contains")) with true
    by reflexivity.
  replace (eq_str (PStr (lit "exact")) (lit "exact")) with true
    by reflexivity.
  cbv zeta.
  pose proof (ratio_self (strip expected)) as Hr.
  assert (Hq : Qle_bool (8 # 10) (ratio (strip expected) (strip expected))
               = true).
  { apply Qle_bool_iff. rewrite Hr. discriminate. }
  rewrite Hq, contains_self, str_eqb_refl.
  split; [|split].
  - eexists _, _. split; [reflexivity|]. split; [reflexivity|].
    split; [exact Hr | reflexivity].
  - eexists. split; reflexivity.
  - eexists. split; reflexivity.
Qed.

(** X13: two texts that share no character, not both empty once stripped,
    have similarity 0 in fuzzy mode and do not match. *)
Theorem disjoint_texts_do_not_match (actual expected : str) :
  (forall x, In x (strip actual) -> ~ In x (strip expected)) ->
  strip actual <> [] \/ strip expected <> [] ->
  exists comparison similarity,
    _compare_outputs actual (PStr expected) (PStr (lit "fuzzy"))
    = Returns comparison
    /\ dict_get k_similarity comparison = Some (real similarity)
    /\ (similarity == 0)%Q
    /\ dict_get k_match comparison = Some (PBool false).
Proof.
  intros Hd Hne. unfold _compare_outputs. cbn [strip_method].
  replace (eq_str (PStr (lit "fuzzy")) (lit "exact")) with false
    by reflexivity.
  replace (eq_str (PStr (lit "fuzzy")) (lit "fuzzy")) with true
    by reflexivity.
  cbv zeta.
  pose proof (ratio_disjoint Hd Hne) as Hr.
  assert (Hq : Qle_bool (8 # 10) (ratio (strip actual) (strip expected))
               = false).
  { destruct (Qle_bool (8 # 10) (ratio (strip actual) (strip expected)))
      eqn:Q; [|reflexivity].
    apply Qle_bool_iff in Q. rewrite Hr in Q. exfalso. apply Q.
    reflexivity. }
  rewrite Hq. eexists _, _. split; [reflexivity|].
  split; [reflexivity|]. split; [exact Hr | reflexivity].
Qed.

End FuzzyMore.


(** ** The facade *)

Lemma dict_get_set_same (k : str) (v : pyval) (d : dict) :
  dict_get k (dict_set k v d) = Some v.
Proof.
  induction d as [|[k' v'] d IH]; simpl.
  - rewrite str_eqb_refl. reflexivity.
  - destruct (str_eqb k k') eqn:E; simpl; rewrite E; [reflexivity | exact IH].
Qed.

Lemma dict_get_set_other (k k' : str) (v : pyval) (d : dict) :
  k <> k' -> dict_get k (dict_set k' v d) = dict_get k d.
Proof.
  intros Hne.
  assert (Hf : str_eqb k k' = false).
  { destruct (str_eqb k k') eqn:E; [|reflexivity].
    apply str_eqb_eq in E. contradiction. }
  induction d as [|[k0 v0] d IH]; simpl.
  - rewrite Hf. reflexivity.
  - destruct (str_eqb k' k0) eqn:E; simpl.
    + apply str_eqb_eq in E. subst k0. rewrite Hf. reflexivity.
    + destruct (str_eqb k k0); [reflexivity | exact IH].
Qed.

Section FacadeMore.

Context {python : Python}.

Lemma execute_ran (self : SafeCodeExecutor) (code : pyval) (w : world) :
  executed_code (snd (execute self code w)) = []
  \/ exists c, code = PStr c /\ executed_code (snd (execute self code w)) = [c].
Proof.
  unfold execute, finally_block, try_block. cbv zeta.
  destruct (invalid_code code); [left; reflexivity|].
  destruct code as [| | | |text| |]; try (left; reflexivity).
  destruct (first_blocked self (lower text)); [left; reflexivity|].
  right. exists text. split; reflexivity.
Qed.

Lemma executed_code_app (e1 e2 : trace) :
  executed_code (e1 ++ e2) = executed_code e1 ++ executed_code e2.
Proof. apply flat_map_app. Qed.

Lemma executed_code_framed (line : str) (events : trace)
    (actual : str) (expected mode : pyval) :
  executed_code (Print line :: events ++ [Compare actual expected mode])
  = executed_code events.
Proof.
  unfold executed_code. cbn [flat_map app]. rewrite flat_map_app.
  cbn [flat_map]. rewrite !app_nil_r. reflexivity.
Qed.

Lemma facade_executed (self : CodeExecutorTool) (input_data : str)
    (w : world) :
  executed_code (snd (execute_and_compare self input_data w)) = []
  \/ executed_code (snd (execute_and_compare self input_data w))
     = match json_loads input_data with
       | JSONDecodeError =>
           executed_code (snd (execute (executor self) (PStr input_data) w))
       | Decoded (PDict d) =>
           executed_code
             (snd (execute (executor self) (get_default d k_code (PStr []))
                     w))
       | Decoded _ => []
       end.
Proof.
  destruct (json_loads input_data) as [data|] eqn:Hj.
  - destruct (submission input_data) as [[code line]|] eqn:Hs.
    2:{ destruct (@unstructured_cases _ self _ _ w Hj Hs) as [e E].
        rewrite E. left. reflexivity. }
    unfold submission in Hs. rewrite Hj in Hs.
    destruct data as [| | | | | |d]; try discriminate Hs.
    destruct (py_len (get_default d k_code (PStr []))) as [n|e0] eqn:L;
      [|discriminate Hs].
    pose proof (@structured_cases _ self _ _ _ w Hj L) as H. cbv zeta in H.
    destruct (py_print (sys_stdout w) _) as [e|].
    { rewrite H. left. reflexivity. }
    right.
    destruct (execute (executor self) (get_default d k_code (PStr [])) w)
      as [[[r|e] w'] events] eqn:X; cbn [snd].
    + destruct (is_not_None (get_default d k_expected_output PNone)
                && success r).
      * destruct (_compare_outputs (output r)
                    (get_default d k_expected_output PNone)
                    (get_default d k_compare_mode (PStr (lit "exact"))))
          as [c|e]; rewrite H; cbn [snd]; apply executed_code_framed.
      * rewrite H. reflexivity.
    + rewrite H. reflexivity.
  - destruct (@simple_cases _ self _ w Hj) as [E S]. cbv zeta in S.
    rewrite E.
    destruct (py_print (sys_stdout w) _) as [e|].
    { rewrite S. left. reflexivity. }
    right.
    destruct (execute (executor self) (PStr input_data) w)
      as [[[r|e] w'] events]; rewrite S; reflexivity.
Qed.

(** X14: one call of the facade runs at most one piece of code, and only
    the one it was asked to run: the whole input when the input is not
    JSON, the string under [code] when it is a request object.  Nothing is
    run for any other input. *)
Theorem facade_runs_only_the_requested_code (self : CodeExecutorTool)
    (input_data : str) (w : world) :
  let events := snd (execute_and_compare self input_data w) in
  executed_code events = []
  \/ exists c, requested_code input_data = Some c
               /\ executed_code events = [c].
Proof.
  cbv zeta.
  destruct (facade_executed self input_data w) as [H|H]; [left; exact H|].
  rewrite H. unfold requested_code.
  destruct (json_loads input_data) as [data|].
  - destruct data as [| | | | | |d]; try (left; reflexivity).
    destruct (execute_ran (executor self)
                (get_default d k_code (PStr [])) w)
      as [Hr|[c [Hc Hr]]]; [left; exact Hr|].
    right. exists c. rewrite Hc in Hr |- *. split; [reflexivity | exact Hr].
  - destruct (execute_ran (executor self) (PStr input_data) w)
      as [Hr|[c [Hc Hr]]]; [left; exact Hr|].
    right. exists c. injection Hc as <-. split; [reflexivity | exact Hr].
Qed.

End FacadeMore.


Section FacadeErrors.

Context {python : Python}.

Lemma execute_blocked (self : SafeCodeExecutor) (code blocked : str)
    (w : world) :
  code <> [] -> first_blocked self (lower code) = Some blocked ->
  execute self (PStr code) w
  = (Returns (mkResult [] [] false
                (lit "Blocked operation detected: " ++ blocked)),
     set_streams (sys_stdout w) (sys_stderr w) (cancel_alarm w), []).
Proof.
  intros Hne Hb. unfold execute, finally_block, try_block. cbv zeta.
  destruct code as [|c code]; [congruence|].
  cbn [invalid_code]. rewrite Hb. reflexivity.
Qed.


(** X15: JSON that is no request is answered before anything runs.  A
    value that is not an object gets the tool-error record with the
    message of the missing [get]; an object whose [code] is a number, a
    boolean or null gets it with the message of the missing length.  In
    both cases nothing is executed or printed and the process state is
    left exactly as it was, a pending alarm included. *)
Theorem non_request_is_answered_unrun (self : CodeExecutorTool)
    (input_data : str) (data : pyval) (w : world) :
  json_loads input_data = Decoded data ->
  match data with
  | PDict d =>
      has_len (get_default d k_code (PStr [])) = false ->
      execute_and_compare self input_data w
      = (Returns
           [(k_success, PBool false);
            (k_error,
             PStr (lit "Tool error: object of type '"
                     ++ type_name (get_default d k_code (PStr []))
                     ++ lit "' has no len()"))],
         w, [])
  | _ =>
      execute_and_compare self input_data w
      = (Returns
           [(k_success, PBool false);
            (k_error,
             PStr (lit "Tool error: '" ++ type_name data
                     ++ lit "' object has no attribute 'get'"))],
         w, [])
  end.
Proof.
  intros Hj. unfold execute_and_compare. rewrite Hj.
  unfold structured_request.
  destruct data as [| | | | | |d]; try reflexivity.
  intros Hl.
  destruct (get_default d k_code (PStr [])); try discriminate Hl;
    reflexivity.
Qed.



(** X18: the comparison a request gets back is the comparator applied to
    the output reported in that same result, the expected output of the
    request and its mode; a request that names no mode is compared in exact
    mode. *)
Theorem comparison_is_of_the_reported_output (self : CodeExecutorTool)
    (input_data : str) (d : dict) (w : world) :
  json_loads input_data = Decoded (PDict d) ->
  match execute_and_compare self input_data w with
  | (Returns result, _, _) =>
      forall comparison,
        dict_get k_comparison result = Some (PDict comparison) ->
        exists out,
          dict_get k_output result = Some (PStr out)
          /\ dict_get k_expected_output result
             = Some (get_default d k_expected_output PNone)
          /\ _compare_outputs out (get_default d k_expected_output PNone)
               (get_default d k_compare_mode (PStr (lit "exact")))
             = Returns comparison
          /\ (dict_get k_compare_mode d = None ->
              _compare_outputs out (get_default d k_expected_output PNone)
                (PStr (lit "exact"))
              = Returns comparison)
  | (Raises _, _, _) => True
  end.
Proof.
  intros Hj.
  destruct (submission input_data) as [[code line]|] eqn:Hs.
  2:{ destruct (@unstructured_cases _ self _ _ w Hj Hs) as [e E].
      rewrite E. intros c H. discriminate H. }
  unfold submission in Hs. rewrite Hj in Hs.
  destruct (py_len (get_default d k_code (PStr []))) as [n|e0] eqn:L;
    [|discriminate Hs].
  pose proof (@structured_cases _ self _ _ _ w Hj L) as H. cbv zeta in H.
  destruct (py_print (sys_stdout w) _) as [e|].
  { rewrite H. destruct (is_Exception e); [|exact I].
    intros c Y. discriminate Y. }
  destruct (execute (executor self) (get_default d k_code (PStr [])) w)
    as [[[r|e] w'] events].
  2:{ rewrite H. exact I. }
  destruct (is_not_None (get_default d k_expected_output PNone)
            && success r).
  - destruct (_compare_outputs (output r)
                (get_default d k_expected_output PNone)
                (get_default d k_compare_mode (PStr (lit "exact"))))
      as [c|e] eqn:C; rewrite H.
    + intros c' Y. cbn in Y. injection Y as <-.
      exists (output r). split; [reflexivity|]. split; [reflexivity|].
      split; [exact C|]. intros Hm. unfold get_default in C at 2.
      rewrite Hm in C. exact C.
    + intros c Y. discriminate Y.
  - rewrite H. intros c Y. discriminate Y.
Qed.

(** X19: a request whose code holds a deny-listed token is answered with
    the record of the rejection, [execution_success] false and the message
    that names a token found in the code; nothing is executed, and no
    comparison is made even when an expected output was given.  Where the
    progress line cannot be written, the caller gets the tool-error record
    of the exception [print] raised, and nothing is executed either. *)
Theorem blocked_request_is_not_compared (timeout memory_limit : N)
    (input_data : str) (d : dict) (code token : str) (w : world) :
  json_loads input_data = Decoded (PDict d) ->
  get_default d k_code (PStr []) = PStr code ->
  In token deny_list ->
  (exists l r, lower code = l ++ token ++ r) ->
  let line := wrench_mark ++ lit " Executing code ("
                ++ str_of_nat (List.length code) ++ lit " chars)..." in
  match py_print (sys_stdout w) line with
  | None =>
      exists blocked,
        execute_and_compare (CodeExecutorTool_init timeout memory_limit)
          input_data w
        = (Returns
             [(k_code, PStr code);
              (k_execution_success, PBool false);
              (k_output, PStr []);
              (k_errors, PStr []);
              (k_message,
               PStr (lit "Blocked operation detected: " ++ blocked));
              (k_expected_output, get_default d k_expected_output PNone);
              (k_comparison, PNone)],
           set_streams (sys_stdout w) (sys_stderr w) (cancel_alarm w),
           [Print line])
        /\ In blocked deny_list
        /\ contains blocked (lower code) = true
  | Some e =>
      execute_and_compare (CodeExecutorTool_init timeout memory_limit)
        input_data w
      = (if is_Exception e then Returns (tool_error e) else Raises e, w, [])
  end.
Proof.
  intros Hj Hc Hin Hsub line.
  assert (Hcont : contains token (lower code) = true)
    by (apply contains_spec; exact Hsub).
  assert (Hne : code <> []).
  { destruct Hsub as [l [r E]]. apply lower_nonempty. rewrite E.
    pose proof (deny_list_nonempty Hin).
    destruct l; [destruct token; [congruence | discriminate] | discriminate]. }
  set (self := SafeCodeExecutor_init timeout memory_limit).
  assert (L : py_len (get_default d k_code (PStr []))
              = Returns (List.length code)) by (rewrite Hc; reflexivity).
  pose proof (@structured_cases _ (CodeExecutorTool_init timeout memory_limit)
                _ _ _ w Hj L) as H.
  cbv zeta in H. fold line in H. rewrite Hc in H.
  destruct (py_print (sys_stdout w) line) as [e|]; [exact H|].
  destruct (first_blocked self (lower code)) as [blocked|] eqn:F.
  2:{ apply (proj1 (first_blocked_none timeout memory_limit code)) with
        (token := token) in F; [congruence | exact Hin]. }
  exists blocked. split.
  - unfold CodeExecutorTool_init in H. cbn [executor] in H. fold self in H.
    rewrite (@execute_blocked self code blocked w Hne F) in H.
    cbn [success output errors message] in H. rewrite andb_false_r in H.
    exact H.
  - unfold first_blocked in F. apply find_some in F.
    destruct F as [F1 F2]. split; [|exact F2].
    eapply Permutation_in; [apply set_order_visits | exact F1].
Qed.

End FacadeErrors.

(** ** The registry of tools *)

Lemma table_get_set_same (name : str) (entry : tool_entry)
    (table : tool_table) :
  table_get name (table_set name entry table) = Some entry.
Proof.
  induction table as [|[name' entry'] rest IH]; simpl.
  - rewrite str_eqb_refl; reflexivity.
  - destruct (str_eqb name name') eqn:E; simpl; rewrite E; auto.
Qed.

Lemma table_get_set_other (name other : str) (entry : tool_entry)
    (table : tool_table) :
  other <> name ->
  table_get other (table_set name entry table) = table_get other table.
Proof.
  intros N.
  assert (F : str_eqb other name = false).
  { destruct (str_eqb other name) eqn:E; [|reflexivity].
    apply str_eqb_eq in E; contradiction. }
  induction table as [|[name' entry'] rest IH]; simpl.
  - rewrite F; reflexivity.
  - destruct (str_eqb name name') eqn:E; simpl.
    + apply str_eqb_eq in E; subst name'. rewrite F; reflexivity.
    + rewrite IH; reflexivity.
Qed.

Lemma table_set_names (name : str) (entry : tool_entry)
    (table : tool_table) :
  map fst (table_set name entry table)
  = if existsb (str_eqb name) (map fst table) then map fst table
    else map fst table ++ [name].
Proof.
  induction table as [|[name' entry'] rest IH]; simpl; [reflexivity|].
  destruct (str_eqb name name') eqn:E; simpl; [reflexivity|].
  rewrite IH. destruct (existsb (str_eqb name) (map fst rest)); reflexivity.
Qed.

Lemma existsb_str_eqb (name : str) (names : list str) :
  existsb (str_eqb name) names = true <-> In name names.
Proof.
  rewrite existsb_exists; split.
  - intros [x [I E]]. apply str_eqb_eq in E; subst; assumption.
  - intros I; exists name; split; [assumption | apply str_eqb_refl].
Qed.

Lemma table_get_none (name : str) (table : tool_table) :
  ~ In name (map fst table) -> table_get name table = None.
Proof.
  induction table as [|[name' entry'] rest IH]; simpl; [reflexivity|].
  intros N. destruct (str_eqb name name') eqn:E.
  - apply str_eqb_eq in E; subst; exfalso; apply N; left; reflexivity.
  - apply IH; intros I; apply N; right; assumption.
Qed.

Lemma table_set_entries (name : str) (entry : tool_entry)
    (table : tool_table) :
  entry_name entry = name ->
  Forall (fun item => entry_name (snd item) = fst item) table ->
  Forall (fun item => entry_name (snd item) = fst item)
    (table_set name entry table).
Proof.
  intros En F; induction F as [|[name' entry'] rest Hx F IH]; simpl.
  - constructor; [assumption | constructor].
  - destruct (str_eqb name name') eqn:E.
    + apply str_eqb_eq in E; subst name'.
      constructor; [assumption | assumption].
    + constructor; [assumption | apply IH].
Qed.

Section Stored.

Context {python : Python}.

(** Whatever [print] does, [register_tool] leaves the tool stored. *)
Lemma register_tool_state (self : ToolRegistry) (name : str)
    (function : tool_callable) (description : str) (w : world) :
  fst (fst (register_tool self name function description w))
  = stored_one self name function description.
Proof.
  unfold register_tool. cbv zeta.
  destruct (py_print (sys_stdout w) _); reflexivity.
Qed.

End Stored.

Lemma stored_one_ok (self : ToolRegistry) (name : str)
    (function : tool_callable) (description : str) :
  registry_ok self ->
  registry_ok (stored_one self name function description).
Proof.
  intros [ND F]. split.
  - unfold tool_names, stored_one; cbn [tools]. rewrite table_set_names.
    destruct (existsb (str_eqb name) (map fst (tools self))) eqn:E;
      [assumption|].
    apply NoDup_app; [assumption | constructor; [intros []|constructor] |].
    intros x I [Ex|[]]; subst x.
    apply (proj2 (existsb_str_eqb name (map fst (tools self)))) in I.
    unfold tool_names in *; congruence.
  - unfold stored_one; cbn [tools].
    apply table_set_entries; [reflexivity | assumption].
Qed.

Lemma list_tools_names (self : ToolRegistry) :
  registry_ok self ->
  map (dict_get k_name) (list_tools self)
  = map (fun n => Some (PStr n)) (tool_names self).
Proof.
  intros [_ F]. unfold list_tools, tool_names. rewrite !map_map.
  apply map_ext_in. intros [n e] I.
  rewrite Forall_forall in F. specialize (F _ I). simpl in F |- *.
  rewrite F. reflexivity.
Qed.

Section RegistryProperties.

Context {python : Python} {host : Host}.

(** X20: after [register_tool], [get_tool] finds the function registered
    under the name, whether the name was new or already in use, and finds
    under every other name what it found before; this holds whether or not
    the line that announces the registration could be printed. *)
Theorem registered_tool_is_found (self : ToolRegistry) (name : str)
    (function : tool_callable) (description : str) (w : world) :
  get_tool (fst (fst (register_tool self name function description w))) name
  = Some function
  /\ forall other, other <> name ->
       get_tool (fst (fst (register_tool self name function description w)))
         other
       = get_tool self other.
Proof.
  unfold get_tool. rewrite register_tool_state. unfold stored_one.
  cbn [tools]. split.
  - rewrite table_get_set_same; reflexivity.
  - intros other N. rewrite table_get_set_other by assumption. reflexivity.
Qed.

(** X21: [register_tool] adds a new name after the names already held and
    leaves the names as they are when the name is in use: a tool that is
    registered again keeps its place in the listing. *)
Theorem registration_order (self : ToolRegistry) (name : str)
    (function : tool_callable) (description : str) (w : world) :
  (In name (tool_names self) ->
   tool_names (fst (fst (register_tool self name function description w)))
   = tool_names self)
  /\ (~ In name (tool_names self) ->
      tool_names (fst (fst (register_tool self name function description w)))
      = tool_names self ++ [name]).
Proof.
  rewrite register_tool_state. unfold tool_names, stored_one. cbn [tools].
  rewrite table_set_names.
  destruct (existsb (str_eqb name) (map fst (tools self))) eqn:E; split;
    intros H; try reflexivity.
  - apply existsb_str_eqb in E; contradiction.
  - apply existsb_str_eqb in H; congruence.
Qed.

(** X22: in a registry that holds no name twice and each entry under its
    own name, [register_tool] keeps it so, and [list_tools] then lists one
    record per name held, in order, each under its [name], with the
    description last registered for the name just registered. *)
Theorem listing_follows_the_registrations (self : ToolRegistry) (name : str)
    (function : tool_callable) (description : str) (w : world) :
  registry_ok self ->
  let self' := fst (fst (register_tool self name function description w)) in
  registry_ok self'
  /\ map (dict_get k_name) (list_tools self')
     = map (fun n => Some (PStr n)) (tool_names self')
  /\ In [(k_name, PStr name); (k_description, PStr description)]
       (list_tools self').
Proof.
  intros Hok; cbv zeta. rewrite register_tool_state.
  pose proof (stored_one_ok name function description Hok) as Hok'.
  split; [exact Hok'|]. split.
  - apply list_tools_names. exact Hok'.
  - unfold list_tools, stored_one; cbn [tools].
    generalize (tools self) as table.
    induction table as [|[name' entry'] rest IH]; simpl.
    + left; reflexivity.
    + destruct (str_eqb name name') eqn:E; simpl.
      * left; reflexivity.
      * right; assumption.
Qed.

(** Registrations whose lines can all be printed return, with every tool
    stored and every line printed. *)
Lemma register_each_returns
    (registrations : list (str * tool_callable * str)) (w : world) :
  forall self,
    (forall r, In r registrations ->
               py_print (sys_stdout w) (registered_line (fst (fst r))) = None) ->
    register_each self registrations w
    = (stored self registrations, Returns tt,
       map (fun r => Print (registered_line (fst (fst r)))) registrations).
Proof.
  induction registrations as [|[[name function] description] rest IH];
    intros self Hall; [reflexivity|].
  cbn [register_each stored fold_left map fst].
  unfold register_tool. cbv zeta.
  change (spanner ++ lit " Tool registered: " ++ name)
    with (registered_line name).
  pose proof (Hall (name, function, description) (or_introl eq_refl)) as P.
  cbn [fst] in P. rewrite P. cbn beta iota.
  rewrite IH by (intros r Hr; apply Hall; right; exact Hr).
  reflexivity.
Qed.

(** Registrations that raise do so with the exception of a line that could
    not be printed; registrations that return have stored every tool. *)
Lemma register_each_outcome
    (registrations : list (str * tool_callable * str)) (w : world) :
  forall self self' result events,
    register_each self registrations w = (self', result, events) ->
    match result with
    | Returns _ =>
        self' = stored self registrations
        /\ events
           = map (fun r => Print (registered_line (fst (fst r))))
               registrations
    | Raises e =>
        exists r,
          In r registrations
          /\ py_print (sys_stdout w) (registered_line (fst (fst r))) = Some e
    end.
Proof.
  induction registrations as [|[[name function] description] rest IH];
    intros self self' result events.
  - cbn [register_each]. intros H. injection H as <- <- <-.
    split; reflexivity.
  - cbn [register_each]. unfold register_tool. cbv zeta.
    change (spanner ++ lit " Tool registered: " ++ name)
      with (registered_line name).
    destruct (py_print (sys_stdout w) (registered_line name)) as [e|] eqn:P;
      cbn beta iota.
    + intros H. injection H as <- <- <-.
      exists (name, function, description).
      split; [left; reflexivity | exact P].
    + destruct (register_each
                  (mkToolRegistry
                     (table_set name (mkEntry function description name)
                        (tools self))) rest w)
        as [[s2 res2] ev2] eqn:R.
      intros H. injection H as <- <- <-.
      specialize (IH _ _ _ _ R). destruct res2 as [u|e].
      * destruct IH as [-> ->]. split; reflexivity.
      * destruct IH as [r [Hr Pr]]. exists r.
        split; [right; exact Hr | exact Pr].
Qed.


Lemma default_names :
  tool_names (stored (mkToolRegistry []) default_tools) = default_names_list.
Proof. reflexivity. Qed.

(** X23: a new registry holds the six default tools under distinct names,
    in the order of their registration with the code executor last, each
    entry under its own name, and announces each registration once.
    [__init__] returns it when the six lines can be printed; when it
    raises, it is with the exception [print] raised for one of them. *)
Theorem default_registry (w : world) :
  ((forall name, In name default_names_list ->
                 py_print (sys_stdout w) (registered_line name) = None) ->
   exists registry,
     ToolRegistry_init w
     = (Returns registry,
        map (fun n => Print (spanner ++ lit " Tool registered: " ++ n))
          (tool_names registry))
     /\ tool_names registry
        = [lit "web_search"; lit "calculator"; lit "write_file";
           lit "read_file"; lit "get_time"; lit "execute_code"]
     /\ registry_ok registry)
  /\ (forall e events,
        ToolRegistry_init w = (Raises e, events) ->
        exists name,
          In name default_names_list
          /\ py_print (sys_stdout w) (registered_line name) = Some e).
Proof.
  split.
  - intros Hall. exists (stored (mkToolRegistry []) default_tools).
    split; [|split; [reflexivity|split]].
    + unfold ToolRegistry_init, _register_default_tools.
      rewrite register_each_returns; [reflexivity|].
      intros r Hr. apply Hall.
      change default_names_list
        with (map (fun r : str * tool_callable * str => fst (fst r))
                default_tools).
      exact (in_map (fun r : str * tool_callable * str => fst (fst r))
               default_tools r Hr).
    + rewrite default_names.
      match goal with
      | |- NoDup ?l =>
          replace l with (nodup (list_eq_dec N.eq_dec) l)
            by (vm_compute; reflexivity)
      end.
      apply NoDup_nodup.
    + repeat constructor.
  - intros e events. unfold ToolRegistry_init, _register_default_tools.
    destruct (register_each (mkToolRegistry []) default_tools w)
      as [[self result] ev] eqn:R.
    pose proof (register_each_outcome _ _ _ R) as H.
    destruct result as [u|e0]; [discriminate|].
    intros Y. injection Y as <- _.
    destruct H as [r [Hr Pr]]. exists (fst (fst r)). split; [|exact Pr].
    change default_names_list
      with (map (fun r : str * tool_callable * str => fst (fst r))
              default_tools).
    exact (in_map (fun r : str * tool_callable * str => fst (fst r))
             default_tools r Hr).
Qed.

End RegistryProperties.

(** ** The tools of the registry and the agent's call *)

Lemma split_once_found (sep : char) (name content : str) :
  ~ In sep name ->
  split_once sep (name ++ sep :: content) = (name, Some content).
Proof.
  induction name as [|c name IH]; simpl; intros N.
  - rewrite N.eqb_refl; reflexivity.
  - destruct (c =? sep)%N eqn:E.
    + apply N.eqb_eq in E; exfalso; apply N; left; assumption.
    + rewrite IH; [reflexivity|]. intros I; apply N; right; assumption.
Qed.

Lemma split_once_missing (sep : char) (s : str) :
  ~ In sep s -> split_once sep s = (s, None).
Proof.
  induction s as [|c s IH]; simpl; intros N; [reflexivity|].
  destruct (c =? sep)%N eqn:E.
  - apply N.eqb_eq in E; exfalso; apply N; left; assumption.
  - rewrite IH; [reflexivity|]. intros I; apply N; right; assumption.
Qed.

Lemma safe_expr_app (x y : str) :
  safe_expr (x ++ y) = safe_expr x ++ safe_expr y.
Proof. apply filter_app. Qed.

(** The class of the calculator, character by character. *)
Lemma calculator_keeps_alphabet (c : char) :
  calculator_keeps c = existsb (N.eqb c) calculator_alphabet.
Proof.
  unfold calculator_keeps, calculator_alphabet, in_range.
  cbn [lit map list_ascii_of_string N_of_ascii N_of_digits existsb].
  repeat match goal with
         | |- context [(c =? ?k)%N] =>
             destruct (N.eqb_spec c k) as [->|?]; [reflexivity|]
         end.
  cbn [orb].
  destruct (N.leb_spec 48 c) as [L|L]; [|reflexivity].
  destruct (N.leb_spec c 57) as [U|U]; [|reflexivity].
  exfalso. lia.
Qed.

Section ToolProperties.

Context {python : Python} {host : Host}.

(** X24: what the calculator evaluates.  Sanitising deletes characters one
    by one and keeps the others in place; the characters it keeps are the
    ten digits, [+ - * / ( ) . ,] and the nine letters of [sqrt], [pow]
    and [abs], each letter on its own, and no other.  Two expressions that
    agree once the other characters are deleted, and whose progress lines
    can be printed, get the same result, error and success flag; the call
    leaves the world as it was. *)
Theorem calculator_reads_kept_characters (e1 e2 : str) (w : world) :
  (forall x y, safe_expr (x ++ y) = safe_expr x ++ safe_expr y)
  /\ (forall c,
        safe_expr [c]
        = if existsb (N.eqb c) (lit "0123456789+-*/().,abopqrstw")
          then [c] else [])
  /\ (py_print (sys_stdout w) (keycap ++ lit " Calculating: " ++ e1) = None ->
      py_print (sys_stdout w) (keycap ++ lit " Calculating: " ++ e2) = None ->
      safe_expr e1 = safe_expr e2 ->
      calculator_report (fst (fst (_calculator e1 w)))
      = calculator_report (fst (fst (_calculator e2 w))))
  /\ snd (fst (_calculator e1 w)) = w.
Proof.
  split; [exact safe_expr_app|]. split.
  { intros c. unfold safe_expr. cbn [filter].
    rewrite calculator_keeps_alphabet. reflexivity. }
  split.
  - intros P1 P2 E. unfold _calculator. cbv zeta. rewrite P1, P2, E.
    destruct (eval_expression (safe_expr e2)) as [result|e]; [reflexivity|].
    destruct (is_Exception e); reflexivity.
  - unfold _calculator. cbv zeta.
    destruct (py_print (sys_stdout w) _) as [e|].
    + destruct (is_Exception e); reflexivity.
    + destruct (eval_expression (safe_expr e1)) as [result|e]; [reflexivity|].
      destruct (is_Exception e); reflexivity.
Qed.

(** X25: [_write_file] cuts its argument at the first bar only: the text
    before it, stripped, names the file, all that follows it, further bars
    included, is written, and a write that succeeds is reported with the
    number of characters of that content.  Where the progress line cannot
    be written, the handler of the tool answers with the error of [print]
    and nothing is written. *)
Theorem write_file_cuts_at_first_bar (name content : str) (w : world) :
  ~ In bar name ->
  write_text (strip name) content = None ->
  match py_print (sys_stdout w)
          (floppy ++ lit " Writing to file: " ++ strip name) with
  | None =>
      _write_file (name ++ bar :: content) w
      = (Returns [(k_filename, PStr (strip name));
                  (k_bytes_written, PInt (Z.of_nat (List.length content)));
                  (k_success, PBool true)],
         w, [Print (floppy ++ lit " Writing to file: " ++ strip name)])
  | Some e =>
      _write_file (name ++ bar :: content) w
      = (if is_Exception e
         then Returns [(k_error, PStr (exc_str e)); (k_success, PBool false)]
         else Raises e, w, [])
  end.
Proof.
  intros N W. unfold _write_file.
  rewrite split_once_found by assumption. cbn [fst snd]. cbv zeta.
  destruct (py_print (sys_stdout w) _) as [e|].
  - destruct (is_Exception e); reflexivity.
  - rewrite W. reflexivity.
Qed.

(** X26: an argument without a bar names a file and nothing to put in it:
    [_write_file] writes the empty text to the file named by the stripped
    argument and reports zero characters written.  Where the progress line
    cannot be written, the handler of the tool answers with the error of
    [print] and nothing is written. *)
Theorem write_file_without_bar (args : str) (w : world) :
  ~ In bar args ->
  write_text (strip args) [] = None ->
  match py_print (sys_stdout w)
          (floppy ++ lit " Writing to file: " ++ strip args) with
  | None =>
      _write_file args w
      = (Returns [(k_filename, PStr (strip args));
                  (k_bytes_written, PInt 0);
                  (k_success, PBool true)],
         w, [Print (floppy ++ lit " Writing to file: " ++ strip args)])
  | Some e =>
      _write_file args w
      = (if is_Exception e
         then Returns [(k_error, PStr (exc_str e)); (k_success, PBool false)]
         else Raises e, w, [])
  end.
Proof.
  intros N W. unfold _write_file.
  rewrite split_once_missing by assumption. cbn [fst snd]. cbv zeta.
  destruct (py_print (sys_stdout w) _) as [e|].
  - destruct (is_Exception e); reflexivity.
  - rewrite W. reflexivity.
Qed.

(** X27: [_execute_tool] answers a name the registry does not hold with
    the record of the missing tool, without calling anything, printing
    anything or touching the world. *)
Theorem unknown_tool_is_reported (tool_registry : ToolRegistry)
    (tool_name tool_input : str) (w : world) :
  ~ In tool_name (tool_names tool_registry) ->
  _execute_tool tool_registry tool_name tool_input w
  = (Returns [(k_error, PStr (lit "Tool '" ++ tool_name
                                ++ lit "' not found"));
              (k_success, PBool false)], w, []).
Proof.
  intros N. unfold _execute_tool, get_tool.
  rewrite table_get_none by exact N. reflexivity.
Qed.


End ToolProperties.

(** ** The further properties on concrete inputs *)


(** The number 5 given as code. *)
Lemma execute_refuses_invalid_input_witness :
  (forall text, PInt 5 = PStr text -> text = [])
  /\ @execute silent (@SafeCodeExecutor_init silent 5 50) (PInt 5)
       fresh_world
     = (Returns (mkResult [] [] false (lit "Invalid code input")),
        fresh_world, []).
Proof.
  assert (H : forall text, PInt 5 = PStr text -> text = [])
    by (intros text E; discriminate E).
  split; [exact H|].
  exact (proj1 (@execute_refuses_invalid_input silent
                  (@SafeCodeExecutor_init silent 5 50) (PInt 5) fresh_world
                  H)).
Defined.

(** The code [x = 1] on a fresh process: the handler and the limit of the
    executor are still in place after the call. *)
Lemma handler_and_limit_outlive_the_call_witness :
  sigalrm fresh_world = DefaultHandler
  /\ rlimit_as fresh_world = Rlimit None None
  /\ sigalrm (snd (fst (@execute silent (@SafeCodeExecutor_init silent 5 50)
                          (PStr (lit "x = 1")) fresh_world)))
     = TimeoutHandler 5
  /\ rlimit_as (snd (fst (@execute silent
                            (@SafeCodeExecutor_init silent 5 50)
                            (PStr (lit "x = 1")) fresh_world)))
     = Rlimit (Some 52428800%N) (Some 52428800%N).
Proof.
  split; [reflexivity|]. split; [reflexivity|].
  refine (@handler_and_limit_outlive_the_call silent
            (@SafeCodeExecutor_init silent 5 50) (lit "x = 1") fresh_world
            None None _ _ _ _ _ _ _ _).
  - discriminate.
  - vm_compute; reflexivity.
  - discriminate.
  - reflexivity.
  - reflexivity.
  - intros h E; discriminate E.
  - reflexivity.
  - reflexivity.
Defined.

(** The mode [EXACT], in capitals. *)
Lemma unknown_mode_comparison_witness :
  @_compare_outputs silent (lit "hi") (PStr (lit "hi")) (PStr (lit "EXACT"))
  = Returns
      [(k_mode, PStr (lit "EXACT"));
       (k_match, PBool false);
       (k_similarity, real 0);
       (k_details, PStr (lit "Unknown comparison mode: EXACT"))].
Proof.
  refine (@unknown_mode_comparison silent (lit "hi") (lit "hi")
            (PStr (lit "EXACT")) _ _ _); discriminate.
Defined.

(** The output [  hi] with a newline against the expected [hi ], in fuzzy
    mode. *)
Lemma comparison_ignores_surrounding_space_witness :
  @_compare_outputs silent (lit "  " ++ lit "hi" ++ newline)
    (PStr ([] ++ lit "hi" ++ lit " ")) (PStr (lit "fuzzy"))
  = @_compare_outputs silent (lit "hi") (PStr (lit "hi"))
      (PStr (lit "fuzzy")).
Proof.
  refine (@comparison_ignores_surrounding_space silent (lit "hi") (lit "hi")
            (lit "  ") newline [] (lit " ") (PStr (lit "fuzzy")) _ _ _ _);
    reflexivity.
Defined.

(** Two blanks expected of the output [hi]. *)
Lemma blank_expected_is_contained_witness :
  exists comparison,
    @_compare_outputs silent (lit "hi") (PStr (lit "  "))
      (PStr (lit "contains"))
    = Returns comparison
    /\ dict_get k_match comparison = Some (PBool true).
Proof.
  refine (@blank_expected_is_contained silent (lit "hi") (lit "  ") _).
  reflexivity.
Defined.

(** The output [hi] with a newline against the expected [ hi]. *)
Lemma equal_texts_match_in_every_mode_witness :
  strip (lit "hi" ++ newline) = strip (lit " hi")
  /\ exists comparison similarity,
       @_compare_outputs silent (lit "hi" ++ newline) (PStr (lit " hi"))
         (PStr (lit "fuzzy"))
       = Returns comparison
       /\ dict_get k_similarity comparison = Some (real similarity)
       /\ (similarity == 1)%Q
       /\ dict_get k_match comparison = Some (PBool true).
Proof.
  assert (H : strip (lit "hi" ++ newline) = strip (lit " hi"))
    by reflexivity.
  split; [exact H|].
  exact (proj1 (@equal_texts_match_in_every_mode silent
                  (lit "hi" ++ newline) (lit " hi") H)).
Defined.

(** The output [ab] against the expected [cd]. *)
Lemma disjoint_texts_do_not_match_witness :
  exists comparison similarity,
    @_compare_outputs silent (lit "ab") (PStr (lit "cd"))
      (PStr (lit "fuzzy"))
    = Returns comparison
    /\ dict_get k_similarity comparison = Some (real similarity)
    /\ (similarity == 0)%Q
    /\ dict_get k_match comparison = Some (PBool false).
Proof.
  refine (@disjoint_texts_do_not_match silent (lit "ab") (lit "cd") _ _).
  - intros x Hx Hy. vm_compute in Hx, Hy.
    destruct Hx as [<-|[<-|[]]]; destruct Hy as [E|[E|[]]]; discriminate E.
  - left; discriminate.
Defined.

(** The request [{"code": 5}]. *)
Lemma non_request_is_answered_unrun_witness :
  json_loads request_code_5 = Decoded (PDict [(k_code, PInt 5)])
  /\ @execute_and_compare silent (the_tool silent) request_code_5
       fresh_world
     = (Returns
          [(k_success, PBool false);
           (k_error,
            PStr (lit "Tool error: object of type 'int' has no len()"))],
        fresh_world, []).
Proof.
  assert (H : json_loads request_code_5 = Decoded (PDict [(k_code, PInt 5)]))
    by (vm_compute; reflexivity).
  split; [exact H|].
  exact (@non_request_is_answered_unrun silent (the_tool silent)
           request_code_5 (PDict [(k_code, PInt 5)]) fresh_world H eq_refl).
Defined.


(** The request [{"code": "print('hi')", "expected_output": "hi",
    "compare_mode": "exact"}], in a runtime where the run prints hi. *)
Lemma comparison_is_of_the_reported_output_witness :
  exists d result comparison,
    json_loads request_hi = Decoded (PDict d)
    /\ fst (fst (@execute_and_compare (printing "hi")
                   (the_tool (printing "hi")) request_hi fresh_world))
       = Returns result
    /\ dict_get k_comparison result = Some (PDict comparison)
    /\ @_compare_outputs (printing "hi") (lit "hi" ++ newline)
         (PStr (lit "hi")) (PStr (lit "exact"))
       = Returns comparison.
Proof.
  assert (H : json_loads request_hi
              = Decoded (PDict [(k_code, PStr (lit "print('hi')"));
                                (k_expected_output, PStr (lit "hi"));
                                (k_compare_mode, PStr (lit "exact"))]))
    by (vm_compute; reflexivity).
  pose proof (@comparison_is_of_the_reported_output (printing "hi")
                (the_tool (printing "hi")) request_hi _ fresh_world H) as E.
  destruct (@execute_and_compare (printing "hi") (the_tool (printing "hi"))
              request_hi fresh_world) as [[[result|e] w'] events] eqn:R;
    [|vm_compute in R; discriminate R].
  assert (C : exists comparison,
             dict_get k_comparison result = Some (PDict comparison)).
  { vm_compute in R. injection R as <- _ _. eexists. reflexivity. }
  destruct C as [comparison C].
  destruct (E comparison C) as [out [O [_ [M _]]]].
  assert (O' : out = lit "hi" ++ newline).
  { vm_compute in R. injection R as <- _ _. vm_compute in O.
    injection O as <-. reflexivity. }
  subst out.
  eexists _, result, comparison.
  split; [exact H|]. split; [reflexivity|]. split; [exact C|]. exact M.
Defined.

(** The request [{"code": "import os", "expected_output": "x"}]. *)
Lemma blocked_request_is_not_compared_witness :
  exists blocked,
    fst (fst (@execute_and_compare silent (@CodeExecutorTool_init silent 5 50)
                request_import_os fresh_world))
    = Returns
        [(k_code, PStr (lit "import os"));
         (k_execution_success, PBool false);
         (k_output, PStr []);
         (k_errors, PStr []);
         (k_message, PStr (lit "Blocked operation detected: " ++ blocked));
         (k_expected_output, PStr (lit "x"));
         (k_comparison, PNone)]
    /\ In blocked deny_list.
Proof.
  assert (H : json_loads request_import_os
              = Decoded (PDict [(k_code, PStr (lit "import os"));
                                (k_expected_output, PStr (lit "x"))]))
    by (vm_compute; reflexivity).
  assert (T : In (lit "os") deny_list) by (left; reflexivity).
  assert (O : exists l r, lower (lit "import os") = l ++ lit "os" ++ r)
    by (exists (lit "import "), []; reflexivity).
  destruct (@blocked_request_is_not_compared silent 5 50 request_import_os
              _ (lit "import os") (lit "os") fresh_world H eq_refl T O)
    as [blocked [E [B _]]].
  exists blocked. split; [rewrite E; reflexivity | exact B].
Defined.

(** A tool registered under [echo] in an empty registry. *)
Lemma listing_follows_the_registrations_witness :
  registry_ok (mkToolRegistry [])
  /\ list_tools
       (fst (fst (@register_tool silent (mkToolRegistry []) (lit "echo")
                    idle_tool (lit "Repeat the input") fresh_world)))
     = [[(k_name, PStr (lit "echo"));
         (k_description, PStr (lit "Repeat the input"))]]
  /\ registry_ok
       (fst (fst (@register_tool silent (mkToolRegistry []) (lit "echo")
                    idle_tool (lit "Repeat the input") fresh_world))).
Proof.
  assert (H : registry_ok (mkToolRegistry []))
    by (split; constructor).
  split; [exact H|]. split; [reflexivity|].
  exact (proj1 (@listing_follows_the_registrations silent (mkToolRegistry [])
                  (lit "echo") idle_tool (lit "Repeat the input")
                  fresh_world H)).
Defined.

(** The expressions [1 + 2] and [1 + 2 = ?]: the same characters are
    kept of both. *)
Lemma calculator_reads_kept_characters_witness :
  safe_expr (lit "1 + 2") = safe_expr (lit "1 + 2 = ?")
  /\ safe_expr (lit "1 + 2") = lit "1+2"
  /\ calculator_report
       (fst (fst (@_calculator silent plain_host (lit "1 + 2") fresh_world)))
     = calculator_report
         (fst (fst (@_calculator silent plain_host (lit "1 + 2 = ?")
                      fresh_world)))
  /\ calculator_report
       (fst (fst (@_calculator silent plain_host (lit "1 + 2") fresh_world)))
     = Returns (Some (PInt 3), None, Some (PBool true)).
Proof.
  assert (H : safe_expr (lit "1 + 2") = safe_expr (lit "1 + 2 = ?"))
    by reflexivity.
  split; [exact H|]. split; [reflexivity|]. split; [|reflexivity].
  exact (proj1 (proj2 (proj2 (@calculator_reads_kept_characters silent
                                plain_host (lit "1 + 2") (lit "1 + 2 = ?")
                                fresh_world)))
           eq_refl eq_refl H).
Defined.

(** The argument [ notes.txt |a|b]. *)
Lemma write_file_cuts_at_first_bar_witness :
  @_write_file silent plain_host (lit " notes.txt " ++ bar :: lit "a|b")
    fresh_world
  = (Returns [(k_filename, PStr (lit "notes.txt"));
              (k_bytes_written, PInt 3);
              (k_success, PBool true)],
     fresh_world, [Print (floppy ++ lit " Writing to file: notes.txt")]).
Proof.
  refine (@write_file_cuts_at_first_bar silent plain_host
            (lit " notes.txt ") (lit "a|b") fresh_world _ eq_refl).
  intros I. vm_compute in I.
  repeat (destruct I as [I|I]; [discriminate I|]). exact I.
Defined.

(** The argument [notes.txt]. *)
Lemma write_file_without_bar_witness :
  @_write_file silent plain_host (lit "notes.txt") fresh_world
  = (Returns [(k_filename, PStr (lit "notes.txt"));
              (k_bytes_written, PInt 0);
              (k_success, PBool true)],
     fresh_world, [Print (floppy ++ lit " Writing to file: notes.txt")]).
Proof.
  refine (@write_file_without_bar silent plain_host (lit "notes.txt")
            fresh_world _ eq_refl).
  intros I. vm_compute in I.
  repeat (destruct I as [I|I]; [discriminate I|]). exact I.
Defined.

(** The name [translate] on a new registry. *)
Lemma unknown_tool_is_reported_witness :
  fst (@ToolRegistry_init silent plain_host fresh_world)
  = Returns (stored (mkToolRegistry []) (@default_tools silent plain_host))
  /\ @_execute_tool silent
       (stored (mkToolRegistry []) (@default_tools silent plain_host))
       (lit "translate") (lit "bonjour") fresh_world
     = (Returns [(k_error, PStr (lit "Tool 'translate' not found"));
                 (k_success, PBool false)], fresh_world, []).
Proof.
  split; [reflexivity|].
  refine (@unknown_tool_is_reported silent
            (stored (mkToolRegistry []) (@default_tools silent plain_host))
            (lit "translate") (lit "bonjour") fresh_world _).
  intros I. vm_compute in I.
  repeat (destruct I as [I|I]; [discriminate I|]). exact I.
Defined.

